(** * Swiss public transport: decision summary, GTFS lookup and CSV reader

    A shallow embedding of [src/insights/decision.ts], [src/gtfs/lookup.ts]
    and [scripts/build-gtfs-lookup.ts], followed by the properties of the
    specification that were checked against it.

    Conventions of the embedding:
    - a JavaScript [number] that the code computes with as a real quantity
      (scores, penalties, weights) is an IEEE-754 binary64 value, Rocq's
      primitive [float], so every sum and product rounds as in the engine;
    - a [number] that the code only produces and consumes as a whole count
      (minutes, transfer counts, priorities) is a [Z]; it is converted with
      [JS.ofZ] where it enters floating-point arithmetic;
    - a [number] that may be any finite number and that the code only
      compares, adds and prints (the requested transfer limit, the delay
      of a leg) is a [Q], the rational that the double denotes; a sum of
      such numbers is the exact sum, of which the engine keeps the
      nearest double: both have the same sign, and they are equal for
      whole numbers below 2^53;
    - a string is the sequence of bytes of its UTF-8 encoding;
    - [T | undefined] is [option T];
    - a function that can throw returns an [option], [None] standing for
      the exception ([subtractMinutes], and with it the composer);
    - an object used as a dictionary is a [gmap] keyed by strings, holding
      the object's own properties;
    - built-ins whose result depends on the host (date parsing, locale
      formatting, number formatting) are fields of the class [Runtime]. *)

From Stdlib Require Import ZArith QArith Qround Lqa List String Ascii Lia.
From Stdlib Require Import PrimFloat FloatOps SpecFloat FloatAxioms.
From Stdlib Require Import Permutation Sorted.
From stdpp Require Import gmap strings list pretty.

Close Scope Q_scope.
Set Warnings "-inexact-float".
Local Open Scope string_scope.

(* ================================================================== *)
(** * Part I: the embedding *)
(* ================================================================== *)

(** ** JavaScript values *)

Module JS.

(** *** Numbers *)

Definition isNaN (x : float) : bool := negb (PrimFloat.eqb x x).

(** [Math.max] and [Math.min] on two arguments: NaN is contagious and
    [+0] is larger than [-0]. *)
Definition Math_max (a b : float) : float :=
  if isNaN a || isNaN b then nan
  else if PrimFloat.ltb a b then b
  else if PrimFloat.ltb b a then a
  else if get_sign a then b else a.

Definition Math_min (a b : float) : float :=
  if isNaN a || isNaN b then nan
  else if PrimFloat.ltb a b then a
  else if PrimFloat.ltb b a then b
  else if get_sign a then a else b.

(** The variadic forms fold from the left, starting at the neutral
    infinity, so [Math.min()] is [Infinity]. *)
Definition Math_max_list (l : list float) : float :=
  fold_left Math_max l neg_infinity.

Definition Math_min_list (l : list float) : float :=
  fold_left Math_min l infinity.

(** The double nearest to an integer (exact below 2^53). *)
Definition ofZ (z : Z) : float :=
  SF2Prim (binary_normalize prec emax z 0 false).

(** [a >= b] and [a > b] are [b <= a] and [b < a]. *)
Definition geb (a b : float) : bool := PrimFloat.leb b a.
Definition gtb (a b : float) : bool := PrimFloat.ltb b a.

(** [a < b] and [x > 0] for finite numbers. *)
Definition ltQ (a b : Q) : bool := negb (Qle_bool b a).
Definition positive (x : Q) : bool := ltQ 0%Q x.

(** [Number.isInteger] for a finite number. *)
Definition isInteger (x : Q) : bool := Qeq_bool (inject_Z (Qfloor x)) x.

(** [Math.max] on two finite numbers. *)
Definition maxQ (a b : Q) : Q := if ltQ a b then b else a.

(** [Math.round] of a finite number: the nearest whole number, halves
    going up. *)
Definition roundQ (x : Q) : Z := Qfloor (x + (1 # 2))%Q.

(** *** Strings *)

(** Truthiness of [string | undefined]: only a non-empty string. *)
Definition truthy (o : option string) : bool :=
  match o with
  | Some s => negb (String.eqb s "")
  | None => false
  end.

(** [a || b] on [string | undefined]. *)
Definition or_else (a b : option string) : option string :=
  if truthy a then a else b.

(** [a || b] where [b] is a string. *)
Definition or_str (a : option string) (b : string) : string :=
  match a with
  | Some s => if String.eqb s "" then b else s
  | None => b
  end.

(** [s || undefined]. *)
Definition nonEmpty (s : string) : option string :=
  if String.eqb s "" then None else Some s.

(** The code points ECMAScript counts as white space or line
    terminators, each as its UTF-8 bytes: TAB, LF, VT, FF, CR, SP,
    U+00A0, U+1680, U+2000..U+200A, U+2028, U+2029, U+202F, U+205F,
    U+3000 and U+FEFF. *)
Definition whiteSpace : list (list nat) :=
  [ [9]; [10]; [11]; [12]; [13]; [32];
    [194; 160];
    [225; 154; 128];
    [226; 128; 128]; [226; 128; 129]; [226; 128; 130]; [226; 128; 131];
    [226; 128; 132]; [226; 128; 133]; [226; 128; 134]; [226; 128; 135];
    [226; 128; 136]; [226; 128; 137]; [226; 128; 138];
    [226; 128; 168]; [226; 128; 169]; [226; 128; 175];
    [226; 129; 159];
    [227; 128; 128];
    [239; 187; 191] ]%nat.

Definition isWhiteSpace (bs : list ascii) : bool :=
  bool_decide (List.map nat_of_ascii bs ∈ whiteSpace).

(** Drop white-space code points from the front; [view] tells how the
    first [k] bytes are to be read ([id] from the left, [rev] when the
    list is the reversed string). *)
Fixpoint stripLeading (view : list ascii -> list ascii) (fuel : nat)
    (bs : list ascii) : list ascii :=
  match fuel with
  | O => bs
  | S fuel' =>
      if isWhiteSpace (view (take 1 bs)) then stripLeading view fuel' (drop 1 bs)
      else if isWhiteSpace (view (take 2 bs)) then stripLeading view fuel' (drop 2 bs)
      else if isWhiteSpace (view (take 3 bs)) then stripLeading view fuel' (drop 3 bs)
      else bs
  end.

(** [String.prototype.trim]. *)
Definition trim (s : string) : string :=
  let bs := list_ascii_of_string s in
  let front := stripLeading (fun x => x) (length bs) bs in
  let back := stripLeading (@rev ascii) (length front) (rev front) in
  string_of_list_ascii (rev back).

(** [Array.prototype.join]. *)
Definition join (sep : string) (l : list string) : string :=
  String.concat sep l.

(** [`${n}`] for a whole number. *)
Definition showZ (z : Z) : string := pretty z.

(** [Array.prototype.sort] with a comparator: the stable sort, written
    as insertion from the right.  [gt a b] says that the comparator's
    result on [(a, b)] is positive.  (For a comparator that is not a
    consistent order, e.g. on NaN keys, the engine's order is
    implementation-defined; this is one admissible outcome.) *)
Section Sort.
Context {A : Type} (gt : A -> A -> bool).

Fixpoint insert (x : A) (l : list A) : list A :=
  match l with
  | [] => [x]
  | y :: l' => if gt x y then y :: insert x l' else x :: l
  end.

Definition sort (l : list A) : list A := fold_right insert [] l.
End Sort.

(** The comparator [(a, b) => key(a) - key(b)] on whole-number keys: its
    result is positive when [0 < key a - key b]. *)
Definition byDifference {A : Type} (key : A -> Z) (a b : A) : bool :=
  (0 <? key a - key b)%Z.

End JS.

(** ** Built-ins that depend on the host *)

Class Runtime := {
  (** [new Date(s).getTime()]: milliseconds since the epoch, [None] for
      an invalid date (NaN). *)
  Date_parse : string -> option Z;
  (** [date.toLocaleTimeString("de-CH", {hour: "2-digit", minute: "2-digit"})]
      of a valid time value. *)
  toLocaleTimeString : Z -> string;
  (** The time value after [date.setMinutes(date.getMinutes() - m)];
      [None] when it leaves the range of time values (8.64e15 ms either
      side of the epoch), which leaves the date invalid. *)
  setMinutesBack : Z -> Z -> option Z;
  (** [date.toISOString()] of a valid time value. *)
  toISOString : Z -> string;
  (** [x.toFixed(2)]. *)
  toFixed2 : float -> string;
  (** [`${x}`] for a finite number [x]. *)
  numberToString : Q -> string
}.

(** ** The data model of [decision.ts]

    [Connection], [Leg] and [WeatherInsight] are declared in
    [src/types], which is not part of the sources at hand; the records
    below carry the fields that [decision.ts] reads, with the types its
    uses of them require. *)

Inductive LegType := ride | walk.

Inductive RiskLevel := low | medium | high.

Module Stop.
Record t := {
  name : string;
  timePlanned : string;
  timeActual : option string;
  platform : option string
}.
End Stop.

Module Leg.
Record t := {
  type : LegType;
  from : Stop.t;
  to : Stop.t;
  line : option string;
  delayMinutes : option Q
}.
End Leg.

Module Weather.
Record Sample := {
  precipitation : float;
  snowfall : float;
  windGusts : float
}.
Record Reason := { label : string }.
Record t := {
  penalty : float;
  level : RiskLevel;
  samples : list Sample;
  reasons : list Reason
}.
End Weather.

Module Reliability.
Record Reason := { code : string }.
Record t := {
  score : float;
  reasons : list Reason
}.
End Reliability.

Module Connection.
Record t := {
  id : string;
  departureTime : string;
  arrivalTime : string;
  durationMinutes : Z;
  transfersCount : Z;
  legs : list Leg.t;
  reliabilityScore : option float;
  reliability : option Reliability.t;
  weather : option Weather.t
}.
End Connection.

Module Preferences.
(** [maxTransfers] is any finite number the caller sends, kept as the
    rational it denotes. *)
Record t := {
  maxTransfers : option Q;
  preferLowWalking : option bool;
  minimizeOutdoorIfRaining : option bool
}.
End Preferences.

Module Context.
Record t := {
  from : string;
  to : string;
  requestedTimeISO : string;
  isArrivalTime : bool;
  arrivalBufferMinutes : option Z;
  departureBufferMinutes : option Z;
  preferences : option Preferences.t
}.
End Context.

Module Metrics.
Record t := {
  walkingMinutes : Z;
  transferWaitMinutes : Z;
  minTransferMinutes : option Z;
  transferStation : option string;
  exposureMinutes : Z;
  delayMinutesTotal : Q;
  delayAlerts : list string;
  platformChanges : list string
}.
End Metrics.

Module Risk.
Record t := { score : float; level : RiskLevel }.
End Risk.

(** ** Connection metrics ([buildMetrics]) *)

Section Metrics.
Context `{Runtime}.
Local Open Scope Z_scope.

(** [Math.round] of [d / 60000] for a whole number of milliseconds [d]:
    the nearest integer, halves going up.  The quotient of the doubles
    rounds to the same integer as the exact quotient as long as the two
    time values are less than 2^52 ms from the epoch, which covers every
    date within 140000 years of 1970. *)
Definition roundMinutes (d : Z) : Z := (2 * d + 60000) / 120000.

Definition minutesBetween (startISO endISO : option string) : Z :=
  if negb (JS.truthy startISO) || negb (JS.truthy endISO) then 0
  else
    match startISO ≫= Date_parse, endISO ≫= Date_parse with
    | Some start, Some end_ => Z.max 0 (roundMinutes (end_ - start))
    | _, _ => 0
    end.

(** [stop.timeActual || stop.timePlanned]. *)
Definition actualOrPlanned (s : Stop.t) : option string :=
  Some (JS.or_str (Stop.timeActual s) (Stop.timePlanned s)).

Definition isWalk (leg : Leg.t) : bool :=
  match Leg.type leg with walk => true | ride => false end.

Definition isRide (leg : Leg.t) : bool :=
  match Leg.type leg with ride => true | walk => false end.

Definition walkingMinutesOf (walkLegs : list Leg.t) : Z :=
  fold_left
    (fun sum leg =>
       sum + minutesBetween (actualOrPlanned (Leg.from leg))
                            (actualOrPlanned (Leg.to leg)))
    walkLegs 0.

(** The loop [for (i = 0; i < rideLegs.length - 1; i += 1)], pushing one
    wait per round. *)
Definition transferWaitMinutesList (rideLegs : list Leg.t) : list Z :=
  fold_left
    (fun acc i =>
       match rideLegs !! i, rideLegs !! S i with
       | Some cur, Some next =>
           (acc ++ [minutesBetween (actualOrPlanned (Leg.to cur))
                                   (actualOrPlanned (Leg.from next))])%list
       | _, _ => acc
       end)
    (seq 0%nat (length rideLegs - 1)%nat) [].

(** [Math.min(...list)] of a non-empty list of whole numbers. *)
Definition minOf (x : Z) (l : list Z) : Z := fold_left Z.min l x.

(** [Array.prototype.findIndex]; [None] stands for [-1]. *)
Fixpoint findIndex {A} (p : A -> bool) (l : list A) : option nat :=
  match l with
  | [] => None
  | x :: l' => if p x then Some 0%nat else S <$> findIndex p l'
  end.

(** [Array.prototype.includes] on strings, and the push that follows it. *)
Definition includes (x : string) (l : list string) : bool :=
  existsb (String.eqb x) l.

Definition pushNew (l : list string) (x : string) : list string :=
  if includes x l then l else (l ++ [x])%list.

Definition delayLabel (leg : Leg.t) (d : Q) : string :=
  match JS.or_else (Leg.line leg) None with
  | Some line => line +:+ " +" +:+ numberToString d +:+ " min"
  | None => "Delay +" +:+ numberToString d +:+ " min"
  end.

(** One round of the loop over ride legs: a delay that is present and
    positive is added to the total as it is, and its alert is pushed
    unless it is there already. *)
Definition addDelay (st : list string * Q) (leg : Leg.t) : list string * Q :=
  let '(alerts, total) := st in
  match Leg.delayMinutes leg with
  | Some d =>
      if JS.positive d
      then (pushNew alerts (delayLabel leg d), (total + d)%Q)
      else (alerts, total)
  | None => (alerts, total)
  end.

(** The loop over ride legs that collects the delay alerts and their total. *)
Definition delaysOf (rideLegs : list Leg.t) : list string * Q :=
  fold_left addDelay rideLegs ([], 0%Q).

(** [platform.includes("!")]. *)
Definition hasBang (platform : string) : bool :=
  existsb (Ascii.eqb "!"%char) (list_ascii_of_string platform).

Definition addPlatformChange (changes : list string) (station : string)
    (platform : option string) : list string :=
  match platform with
  | Some p =>
      if String.eqb p "" || negb (hasBang p) then changes
      else pushNew changes (station +:+ " (Pl. " +:+ p +:+ ")")
  | None => changes
  end.

Definition platformChangesOf (legs : list Leg.t) : list string :=
  fold_left
    (fun changes leg =>
       let changes' :=
         addPlatformChange changes (Stop.name (Leg.from leg))
                           (Stop.platform (Leg.from leg)) in
       addPlatformChange changes' (Stop.name (Leg.to leg))
                         (Stop.platform (Leg.to leg)))
    legs [].

Definition buildMetrics (legs : list Leg.t) : Metrics.t :=
  let walkLegs := List.filter isWalk legs in
  let rideLegs := List.filter isRide legs in
  let walkingMinutes := walkingMinutesOf walkLegs in
  let waits := transferWaitMinutesList rideLegs in
  let transferWaitMinutes := fold_left Z.add waits 0 in
  let minTransferMinutes :=
    match waits with
    | [] => None
    | w :: ws => Some (minOf w ws)
    end in
  let tightTransferIndex :=
    findIndex
      (fun minutes =>
         match minTransferMinutes with
         | Some m => (minutes =? m)%Z
         | None => false
         end)
      waits in
  let transferStation :=
    match tightTransferIndex with
    | Some i => (fun leg => Stop.name (Leg.to leg)) <$> rideLegs !! i
    | None => None
    end in
  let '(delayAlerts, delayMinutesTotal) := delaysOf rideLegs in
  {| Metrics.walkingMinutes := walkingMinutes;
     Metrics.transferWaitMinutes := transferWaitMinutes;
     Metrics.minTransferMinutes := minTransferMinutes;
     Metrics.transferStation := transferStation;
     Metrics.exposureMinutes := walkingMinutes + transferWaitMinutes;
     Metrics.delayMinutesTotal := delayMinutesTotal;
     Metrics.delayAlerts := delayAlerts;
     Metrics.platformChanges := platformChangesOf legs |}.

End Metrics.

(** ** Risk model ([computeRisk]) *)

Section RiskModel.

Definition clamp (value min max : float) : float :=
  JS.Math_max min (JS.Math_min max value).

Definition normalize (value min max : float) : float :=
  if PrimFloat.leb max min then 0%float
  else clamp ((value - min) / (max - min))%float 0%float 1%float.

Definition isWetWeather (weather : option Weather.t) : bool :=
  match weather with
  | Some w =>
      match Weather.samples w with
      | [] => false
      | samples =>
          existsb
            (fun sample =>
               JS.gtb (Weather.precipitation sample) 0%float
               || JS.gtb (Weather.snowfall sample) 0%float)
            samples
      end
  | None => false
  end.

Definition getWeatherConditionLabel (weather : option Weather.t)
    : option string :=
  match weather with
  | Some w =>
      match Weather.samples w with
      | [] => None
      | sample :: _ =>
          if JS.gtb (Weather.snowfall sample) 0%float then Some "snow"
          else if JS.gtb (Weather.precipitation sample) 0%float then Some "rain"
          else if JS.gtb (Weather.windGusts sample) 50%float then Some "wind"
          else None
      end
  | None => None
  end.

(** [connection.reliability?.score ?? connection.reliabilityScore ?? 0.7] *)
Definition reliabilityScoreOf (connection : Connection.t) : float :=
  match Connection.reliability connection with
  | Some r => Reliability.score r
  | None =>
      match Connection.reliabilityScore connection with
      | Some s => s
      | None => 0.7%float
      end
  end.

(** [connection.weather?.penalty ?? 0] *)
Definition weatherPenaltyOf (connection : Connection.t) : float :=
  match Connection.weather connection with
  | Some w => Weather.penalty w
  | None => 0%float
  end.

Definition computeRisk (connection : Connection.t) (metrics : Metrics.t)
    : Risk.t :=
  let reliabilityScore := reliabilityScoreOf connection in
  let delayLikelihood := (1 - reliabilityScore)%float in
  let weatherPenalty := weatherPenaltyOf connection in
  let exposureFactor :=
    clamp (JS.ofZ (Metrics.exposureMinutes metrics) / 20)%float
          0%float 1%float in
  let weatherExposureRisk :=
    (weatherPenalty * (0.3 + 0.7 * exposureFactor))%float in
  let tightTransferPenalty :=
    match Metrics.minTransferMinutes metrics with
    | Some m =>
        if (m <? 6)%Z then 0.12%float
        else if (m <? 8)%Z then 0.06%float
        else 0%float
    | None => 0%float
    end in
  let score :=
    clamp (delayLikelihood + weatherExposureRisk + tightTransferPenalty)%float
          0%float 1%float in
  let level :=
    if JS.geb score 0.6%float then high
    else if JS.geb score 0.35%float then medium
    else low in
  {| Risk.score := score; Risk.level := level |}.

End RiskModel.

(** ** Reason selection ([buildReasons]) *)

Module ReasonEntry.
Record t := { label : string; priority : Z }.
End ReasonEntry.

Section Reasons.
Context `{Runtime}.
Local Open Scope Z_scope.

Definition addReason (reasons : list ReasonEntry.t) (label : string)
    (priority : Z) : list ReasonEntry.t :=
  if String.eqb label "" then reasons
  else if existsb (fun r => String.eqb (ReasonEntry.label r) label) reasons
  then reasons
  else (reasons ++ [ {| ReasonEntry.label := label;
                        ReasonEntry.priority := priority |} ])%list.

Definition plural (n : Z) : string := if 1 <? n then "s" else "".

Definition prefersLowWalking (preferences : option Preferences.t) : bool :=
  match preferences ≫= Preferences.preferLowWalking with
  | Some b => b
  | None => false
  end.

(** The blocks of [buildReasons], each taking the list built so far. *)

Definition tightTransferReason (metrics : Metrics.t)
    (reasons : list ReasonEntry.t) : list ReasonEntry.t :=
  match Metrics.minTransferMinutes metrics with
  | Some m =>
      if m <? 8 then
        let station :=
          match JS.or_else (Metrics.transferStation metrics) None with
          | Some s => " at " +:+ s
          | None => ""
          end in
        addReason reasons (JS.showZ m +:+ " min transfer" +:+ station) 1
      else reasons
  | None => reasons
  end.

Definition delayReason (metrics : Metrics.t)
    (reasons : list ReasonEntry.t) : list ReasonEntry.t :=
  if JS.positive (Metrics.delayMinutesTotal metrics) then
    addReason reasons
      ("current delay +"
       +:+ numberToString (Metrics.delayMinutesTotal metrics) +:+ " min") 2
  else reasons.

Definition weatherReason (connection : Connection.t) (metrics : Metrics.t)
    (reasons : list ReasonEntry.t) : list ReasonEntry.t :=
  let weatherCondition :=
    getWeatherConditionLabel (Connection.weather connection) in
  if JS.truthy weatherCondition && (0 <? Metrics.exposureMinutes metrics) then
    addReason reasons
      (JS.or_str weatherCondition "" +:+ " + "
       +:+ JS.showZ (Metrics.exposureMinutes metrics) +:+ " min exposed") 3
  else
    match Connection.weather connection
          ≫= (fun w => head (Weather.reasons w)) with
    | Some r => addReason reasons (Weather.label r) 4
    | None => reasons
    end.

Definition walkingReason (metrics : Metrics.t)
    (preferences : option Preferences.t)
    (reasons : list ReasonEntry.t) : list ReasonEntry.t :=
  let walkingThreshold := if prefersLowWalking preferences then 1 else 6 in
  if walkingThreshold <=? Metrics.walkingMinutes metrics then
    addReason reasons
      (JS.showZ (Metrics.walkingMinutes metrics) +:+ " min walk") 5
  else reasons.

Definition transfersReason (connection : Connection.t)
    (reasons : list ReasonEntry.t) : list ReasonEntry.t :=
  if 0 <? Connection.transfersCount connection then
    addReason reasons
      (JS.showZ (Connection.transfersCount connection) +:+ " transfer"
       +:+ plural (Connection.transfersCount connection)) 6
  else reasons.

Definition platformReason (metrics : Metrics.t)
    (reasons : list ReasonEntry.t) : list ReasonEntry.t :=
  let changes := Z.of_nat (length (Metrics.platformChanges metrics)) in
  if 0 <? changes then
    addReason reasons
      (JS.showZ changes +:+ " platform change" +:+ plural changes) 7
  else reasons.

Definition rushHourReason (connection : Connection.t)
    (reasons : list ReasonEntry.t) : list ReasonEntry.t :=
  match Connection.reliability connection with
  | Some r =>
      if existsb (fun reason => String.eqb (Reliability.code reason) "peak_time")
                 (Reliability.reasons r)
      then addReason reasons "rush hour" 8
      else reasons
  | None => reasons
  end.

(** The candidate reasons, in the order the blocks push them. *)
Definition reasonCandidates (connection : Connection.t) (metrics : Metrics.t)
    (preferences : option Preferences.t) : list ReasonEntry.t :=
  let reasons := [] in
  let reasons := tightTransferReason metrics reasons in
  let reasons := delayReason metrics reasons in
  let reasons := weatherReason connection metrics reasons in
  let reasons := walkingReason metrics preferences reasons in
  let reasons := transfersReason connection reasons in
  let reasons := platformReason metrics reasons in
  let reasons := rushHourReason connection reasons in
  reasons.

(** [reasons.sort((a, b) => a.priority - b.priority).slice(0, 3)] *)
Definition selectedReasons (connection : Connection.t) (metrics : Metrics.t)
    (preferences : option Preferences.t) : list ReasonEntry.t :=
  take 3
    (JS.sort (JS.byDifference ReasonEntry.priority)
             (reasonCandidates connection metrics preferences)).

Definition buildReasons (connection : Connection.t) (metrics : Metrics.t)
    (preferences : option Preferences.t) : list string :=
  List.map ReasonEntry.label (selectedReasons connection metrics preferences).

End Reasons.

(** ** Decision options and the summary ([buildDecisionSummary]) *)

Module Alerts.
Record t := { delays : list string; platformChanges : list string }.
End Alerts.

Module OptionWeather.
Record t := { level : RiskLevel; summary : option string }.
End OptionWeather.

Module DecisionOption.
Record t := {
  id : string;
  rank : Z;
  label : string;
  departureTime : string;
  arrivalTime : string;
  durationMinutes : Z;
  transfersCount : Z;
  minTransferMinutes : option Z;
  walkingMinutes : Z;
  transferWaitMinutes : Z;
  exposureMinutes : Z;
  riskScore : float;
  riskLevel : RiskLevel;
  reasons : list string;
  suggestedDepartureTime : string;
  suggestedLeaveByTime : option string;
  arrivalBufferMinutes : option Z;
  alerts : Alerts.t;
  weather : option OptionWeather.t
}.

(** [{ ...option, label }] and [{ ...option, rank, label }]. *)
Definition withLabel (o : t) (l : string) : t :=
  {| id := id o; rank := rank o; label := l;
     departureTime := departureTime o; arrivalTime := arrivalTime o;
     durationMinutes := durationMinutes o; transfersCount := transfersCount o;
     minTransferMinutes := minTransferMinutes o;
     walkingMinutes := walkingMinutes o;
     transferWaitMinutes := transferWaitMinutes o;
     exposureMinutes := exposureMinutes o;
     riskScore := riskScore o; riskLevel := riskLevel o;
     reasons := reasons o;
     suggestedDepartureTime := suggestedDepartureTime o;
     suggestedLeaveByTime := suggestedLeaveByTime o;
     arrivalBufferMinutes := arrivalBufferMinutes o;
     alerts := alerts o; weather := weather o |}.

Definition withRankLabel (o : t) (r : Z) (l : string) : t :=
  {| id := id o; rank := r; label := l;
     departureTime := departureTime o; arrivalTime := arrivalTime o;
     durationMinutes := durationMinutes o; transfersCount := transfersCount o;
     minTransferMinutes := minTransferMinutes o;
     walkingMinutes := walkingMinutes o;
     transferWaitMinutes := transferWaitMinutes o;
     exposureMinutes := exposureMinutes o;
     riskScore := riskScore o; riskLevel := riskLevel o;
     reasons := reasons o;
     suggestedDepartureTime := suggestedDepartureTime o;
     suggestedLeaveByTime := suggestedLeaveByTime o;
     arrivalBufferMinutes := arrivalBufferMinutes o;
     alerts := alerts o; weather := weather o |}.
End DecisionOption.

Module DataCoverage.
Record t := {
  realtimeDelays : bool;
  platformChanges : bool;
  cancellations : bool;
  serviceNotices : bool
}.
End DataCoverage.

Module Summary.
Record t := {
  from : string;
  to : string;
  requestedTimeISO : string;
  isArrivalTime : bool;
  arrivalBufferMinutes : option Z;
  departureBufferMinutes : option Z;
  constraints : Preferences.t;
  constraintNote : option string;
  options : list DecisionOption.t;
  recommendedOptionId : option string;
  summaryText : string;
  dataCoverage : DataCoverage.t
}.
End Summary.

(** An option of the ranking pass together with its decision score. *)
Module Scored.
Record t := { option : DecisionOption.t; decisionScore : float }.
End Scored.

Section Composer.
Context `{Runtime}.
Local Open Scope Z_scope.

Definition OPTION_LABELS : list string :=
  ["A"; "B"; "C"; "D"; "E"; "F"; "G"; "H"; "I"; "J"; "K"; "L"; "M";
   "N"; "O"; "P"; "Q"; "R"; "S"; "T"; "U"; "V"; "W"; "X"; "Y"; "Z"].

Definition newline : string := String (ascii_of_nat 10) "".

Definition formatTime (iso : string) : string :=
  if String.eqb iso "" then "--:--"
  else
    match Date_parse iso with
    | None => "--:--"
    | Some t => toLocaleTimeString t
    end.

(** [None] stands for the [RangeError] that [toISOString] throws on an
    invalid date: the date is tested before [setMinutes] only. *)
Definition subtractMinutes (iso : string) (minutes : Z) : option string :=
  match Date_parse iso with
  | None => Some iso
  | Some t => toISOString <$> setMinutesBack t minutes
  end.

(** Truthiness of [number | undefined] for a whole number. *)
Definition truthyZ (o : option Z) : bool :=
  match o with
  | Some n => negb (n =? 0)
  | None => false
  end.

Definition showLevel (l : RiskLevel) : string :=
  match l with
  | low => "low"
  | medium => "medium"
  | high => "high"
  end.

(** [OPTION_LABELS[index] ? `Option ${OPTION_LABELS[index]}` : `Option ${index + 1}`] *)
Definition optionLabel (index : nat) : string :=
  match OPTION_LABELS !! index with
  | Some letter => "Option " +:+ letter
  | None => "Option " +:+ JS.showZ (Z.of_nat index + 1)
  end.

Definition formatOptionLine (option : DecisionOption.t) (context : Context.t)
    : string :=
  let transferLabel :=
    if DecisionOption.transfersCount option =? 0 then "direct"
    else JS.showZ (DecisionOption.transfersCount option) +:+ " transfer"
         +:+ plural (DecisionOption.transfersCount option) in
  let connectionPart :=
    match DecisionOption.minTransferMinutes option with
    | Some m =>
        if 0 <? DecisionOption.transfersCount option
        then ", " +:+ JS.showZ m +:+ " min connection"
        else ""
    | None => ""
    end in
  let reasons :=
    match DecisionOption.reasons option with
    | [] => ""
    | rs => " (" +:+ JS.join ", " rs +:+ ")"
    end in
  let bufferNote :=
    match DecisionOption.arrivalBufferMinutes option with
    | Some b =>
        if Context.isArrivalTime context && (0 <? b)
        then " Buffer: " +:+ JS.showZ b +:+ " min."
        else ""
    | None => ""
    end in
  let leaveByNote :=
    if negb (Context.isArrivalTime context)
       && JS.truthy (DecisionOption.suggestedLeaveByTime option)
    then " Leave by "
         +:+ formatTime (JS.or_str (DecisionOption.suggestedLeaveByTime option) "")
         +:+ "."
    else "" in
  let riskScore := toFixed2 (DecisionOption.riskScore option) in
  JS.trim
    (DecisionOption.label option +:+ ": "
     +:+ formatTime (DecisionOption.departureTime option) +:+ " -> "
     +:+ formatTime (DecisionOption.arrivalTime option) +:+ " ("
     +:+ JS.showZ (DecisionOption.durationMinutes option) +:+ " min), "
     +:+ transferLabel +:+ connectionPart +:+ ". Risk: "
     +:+ showLevel (DecisionOption.riskLevel option) +:+ " (" +:+ riskScore
     +:+ ")" +:+ reasons +:+ "." +:+ bufferNote +:+ leaveByNote).

Definition minimizesOutdoor (preferences : option Preferences.t) : bool :=
  match preferences ≫= Preferences.minimizeOutdoorIfRaining with
  | Some b => b
  | None => false
  end.

Definition buildSummaryText (options : list DecisionOption.t)
    (context : Context.t) (constraintNote : option string) : string :=
  match options with
  | [] =>
      "No connections found from " +:+ Context.from context +:+ " to "
      +:+ Context.to context +:+ "."
  | _ =>
      let constraintParts : list string :=
        if Context.isArrivalTime context then
          ["Arrive by " +:+ formatTime (Context.requestedTimeISO context)]
          ++ (match Context.arrivalBufferMinutes context with
              | Some b =>
                  if negb (b =? 0) then ["buffer " +:+ JS.showZ b +:+ " min"]
                  else []
              | None => []
              end)
        else
          ["Depart around " +:+ formatTime (Context.requestedTimeISO context)]
          ++ (match Context.departureBufferMinutes context with
              | Some b =>
                  if negb (b =? 0)
                  then ["leave " +:+ JS.showZ b +:+ " min early"]
                  else []
              | None => []
              end) in
      let constraintParts :=
        match Context.preferences context ≫= Preferences.maxTransfers with
        | Some q =>
            constraintParts
            ++ ["max " +:+ numberToString q +:+ " transfer"
                +:+ (if Qeq_bool q 1 then "" else "s")]
        | None => constraintParts
        end in
      let constraintParts :=
        if prefersLowWalking (Context.preferences context)
        then constraintParts ++ ["prefer low walking"]
        else constraintParts in
      let constraintParts :=
        if minimizesOutdoor (Context.preferences context)
        then constraintParts ++ ["minimize outdoor if raining"]
        else constraintParts in
      let lines := [JS.join "; " constraintParts] in
      let lines :=
        match JS.or_else constraintNote None with
        | Some note => lines ++ [note]
        | None => lines
        end in
      let lines :=
        lines
        ++ imap
             (fun index option =>
                let labelSuffix :=
                  match index with O => " (best)" | S _ => "" end in
                formatOptionLine
                  (DecisionOption.withLabel option
                     (DecisionOption.label option +:+ labelSuffix))
                  context)
             (take 3 options) in
      let lines :=
        match head options with
        | Some topOption =>
            let lines :=
              if Context.isArrivalTime context then
                let buffer :=
                  match DecisionOption.arrivalBufferMinutes topOption with
                  | Some b =>
                      if negb (b =? 0) && (0 <? b)
                      then ", buffer " +:+ JS.showZ b +:+ " min"
                      else ""
                  | None => ""
                  end in
                lines
                ++ ["Suggested departure: "
                    +:+ formatTime (DecisionOption.departureTime topOption)
                    +:+ buffer +:+ "."]
              else if truthyZ (Context.departureBufferMinutes context)
                      && JS.truthy (DecisionOption.suggestedLeaveByTime topOption)
              then
                lines
                ++ ["Suggested departure: leave by "
                    +:+ formatTime
                          (JS.or_str
                             (DecisionOption.suggestedLeaveByTime topOption) "")
                    +:+ "."]
              else lines in
            let delays := Alerts.delays (DecisionOption.alerts topOption) in
            let changes :=
              Alerts.platformChanges (DecisionOption.alerts topOption) in
            let alertParts : list string :=
              (match delays with
               | [] => []
               | _ => ["delays: " +:+ JS.join ", " delays]
               end)
              ++ (match changes with
                  | [] => []
                  | _ => ["platform changes: " +:+ JS.join ", " changes]
                  end) in
            (match alertParts with
             | [] => lines
             | _ => lines ++ ["Live alerts: " +:+ JS.join "; " alertParts +:+ "."]
             end)
        | None => lines
        end in
      JS.join newline lines
  end%list.

End Composer.

Module Weights.
Record t := {
  risk : float;
  duration : float;
  transfer : float;
  walking : float;
  exposure : float
}.

(** [Object.values(weights)], in the order the literal lists its keys. *)
Definition values (w : t) : list float :=
  [risk w; duration w; transfer w; walking w; exposure w].
End Weights.

(** The extremes over the filtered set that the normalisation uses. *)
Module Bounds.
Record t := {
  minDuration : float;
  maxDuration : float;
  maxTransfersObserved : float;
  maxWalking : float;
  maxExposure : float
}.
End Bounds.

Section Ranking.
Context `{Runtime}.
Local Open Scope Z_scope.

Definition Computed : Type := Connection.t * Metrics.t.

Definition computedOf (connections : list Connection.t) : list Computed :=
  List.map (fun connection => (connection, buildMetrics (Connection.legs connection)))
           connections.

(** [Math.max(0, Math.floor(context.preferences.maxTransfers))], when a
    limit was requested. *)
Definition maxTransfersOf (context : Context.t) : option Z :=
  match Context.preferences context ≫= Preferences.maxTransfers with
  | Some q => Some (Z.max 0 (Qfloor q))
  | None => None
  end.

Definition constraintNoteFor (maxTransfers : Z) : string :=
  "No routes within " +:+ JS.showZ maxTransfers +:+ " transfer"
  +:+ (if maxTransfers =? 1 then "" else "s")
  +:+ "; showing closest matches.".

(** The values of [filtered] and [constraintNote] after the filter and
    its fallback. *)
Definition filteredOf (connections : list Connection.t) (context : Context.t)
    : list Computed * option string :=
  let computed := computedOf connections in
  let maxTransfers := maxTransfersOf context in
  let filtered :=
    match maxTransfers with
    | None => computed
    | Some m =>
        List.filter (fun item => Connection.transfersCount (fst item) <=? m)
                    computed
    end in
  match maxTransfers with
  | Some m =>
      if (length filtered =? 0)%nat
      then (computed, Some (constraintNoteFor m))
      else (filtered, None)
  | None => (filtered, None)
  end.

Definition boundsOf (filtered : list Computed) : Bounds.t :=
  let durations :=
    List.map (fun item => JS.ofZ (Connection.durationMinutes (fst item))) filtered in
  let transfers :=
    List.map (fun item => JS.ofZ (Connection.transfersCount (fst item))) filtered in
  let walking :=
    List.map (fun item => JS.ofZ (Metrics.walkingMinutes (snd item))) filtered in
  let exposure :=
    List.map (fun item => JS.ofZ (Metrics.exposureMinutes (snd item))) filtered in
  {| Bounds.minDuration := JS.Math_min_list durations;
     Bounds.maxDuration := JS.Math_max_list durations;
     Bounds.maxTransfersObserved := JS.Math_max_list (1%float :: transfers);
     Bounds.maxWalking := JS.Math_max_list (1%float :: walking);
     Bounds.maxExposure := JS.Math_max_list (1%float :: exposure) |}.

Definition weightsFor (preferLowWalking minimizeOutdoor isWet : bool)
    : Weights.t :=
  {| Weights.risk := 0.55%float;
     Weights.duration := 0.2%float;
     Weights.transfer := 0.1%float;
     Weights.walking := if preferLowWalking then 0.1%float else 0%float;
     Weights.exposure :=
       if minimizeOutdoor && isWet then 0.1%float else 0%float |}.

Definition weightSumOf (weights : Weights.t) : float :=
  fold_left PrimFloat.add (Weights.values weights) 0%float.

Definition durationScoreOf (bounds : Bounds.t) (connection : Connection.t) : float :=
  normalize (JS.ofZ (Connection.durationMinutes connection))
            (Bounds.minDuration bounds) (Bounds.maxDuration bounds).

Definition transferScoreOf (bounds : Bounds.t) (connection : Connection.t) : float :=
  normalize (JS.ofZ (Connection.transfersCount connection))
            0%float (Bounds.maxTransfersObserved bounds).

Definition walkingScoreOf (bounds : Bounds.t) (metrics : Metrics.t) : float :=
  normalize (JS.ofZ (Metrics.walkingMinutes metrics))
            0%float (Bounds.maxWalking bounds).

Definition exposureScoreOf (bounds : Bounds.t) (metrics : Metrics.t) : float :=
  normalize (JS.ofZ (Metrics.exposureMinutes metrics))
            0%float (Bounds.maxExposure bounds).

(** The decision score the callback of [filtered.map] computes. *)
Definition decisionScoreOf (context : Context.t) (bounds : Bounds.t)
    (item : Computed) : float :=
  let '(connection, metrics) := item in
  let risk := computeRisk connection metrics in
  let durationScore := durationScoreOf bounds connection in
  let transferScore := transferScoreOf bounds connection in
  let walkingScore := walkingScoreOf bounds metrics in
  let exposureScore := exposureScoreOf bounds metrics in
  let isWet := isWetWeather (Connection.weather connection) in
  let weights :=
    weightsFor (prefersLowWalking (Context.preferences context))
               (minimizesOutdoor (Context.preferences context)) isWet in
  let weightSum := weightSumOf weights in
  ((Risk.score risk * Weights.risk weights
    + durationScore * Weights.duration weights
    + transferScore * Weights.transfer weights
    + walkingScore * Weights.walking weights
    + exposureScore * Weights.exposure weights)
   / weightSum)%float.

(** The value of [suggestedLeaveByTime] for a connection; [None] when
    [subtractMinutes] throws. *)
Definition leaveByTimeOf (context : Context.t) (connection : Connection.t)
    : option (option string) :=
  match Context.departureBufferMinutes context with
  | Some b =>
      if negb (Context.isArrivalTime context) && negb (b =? 0)
      then Some <$> subtractMinutes (Connection.departureTime connection) b
      else Some None
  | None => Some None
  end.

(** No leave-by time is worked out for an arrival-time request, nor
    without a departure buffer or with a buffer of 0: the composer then
    returns. *)
Definition asksNoLeaveBy (context : Context.t) : bool :=
  Context.isArrivalTime context
  || match Context.departureBufferMinutes context with
     | Some b => b =? 0
     | None => true
     end.

(** The callback of [filtered.map]: one option and its decision score;
    [None] when it throws. *)
Definition scoreOption (context : Context.t) (bounds : Bounds.t)
    (index : nat) (item : Computed) : option Scored.t :=
  let '(connection, metrics) := item in
  let risk := computeRisk connection metrics in
  let arrivalBufferMinutes :=
    if Context.isArrivalTime context
       && negb (String.eqb (Context.requestedTimeISO context) "")
    then Some (minutesBetween (Some (Connection.arrivalTime connection))
                              (Some (Context.requestedTimeISO context)))
    else None in
  suggestedLeaveByTime ← leaveByTimeOf context connection;
  let reasons := buildReasons connection metrics (Context.preferences context) in
  Some
  {| Scored.option :=
       {| DecisionOption.id := Connection.id connection;
          DecisionOption.rank := Z.of_nat index + 1;
          DecisionOption.label := optionLabel index;
          DecisionOption.departureTime := Connection.departureTime connection;
          DecisionOption.arrivalTime := Connection.arrivalTime connection;
          DecisionOption.durationMinutes := Connection.durationMinutes connection;
          DecisionOption.transfersCount := Connection.transfersCount connection;
          DecisionOption.minTransferMinutes := Metrics.minTransferMinutes metrics;
          DecisionOption.walkingMinutes := Metrics.walkingMinutes metrics;
          DecisionOption.transferWaitMinutes := Metrics.transferWaitMinutes metrics;
          DecisionOption.exposureMinutes := Metrics.exposureMinutes metrics;
          DecisionOption.riskScore := Risk.score risk;
          DecisionOption.riskLevel := Risk.level risk;
          DecisionOption.reasons := reasons;
          DecisionOption.suggestedDepartureTime := Connection.departureTime connection;
          DecisionOption.suggestedLeaveByTime := suggestedLeaveByTime;
          DecisionOption.arrivalBufferMinutes := arrivalBufferMinutes;
          DecisionOption.alerts :=
            {| Alerts.delays := Metrics.delayAlerts metrics;
               Alerts.platformChanges := Metrics.platformChanges metrics |};
          DecisionOption.weather :=
            match Connection.weather connection with
            | Some w =>
                Some {| OptionWeather.level := Weather.level w;
                        OptionWeather.summary :=
                          Weather.label <$> head (Weather.reasons w) |}
            | None => None
            end |};
     Scored.decisionScore := decisionScoreOf context bounds item |}.

(** [filtered.map(...)]: the options with their scores, unless the
    callback throws for one of them. *)
Definition optionsWithScore (connections : list Connection.t)
    (context : Context.t) : option (list Scored.t) :=
  let filtered := fst (filteredOf connections context) in
  mapM id (imap (scoreOption context (boundsOf filtered)) filtered).

(** [optionsWithScore.sort((a, b) => a.decisionScore - b.decisionScore)] *)
Definition sortByScore (l : list Scored.t) : list Scored.t :=
  JS.sort
    (fun a b =>
       JS.gtb (Scored.decisionScore a - Scored.decisionScore b)%float 0%float)
    l.

(** The sorted options with rank and label by position. *)
Definition relabelled (scored : list Scored.t) : list DecisionOption.t :=
  imap
    (fun index entry =>
       DecisionOption.withRankLabel (Scored.option entry)
         (Z.of_nat index + 1) (optionLabel index))
    (sortByScore scored).

Definition rankedOptions (connections : list Connection.t)
    (context : Context.t) : option (list DecisionOption.t) :=
  relabelled <$> optionsWithScore connections context.

Definition staticCoverage : DataCoverage.t :=
  {| DataCoverage.realtimeDelays := true;
     DataCoverage.platformChanges := true;
     DataCoverage.cancellations := false;
     DataCoverage.serviceNotices := false |}.

Definition noPreferences : Preferences.t :=
  {| Preferences.maxTransfers := None;
     Preferences.preferLowWalking := None;
     Preferences.minimizeOutdoorIfRaining := None |}.

(** [None] stands for a run that throws. *)
Definition buildDecisionSummary (connections : list Connection.t)
    (context : Context.t) : option Summary.t :=
  match connections with
  | [] =>
      Some
      {| Summary.from := Context.from context;
         Summary.to := Context.to context;
         Summary.requestedTimeISO := Context.requestedTimeISO context;
         Summary.isArrivalTime := Context.isArrivalTime context;
         Summary.arrivalBufferMinutes := Context.arrivalBufferMinutes context;
         Summary.departureBufferMinutes := Context.departureBufferMinutes context;
         Summary.constraints :=
           default noPreferences (Context.preferences context);
         Summary.constraintNote := None;
         Summary.options := [];
         Summary.recommendedOptionId := None;
         Summary.summaryText :=
           "No connections found from " +:+ Context.from context +:+ " to "
           +:+ Context.to context +:+ ".";
         Summary.dataCoverage := staticCoverage |}
  | _ =>
      let constraintNote := snd (filteredOf connections context) in
      options ← rankedOptions connections context;
      Some
      {| Summary.from := Context.from context;
         Summary.to := Context.to context;
         Summary.requestedTimeISO := Context.requestedTimeISO context;
         Summary.isArrivalTime := Context.isArrivalTime context;
         Summary.arrivalBufferMinutes := Context.arrivalBufferMinutes context;
         Summary.departureBufferMinutes := Context.departureBufferMinutes context;
         Summary.constraints :=
           default noPreferences (Context.preferences context);
         Summary.constraintNote := constraintNote;
         Summary.options := options;
         Summary.recommendedOptionId := DecisionOption.id <$> head options;
         Summary.summaryText := buildSummaryText options context constraintNote;
         Summary.dataCoverage := staticCoverage |}
  end.

End Ranking.

(** ** The CSV reader of [build-gtfs-lookup.ts] ([forEachCsvRow]) *)

Module Csv.

(** The variables of the loop; [emitted] collects the rows handed to
    [onRow], so that a row's [rowIndex] is its position in it. *)
Record State := {
  row : list string;
  field : string;
  inQuotes : bool;
  emitted : list (list string)
}.

Definition initial : State :=
  {| row := []; field := ""; inQuotes := false; emitted := [] |}.

Definition flushField (st : State) : State :=
  {| row := (row st ++ [field st])%list; field := "";
     inQuotes := inQuotes st; emitted := emitted st |}.

Definition flushRow (st : State) : State :=
  {| row := []; field := field st; inQuotes := inQuotes st;
     emitted :=
       if (0 <? length (row st))%nat then (emitted st ++ [row st])%list
       else emitted st |}.

Definition append (st : State) (c : ascii) : State :=
  {| row := row st; field := field st +:+ String c "";
     inQuotes := inQuotes st; emitted := emitted st |}.

Definition toggleQuotes (st : State) : State :=
  {| row := row st; field := field st;
     inQuotes := negb (inQuotes st); emitted := emitted st |}.

Definition quote : ascii := ascii_of_nat 34.
Definition comma : ascii := ascii_of_nat 44.
Definition LF : ascii := ascii_of_nat 10.
Definition CR : ascii := ascii_of_nat 13.

(** The body of [for (let i = 0; i < content.length; i += 1)]; where the
    source adds one more to [i], the recursion continues after the next
    character. *)
Fixpoint scan (content : string) (st : State) : State :=
  match content with
  | EmptyString => st
  | String char rest =>
      if Ascii.eqb char quote then
        match rest with
        | String next rest' =>
            if inQuotes st && Ascii.eqb next quote
            then scan rest' (append st quote)
            else scan rest (toggleQuotes st)
        | EmptyString => scan rest (toggleQuotes st)
        end
      else if Ascii.eqb char comma && negb (inQuotes st) then
        scan rest (flushField st)
      else if (Ascii.eqb char LF || Ascii.eqb char CR) && negb (inQuotes st) then
        match rest with
        | String next rest' =>
            if Ascii.eqb char CR && Ascii.eqb next LF
            then scan rest' (flushRow (flushField st))
            else scan rest (flushRow (flushField st))
        | EmptyString => scan rest (flushRow (flushField st))
        end
      else scan rest (append st char)
  end.

(** The rows passed to [onRow], in order. *)
Definition forEachCsvRow (content : string) : list (list string) :=
  let st := scan content initial in
  let st :=
    if (0 <? String.length (field st))%nat || (0 <? length (row st))%nat
    then flushRow (flushField st)
    else st in
  emitted st.

End Csv.

(** ** The agency table ([parseAgencies]) *)

Module Agencies.

(** The variables the row callback closes over. *)
Record State := {
  agencies : gmap string string;
  idxId : option nat;
  idxName : option nat;
  fallbackId : string
}.

Record Result := {
  agenciesOf : gmap string string;
  defaultAgencyId : option string
}.

(** [s.replace(/^\uFEFF/, ...)] drops a leading byte-order mark; U+FEFF is
    the bytes EF BB BF. *)
Definition stripBom (s : string) : string :=
  match s with
  | String a (String b (String c rest)) =>
      if (nat_of_ascii a =? 239)%nat && (nat_of_ascii b =? 187)%nat
         && (nat_of_ascii c =? 191)%nat
      then rest else s
  | _ => s
  end.

(** [row.indexOf(x)]; [None] stands for [-1]. *)
Fixpoint indexOf (x : string) (row : list string) : option nat :=
  match row with
  | [] => None
  | y :: row' => if String.eqb y x then Some 0%nat else S <$> indexOf x row'
  end.

(** [row[idx]], which is [undefined] at [-1] and past the end. *)
Definition at_ (row : list string) (idx : option nat) : option string :=
  idx ≫= (fun i => row !! i).

(** [if (row[0]) row[0] = row[0].replace(/^\uFEFF/, ...)] *)
Definition headerOf (row : list string) : list string :=
  match row with
  | first :: others =>
      if String.eqb first "" then row else stripBom first :: others
  | [] => row
  end.

(** One call of the row callback. *)
Definition onRow (st : State) (rowIndex : nat) (row : list string) : State :=
  match rowIndex with
  | O =>
      let row := headerOf row in
      {| agencies := agencies st;
         idxId := indexOf "agency_id" row;
         idxName := indexOf "agency_name" row;
         fallbackId := fallbackId st |}
  | S _ =>
      let name := JS.trim (JS.or_str (at_ row (idxName st)) "") in
      if String.eqb name "" then st
      else
        let id :=
          match idxId st with
          | Some _ => JS.trim (JS.or_str (at_ row (idxId st)) (fallbackId st))
          | None => fallbackId st
          end in
        {| agencies := <[id := name]> (agencies st);
           idxId := idxId st;
           idxName := idxName st;
           fallbackId := id |}
  end.

Definition start : State :=
  {| agencies := ∅; idxId := None; idxName := None; fallbackId := "default" |}.

(** The callback run over the rows, each with its index. *)
Fixpoint run (st : State) (rowIndex : nat) (rows : list (list string)) : State :=
  match rows with
  | [] => st
  | row :: rows' => run (onRow st rowIndex row) (S rowIndex) rows'
  end.

(** [Object.keys(agencies).length === 1 ? Object.keys(agencies)[0] : undefined] *)
Definition onlyKey (m : gmap string string) : option string :=
  match map_to_list m with
  | [(k, _)] => Some k
  | _ => None
  end.

Definition parseAgencies (agencyTxt : string) : Result :=
  let st := run start 0 (Csv.forEachCsvRow agencyTxt) in
  {| agenciesOf := agencies st; defaultAgencyId := onlyKey (agencies st) |}.

End Agencies.

(** ** The line resolver of [lookup.ts] ([resolveLineInfo])

    The mode of transport ([lineType]) is left out of the result: none of
    the properties below concerns it. *)

Inductive Source := gtfs | fallback.

Module RouteInfo.
Record t := {
  shortName : option string;
  longName : option string;
  type : option Z;
  agencyId : option string
}.
End RouteInfo.

Module GtfsLookup.
Record t := {
  routes : gmap string RouteInfo.t;
  trips : gmap string string;
  routeShortNameToId : option (gmap string string);
  agencies : gmap string string;
  defaultAgencyId : option string
}.
End GtfsLookup.

Module LineQuery.
Record t := {
  lineId : option string;
  category : option string;
  number : option string;
  operator : option string
}.
End LineQuery.

Module LineInfo.
Record t := {
  lineId : option string;
  lineDisplay : string;
  operator : option string;
  routeId : option string;
  source : Source
}.
End LineInfo.

Section Resolver.

(** [lineId?.trim() || undefined] *)
Definition trimmedLineIdOf (q : LineQuery.t) : option string :=
  LineQuery.lineId q ≫= (fun s => JS.nonEmpty (JS.trim s)).

(** [[category, number].filter(Boolean).join(" ").trim()] *)
Definition fallbackDisplayOf (q : LineQuery.t) : string :=
  JS.trim
    (JS.join " "
       (omap (fun o => JS.or_else o None)
             [LineQuery.category q; LineQuery.number q])).

(** The three look-ups that settle [routeId] for a non-empty key. *)
Definition findRouteId (lookup : GtfsLookup.t) (lookupKey : string)
    : option string :=
  let routeId := GtfsLookup.trips lookup !! lookupKey in
  let routeId :=
    if negb (JS.truthy routeId)
       && bool_decide (is_Some (GtfsLookup.routes lookup !! lookupKey))
    then Some lookupKey else routeId in
  let routeId :=
    match GtfsLookup.routeShortNameToId lookup with
    | Some byShortName =>
        if negb (JS.truthy routeId)
        then JS.or_else (byShortName !! lookupKey) routeId
        else routeId
    | None => routeId
    end in
  routeId.

(** [route?.shortName || route?.longName] *)
Definition routeDisplay (route : option RouteInfo.t) : option string :=
  JS.or_else (route ≫= RouteInfo.shortName) (route ≫= RouteInfo.longName).

Definition resolveLineInfo (q : LineQuery.t) (lookup : option GtfsLookup.t)
    : LineInfo.t :=
  let trimmedLineId := trimmedLineIdOf q in
  let fallbackDisplay := fallbackDisplayOf q in
  let lineDisplay := JS.or_str (JS.nonEmpty fallbackDisplay)
                               (JS.or_str trimmedLineId "") in
  let lookupKey := JS.or_str trimmedLineId fallbackDisplay in
  let '(lineDisplay, routeId, resolvedOperator, source) :=
    match lookup with
    | Some lookup =>
        if String.eqb lookupKey "" then
          (lineDisplay, None, LineQuery.operator q, fallback)
        else
          let routeId := findRouteId lookup lookupKey in
          match JS.or_else routeId None with
          | Some found =>
              let route := GtfsLookup.routes lookup !! found in
              let display := routeDisplay route in
              let lineDisplay :=
                if JS.truthy display then JS.trim (JS.or_str display "")
                else lineDisplay in
              let agencyId :=
                JS.or_else (route ≫= RouteInfo.agencyId)
                           (GtfsLookup.defaultAgencyId lookup) in
              let resolvedOperator :=
                match JS.or_else agencyId None with
                | Some a =>
                    if JS.truthy (GtfsLookup.agencies lookup !! a)
                    then GtfsLookup.agencies lookup !! a
                    else LineQuery.operator q
                | None => LineQuery.operator q
                end in
              (lineDisplay, routeId, resolvedOperator, gtfs)
          | None => (lineDisplay, routeId, LineQuery.operator q, fallback)
          end
    | None => (lineDisplay, None, LineQuery.operator q, fallback)
    end in
  let lineDisplay :=
    if String.eqb lineDisplay ""
    then JS.or_str trimmedLineId (JS.or_str (JS.nonEmpty fallbackDisplay) "")
    else lineDisplay in
  {| LineInfo.lineId := trimmedLineId;
     LineInfo.lineDisplay := lineDisplay;
     LineInfo.operator := resolvedOperator;
     LineInfo.routeId := routeId;
     LineInfo.source := source |}.

End Resolver.

(** ** A host for running examples

    A host whose local time zone is UTC.  Its date parser reads the
    format [YYYY-MM-DDTHH:mm:ssZ]; its number formatter prints whole
    numbers (the examples pass no others as a transfer limit) and
    [toFixed2] covers the values below 1e21, where [toFixed] prints
    decimal digits. *)

Module UtcHost.
Local Open Scope Z_scope.

Definition digit (c : ascii) : option Z :=
  let n := Z.of_nat (nat_of_ascii c) in
  if (48 <=? n) && (n <=? 57) then Some (n - 48) else None.

Fixpoint digits (acc : Z) (cs : list ascii) : option Z :=
  match cs with
  | [] => Some acc
  | c :: cs' => digit c ≫= (fun d => digits (10 * acc + d) cs')
  end.

Definition numberAt (s : string) (start len : nat) : option Z :=
  let part := list_ascii_of_string (substring start len s) in
  if (length part =? len)%nat then digits 0 part else None.

Definition charAt (s : string) (i : nat) (c : string) : bool :=
  String.eqb (substring i 1 s) c.

(** Days from 1970-01-01 to a date of the proleptic Gregorian calendar. *)
Definition daysFromCivil (y m d : Z) : Z :=
  let y' := if m <=? 2 then y - 1 else y in
  let era := y' / 400 in
  let yoe := y' - era * 400 in
  let doy := (153 * (if 2 <? m then m - 3 else m + 9) + 2) / 5 + d - 1 in
  let doe := yoe * 365 + yoe / 4 - yoe / 100 + doy in
  era * 146097 + doe - 719468.

(** The date of a day number, as year, month and day. *)
Definition civilFromDays (z : Z) : Z * Z * Z :=
  let z := z + 719468 in
  let era := z / 146097 in
  let doe := z - era * 146097 in
  let yoe := (doe - doe / 1460 + doe / 36524 - doe / 146096) / 365 in
  let doy := doe - (365 * yoe + yoe / 4 - yoe / 100) in
  let mp := (5 * doy + 2) / 153 in
  let d := doy - (153 * mp + 2) / 5 + 1 in
  let m := if mp <? 10 then mp + 3 else mp - 9 in
  let y := yoe + era * 400 + (if m <=? 2 then 1 else 0) in
  (y, m, d).

Definition parse (s : string) : option Z :=
  if (String.length s =? 20)%nat
     && charAt s 4 "-" && charAt s 7 "-" && charAt s 10 "T"
     && charAt s 13 ":" && charAt s 16 ":" && charAt s 19 "Z"
  then
    y ← numberAt s 0 4; m ← numberAt s 5 2; d ← numberAt s 8 2;
    h ← numberAt s 11 2; mi ← numberAt s 14 2; sec ← numberAt s 17 2;
    if (1 <=? m) && (m <=? 12) && (1 <=? d) && (d <=? 31)
       && (h <? 24) && (mi <? 60) && (sec <? 60)
    then Some ((((daysFromCivil y m d * 24 + h) * 60 + mi) * 60 + sec) * 1000)
    else None
  else None.

(** A whole number in at least [width] digits. *)
Definition padded (width : nat) (n : Z) : string :=
  let s := JS.showZ n in
  string_of_list_ascii (replicate (width - String.length s) "0"%char) +:+ s.

Definition localeTime (t : Z) : string :=
  let minutes := (t / 60000) mod 1440 in
  padded 2 (minutes / 60) +:+ ":" +:+ padded 2 (minutes mod 60).

Definition isoString (t : Z) : string :=
  let '(y, m, d) := civilFromDays (t / 86400000) in
  let ms := t mod 86400000 in
  padded 4 y +:+ "-" +:+ padded 2 m +:+ "-" +:+ padded 2 d +:+ "T"
  +:+ padded 2 (ms / 3600000) +:+ ":" +:+ padded 2 ((ms / 60000) mod 60)
  +:+ ":" +:+ padded 2 ((ms / 1000) mod 60) +:+ "."
  +:+ padded 3 (ms mod 1000) +:+ "Z".

(** The hundredths nearest to [m * 2^e], halves going up. *)
Definition hundredths (m : positive) (e : Z) : Z :=
  if 0 <=? e then Z.pos m * 2 ^ e * 100
  else (200 * Z.pos m + 2 ^ (- e)) / 2 ^ (1 - e).

Definition fixed2 (x : float) : string :=
  match Prim2SF x with
  | S754_nan => "NaN"
  | S754_infinity negative => if negative then "-Infinity" else "Infinity"
  | S754_zero _ => "0.00"
  | S754_finite negative m e =>
      let n := hundredths m e in
      (if negative then "-" else "") +:+ JS.showZ (n / 100) +:+ "."
      +:+ padded 2 (n mod 100)
  end.

(** The digits after the decimal point of [num / den], for as long as
    the expansion goes on, [fuel] digits at most. *)
Fixpoint decimals (fuel : nat) (num den : Z) : string :=
  match fuel with
  | O => ""
  | S fuel' =>
      if num =? 0 then ""
      else JS.showZ (10 * num / den) +:+ decimals fuel' (10 * num mod den) den
  end.

(** A finite number as the engine prints it, for whole numbers and for
    fractions with a decimal expansion of at most 17 digits. *)
Definition showNumber (q : Q) : string :=
  let whole := Z.quot (Qnum q) (Z.pos (Qden q)) in
  let rest := Z.abs (Z.rem (Qnum q) (Z.pos (Qden q))) in
  if rest =? 0 then JS.showZ whole
  else (if (Qnum q <? 0) && (whole =? 0) then "-" else "")
       +:+ JS.showZ whole +:+ "." +:+ decimals 17 rest (Z.pos (Qden q)).

#[export] Instance host : Runtime :=
  {| Date_parse := parse;
     toLocaleTimeString := localeTime;
     setMinutesBack :=
       fun t minutes =>
         let t' := t - 60000 * minutes in
         if (-8640000000000000 <=? t') && (t' <=? 8640000000000000)
         then Some t' else None;
     toISOString := isoString;
     toFixed2 := fixed2;
     numberToString := showNumber |}.

End UtcHost.

(* ================================================================== *)
(** * Part I-b: notions used to state the properties *)
(* ================================================================== *)

Section MetricsNotions.
Context `{Runtime}.

(** The wait at the [i]-th transfer, read off the ride legs: from the
    arrival of ride [i] to the departure of ride [i + 1]. *)
Definition waitAt (rideLegs : list Leg.t) (i : nat) : option Z :=
  match rideLegs !! i, rideLegs !! S i with
  | Some cur, Some next =>
      Some (minutesBetween (actualOrPlanned (Leg.to cur))
                           (actualOrPlanned (Leg.from next)))
  | _, _ => None
  end.

(** The ride legs of a leg list, as [buildMetrics] selects them. *)
Definition rideLegsOf (legs : list Leg.t) : list Leg.t :=
  List.filter isRide legs.



(** A leg whose delay, if it has one, is a whole number, as the delays
    that [normalizeLegs] rounds are. *)
Definition wholeDelay (leg : Leg.t) : bool :=
  match Leg.delayMinutes leg with
  | Some d => JS.isInteger d
  | None => true
  end.


End MetricsNotions.

(** Data for the worked examples. *)
Module Journeys.

Definition stop (name planned : string) : Stop.t :=
  {| Stop.name := name; Stop.timePlanned := planned;
     Stop.timeActual := None; Stop.platform := None |}.

Definition rideLeg (from to : Stop.t) : Leg.t :=
  {| Leg.type := ride; Leg.from := from; Leg.to := to;
     Leg.line := None; Leg.delayMinutes := None |}.

Definition walkLeg (from to : Stop.t) : Leg.t :=
  {| Leg.type := walk; Leg.from := from; Leg.to := to;
     Leg.line := None; Leg.delayMinutes := None |}.


Definition lateRide (line : string) (delay : Q) (from to : Stop.t) : Leg.t :=
  {| Leg.type := ride; Leg.from := from; Leg.to := to;
     Leg.line := Some line; Leg.delayMinutes := Some delay |}.

(** Bern to Zug with changes at Olten and Luzern: a wait of 7 minutes at
    Olten, a walk of 6 minutes and a wait of 7 minutes at Luzern. *)
Definition threeRides : list Leg.t :=
  [ rideLeg (stop "Bern" "2024-03-01T08:00:00Z")
            (stop "Olten" "2024-03-01T08:26:00Z");
    rideLeg (stop "Olten" "2024-03-01T08:33:00Z")
            (stop "Luzern" "2024-03-01T09:05:00Z");
    walkLeg (stop "Luzern" "2024-03-01T09:05:00Z")
            (stop "Luzern Bahnhofquai" "2024-03-01T09:11:00Z");
    rideLeg (stop "Luzern Bahnhofquai" "2024-03-01T09:12:00Z")
            (stop "Zug" "2024-03-01T09:40:00Z") ].



(** Two rides that run late by two and a half minutes and by a quarter
    of a minute. *)
Definition lateByFractions : list Leg.t :=
  [ lateRide "IC 1" (5 # 2)
             (stop "Bern" "2024-03-01T08:00:00Z")
             (stop "Olten" "2024-03-01T08:26:00Z");
    lateRide "S 2" (1 # 4)
             (stop "Olten" "2024-03-01T08:33:00Z")
             (stop "Luzern" "2024-03-01T09:05:00Z") ].


End Journeys.

Section RiskNotions.

(** The reliability estimate a connection carries, if any: the score of
    its reliability record, else its bare reliability score. *)
Definition reliabilityEstimate (connection : Connection.t) : option float :=
  match Connection.reliability connection with
  | Some r => Some (Reliability.score r)
  | None => Connection.reliabilityScore connection
  end.

(** The weather penalty a connection carries, if any. *)
Definition weatherPenaltyGiven (connection : Connection.t) : option float :=
  Weather.penalty <$> Connection.weather connection.

(** The tight-transfer penalty in the specification's words: 0.12 below
    6 minutes, 0.06 from 6 up to 8, nothing otherwise or without a
    transfer. *)
Definition tightTransferPenalty (minTransfer : option Z) : float :=
  match minTransfer with
  | Some wait =>
      if (wait <? 6)%Z then 0.12%float
      else if (6 <=? wait)%Z && (wait <? 8)%Z then 0.06%float
      else 0%float
  | None => 0%float
  end.

(** [clamp(x, 0, 1)] in the specification's words: 0 for a number that
    is at most 0, 1 for a number that is at least 1, and the number
    itself between the two; what is not a number stays so. *)
Definition clampToUnit (x : float) : float :=
  if PrimFloat.leb x 0 then 0%float
  else if PrimFloat.leb 1 x then 1%float
  else x.

(** The risk score in the specification's words. *)
Definition riskFormula (reliability weatherPenalty : option float)
    (exposureMinutes : Z) (minTransfer : option Z) : float :=
  let reliability := default 0.7%float reliability in
  let weatherPenalty := default 0%float weatherPenalty in
  clampToUnit
    ((1 - reliability)
     + weatherPenalty
       * (0.3 + 0.7 * clampToUnit (JS.ofZ exposureMinutes / 20))
     + tightTransferPenalty minTransfer).

(** Orderings of doubles as propositions. *)
Definition fle (a b : float) : Prop := PrimFloat.leb a b = true.
Definition flt (a b : float) : Prop := PrimFloat.ltb a b = true.

End RiskNotions.

Module RiskData.

(** The worked example of the specification: 16 exposed minutes, a
    weather penalty of 0.5, no reliability estimate and no tight transfer. *)
Definition rainy : Connection.t :=
  {| Connection.id := "c1";
     Connection.departureTime := "2024-03-01T08:00:00Z";
     Connection.arrivalTime := "2024-03-01T09:00:00Z";
     Connection.durationMinutes := 60;
     Connection.transfersCount := 1;
     Connection.legs := [];
     Connection.reliabilityScore := None;
     Connection.reliability := None;
     Connection.weather :=
       Some {| Weather.penalty := 0.5%float; Weather.level := medium;
               Weather.samples := []; Weather.reasons := [] |} |}.

(** A connection whose reliability estimate is off the scale, so that
    the sum of the three terms is 2. *)
Definition offScale : Connection.t :=
  {| Connection.id := "c3";
     Connection.departureTime := "2024-03-01T08:00:00Z";
     Connection.arrivalTime := "2024-03-01T09:00:00Z";
     Connection.durationMinutes := 60;
     Connection.transfersCount := 1;
     Connection.legs := [];
     Connection.reliabilityScore := Some (-1)%float;
     Connection.reliability := None;
     Connection.weather := None |}.

(** A connection whose reliability estimate of 1.5 makes the sum
    negative. *)
Definition overrated : Connection.t :=
  {| Connection.id := "c4";
     Connection.departureTime := "2024-03-01T08:00:00Z";
     Connection.arrivalTime := "2024-03-01T09:00:00Z";
     Connection.durationMinutes := 60;
     Connection.transfersCount := 1;
     Connection.legs := [];
     Connection.reliabilityScore := Some 1.5%float;
     Connection.reliability := None;
     Connection.weather := None |}.

(** Forty exposed minutes, twice the window that saturates the exposure
    factor. *)
Definition fortyExposed : Metrics.t :=
  {| Metrics.walkingMinutes := 15;
     Metrics.transferWaitMinutes := 25;
     Metrics.minTransferMinutes := Some 25%Z;
     Metrics.transferStation := Some "Olten";
     Metrics.exposureMinutes := 40;
     Metrics.delayMinutesTotal := 0%Q;
     Metrics.delayAlerts := [];
     Metrics.platformChanges := [] |}.

Definition sixteenExposed : Metrics.t :=
  {| Metrics.walkingMinutes := 6;
     Metrics.transferWaitMinutes := 10;
     Metrics.minTransferMinutes := Some 10%Z;
     Metrics.transferStation := Some "Olten";
     Metrics.exposureMinutes := 16;
     Metrics.delayMinutesTotal := 0%Q;
     Metrics.delayAlerts := [];
     Metrics.platformChanges := [] |}.

End RiskData.

(** Order by a whole-number key. *)
Definition byKey {A : Type} (key : A -> Z) (a b : A) : Prop :=
  (key a <= key b)%Z.

Section ReasonNotions.

(** What every list of candidate reasons satisfies: no label twice, and
    every priority tier between 1 and 8. *)
Definition wellFormedReasons (reasons : list ReasonEntry.t) : Prop :=
  NoDup (List.map ReasonEntry.label reasons)
  /\ Forall (fun r => 1 <= ReasonEntry.priority r <= 8)%Z reasons.

(** A block of [buildReasons] leaves the list as it is or pushes one
    entry with a new label. *)
Definition pushesAtMostOne
    (block : list ReasonEntry.t -> list ReasonEntry.t) : Prop :=
  forall reasons,
    block reasons = reasons
    \/ exists label priority,
         (1 <= priority <= 8)%Z
         /\ (label ∉ List.map ReasonEntry.label reasons)
         /\ block reasons
            = (reasons ++ [ {| ReasonEntry.label := label;
                               ReasonEntry.priority := priority |} ])%list.

End ReasonNotions.

Module ReasonData.

(** A rush-hour connection with a tight transfer, a delay and a walk. *)
Definition busy : Connection.t :=
  {| Connection.id := "c2";
     Connection.departureTime := "2024-03-01T17:00:00Z";
     Connection.arrivalTime := "2024-03-01T18:00:00Z";
     Connection.durationMinutes := 60;
     Connection.transfersCount := 2;
     Connection.legs := [];
     Connection.reliabilityScore := Some 0.5%float;
     Connection.reliability :=
       Some {| Reliability.score := 0.5%float;
               Reliability.reasons := [ {| Reliability.code := "peak_time" |} ] |};
     Connection.weather := None |}.

Definition tight : Metrics.t :=
  {| Metrics.walkingMinutes := 7;
     Metrics.transferWaitMinutes := 4;
     Metrics.minTransferMinutes := Some 4%Z;
     Metrics.transferStation := Some "Olten";
     Metrics.exposureMinutes := 11;
     Metrics.delayMinutesTotal := 3%Q;
     Metrics.delayAlerts := ["IC 1 +3 min"];
     Metrics.platformChanges := [] |}.

End ReasonData.

Section RankingNotions.
Context `{Runtime}.

(** Positive precipitation or snowfall in one forecast sample. *)
Definition wetSample (sample : Weather.Sample) : bool :=
  JS.gtb (Weather.precipitation sample) 0%float
  || JS.gtb (Weather.snowfall sample) 0%float.

(** Wet weather read off the first forecast sample only. *)
Definition wetInFirstSample (weather : option Weather.t) : bool :=
  match weather ≫= (fun w => head (Weather.samples w)) with
  | Some sample => wetSample sample
  | None => false
  end.

(** Wet weather read off all forecast samples. *)
Definition wetInSomeSample (weather : option Weather.t) : bool :=
  match weather with
  | Some w => existsb wetSample (Weather.samples w)
  | None => false
  end.

(** The two optional weights and the sum of the weights in force. *)
Definition walkingWeight (context : Context.t) : float :=
  if prefersLowWalking (Context.preferences context)
  then 0.1%float else 0%float.

Definition exposureWeight (context : Context.t) (wet : bool) : float :=
  if minimizesOutdoor (Context.preferences context) && wet
  then 0.1%float else 0%float.

Definition activeWeightSum (context : Context.t) (wet : bool) : float :=
  (0 + 0.55 + 0.2 + 0.1 + walkingWeight context + exposureWeight context wet)%float.

(** The weighted mean of the specification, for a given reading [wet] of
    the connection's weather. *)
Definition weightedMean (wet : bool) (context : Context.t)
    (bounds : Bounds.t) (item : Computed) : float :=
  let '(connection, metrics) := item in
  ((Risk.score (computeRisk connection metrics) * 0.55
    + durationScoreOf bounds connection * 0.2
    + transferScoreOf bounds connection * 0.1
    + walkingScoreOf bounds metrics * walkingWeight context
    + exposureScoreOf bounds metrics * exposureWeight context wet)
   / activeWeightSum context wet)%float.

(** The connection meets the limit as it was requested. *)
Definition withinRequested (limit : Q) (connection : Connection.t) : bool :=
  Qle_bool (inject_Z (Connection.transfersCount connection)) limit.

(** The connection meets a whole-number limit. *)
Definition withinLimit (limit : Z) (connection : Connection.t) : bool :=
  (Connection.transfersCount connection <=? limit)%Z.

Definition optionIds (options : list DecisionOption.t) : list string :=
  List.map DecisionOption.id options.

Definition connectionIds (connections : list Connection.t) : list string :=
  List.map Connection.id connections.

(** The max-transfers rule with the limit taken as requested, read
    for the runs in which the composer returns a summary: if some
    connection is within the limit, exactly those are ranked and no note
    is attached; if none is, all are ranked and a note is attached. *)
Definition maxTransfersRuleAsRequested (connections : list Connection.t)
    (context : Context.t) (limit : Q) : Prop :=
  forall summary,
    buildDecisionSummary connections context = Some summary ->
    if existsb (withinRequested limit) connections then
      Permutation (optionIds (Summary.options summary))
                  (connectionIds
                     (List.filter (withinRequested limit) connections))
      /\ Summary.constraintNote summary = None
    else
      Permutation (optionIds (Summary.options summary))
                  (connectionIds connections)
      /\ Summary.constraintNote summary <> None.

End RankingNotions.

Module RankingData.

Definition dry : Weather.Sample :=
  {| Weather.precipitation := 0%float; Weather.snowfall := 0%float;
     Weather.windGusts := 10%float |}.

Definition rain : Weather.Sample :=
  {| Weather.precipitation := 1.5%float; Weather.snowfall := 0%float;
     Weather.windGusts := 10%float |}.

(** Dry at departure, rain later on. *)
Definition rainLater : Connection.t :=
  {| Connection.id := "2024-03-01T08_00_00Z-IC_1-S_2-S_3";
     Connection.departureTime := "2024-03-01T08:00:00Z";
     Connection.arrivalTime := "2024-03-01T09:40:00Z";
     Connection.durationMinutes := 100;
     Connection.transfersCount := 2;
     Connection.legs := Journeys.threeRides;
     Connection.reliabilityScore := Some 0.8%float;
     Connection.reliability := None;
     Connection.weather :=
       Some {| Weather.penalty := 0.4%float; Weather.level := medium;
               Weather.samples := [dry; rain]; Weather.reasons := [] |} |}.

Definition direct : Connection.t :=
  {| Connection.id := "2024-03-01T08_10_00Z-IR_15";
     Connection.departureTime := "2024-03-01T08:10:00Z";
     Connection.arrivalTime := "2024-03-01T10:05:00Z";
     Connection.durationMinutes := 115;
     Connection.transfersCount := 0;
     Connection.legs :=
       [ Journeys.rideLeg (Journeys.stop "Bern" "2024-03-01T08:10:00Z")
                          (Journeys.stop "Zug" "2024-03-01T10:05:00Z") ];
     Connection.reliabilityScore := Some 0.9%float;
     Connection.reliability := None;
     Connection.weather := None |}.

Definition request (maxTransfers : option Q) (outdoor : bool) : Context.t :=
  {| Context.from := "Bern"; Context.to := "Zug";
     Context.requestedTimeISO := "2024-03-01T08:00:00Z";
     Context.isArrivalTime := false;
     Context.arrivalBufferMinutes := None;
     Context.departureBufferMinutes := None;
     Context.preferences :=
       Some {| Preferences.maxTransfers := maxTransfers;
               Preferences.preferLowWalking := Some false;
               Preferences.minimizeOutdoorIfRaining := Some outdoor |} |}.

End RankingData.

Section ResolverNotions.

(** The name the reference table gives to a route id: the short name of
    the route if it has one, else its long name, if it has one. *)
Definition referenceName (routeId : option string)
    (lookup : option GtfsLookup.t) : option string :=
  match JS.or_else routeId None, lookup with
  | Some found, Some table =>
      match GtfsLookup.routes table !! found with
      | Some route =>
          if JS.truthy (RouteInfo.shortName route) then RouteInfo.shortName route
          else if JS.truthy (RouteInfo.longName route) then RouteInfo.longName route
          else None
      | None => None
      end
  | _, _ => None
  end.

(** The first non-empty of two strings, else the empty string. *)
Definition firstNonEmpty (a b : string) : string :=
  if String.eqb a "" then b else a.

(** The raw identifier, trimmed; empty when absent or blank. *)
Definition rawIdentifier (q : LineQuery.t) : string :=
  JS.or_str (trimmedLineIdOf q) "".

(** The display string in the order the claim states: resolved name,
    raw trimmed identifier, category and number, empty. *)
Definition displayAsStated (q : LineQuery.t) (lookup : option GtfsLookup.t)
    : string :=
  match referenceName (LineInfo.routeId (resolveLineInfo q lookup)) lookup with
  | Some name => JS.trim name
  | None => firstNonEmpty (rawIdentifier q) (fallbackDisplayOf q)
  end.

(** The display string in the order the code follows: a resolved name
    that is not blank; after a blank resolved name the raw identifier
    and then category and number; without a resolved name category and
    number and then the raw identifier. *)
Definition displayInOrder (q : LineQuery.t) (lookup : option GtfsLookup.t)
    : string :=
  match referenceName (LineInfo.routeId (resolveLineInfo q lookup)) lookup with
  | Some name =>
      if String.eqb (JS.trim name) ""
      then firstNonEmpty (rawIdentifier q) (fallbackDisplayOf q)
      else JS.trim name
  | None => firstNonEmpty (fallbackDisplayOf q) (rawIdentifier q)
  end.

End ResolverNotions.

Module ResolverData.

(** A train announced as journey "019234", category "S", number "1". *)
Definition s1 : LineQuery.t :=
  {| LineQuery.lineId := Some "019234";
     LineQuery.category := Some "S";
     LineQuery.number := Some "1";
     LineQuery.operator := Some "SBB" |}.

(** The table of the specification's example: route "91-1" with short
    name "S1", reached through trip "T1". *)
Definition table : GtfsLookup.t :=
  {| GtfsLookup.routes :=
       {[ "91-1" := {| RouteInfo.shortName := Some "S1";
                        RouteInfo.longName := None;
                        RouteInfo.type := Some 109%Z;
                        RouteInfo.agencyId := Some "11" |} ]};
     GtfsLookup.trips := {[ "T1" := "91-1" ]};
     GtfsLookup.routeShortNameToId := Some {[ "S1" := "91-1" ]};
     GtfsLookup.agencies := {[ "11" := "Schweizerische Bundesbahnen SBB" ]};
     GtfsLookup.defaultAgencyId := Some "11" |}.

Definition t1 : LineQuery.t :=
  {| LineQuery.lineId := Some "T1";
     LineQuery.category := Some "S";
     LineQuery.number := Some "1";
     LineQuery.operator := None |}.

End ResolverData.

Section CsvNotions.

Definition nl : string := String Csv.LF "".
Definition cr : string := String Csv.CR "".
Definition dq : string := String Csv.quote "".

(** The example of the specification: the field [a], the quoted field
    [b,c], a quoted field holding [d], an escaped quote and [e]; then a
    CR LF and [f,g,h] without a line break at the end. *)
Definition csvExample : string :=
  "a," +:+ dq +:+ "b,c" +:+ dq +:+ "," +:+ dq +:+ "d" +:+ dq +:+ dq +:+ "e"
  +:+ dq +:+ cr +:+ nl +:+ "f,g,h".

(** Three lines, the second of them empty. *)
Definition csvBlankLine : string := "a,b" +:+ nl +:+ nl +:+ "c,d" +:+ nl.

(** The header of an agency table has no [agency_id] column. *)
Definition headerOmitsId (agencyTxt : string) : Prop :=
  match Csv.forEachCsvRow agencyTxt with
  | header :: _ => Agencies.indexOf "agency_id" (Agencies.headerOf header) = None
  | [] => True
  end.

(** The names of the data rows of an agency table that are not blank,
    trimmed, in row order. *)
Definition agencyNames (agencyTxt : string) : list string :=
  match Csv.forEachCsvRow agencyTxt with
  | header :: rows =>
      let idxName := Agencies.indexOf "agency_name" (Agencies.headerOf header) in
      List.filter (fun name => negb (String.eqb name ""))
        (List.map (fun row => JS.trim (JS.or_str (Agencies.at_ row idxName) ""))
                  rows)
  | [] => []
  end.

(** Keying as the claim words it: each row is stored under the current
    fallback id, and its name becomes the fallback id of the rows after
    it. *)
Definition keyedByRotatingName (names : list string) : gmap string string :=
  fst (fold_left
         (fun '(agencies, fallbackId) name =>
            (<[fallbackId := name]> agencies, name))
         names (∅, "default")).

(** An agency table without ids and with two agencies. *)
Definition twoAgencies : string :=
  "agency_name,agency_url" +:+ nl
  +:+ "SBB,https://www.sbb.ch" +:+ nl
  +:+ "BLS,https://www.bls.ch" +:+ nl.

End CsvNotions.

(* ================================================================== *)
(** * Part I-c: writing CSV text, as the reader's counterpart *)
(* ================================================================== *)

Section CsvWriting.

(** A field with every quote character written twice. *)
Fixpoint doubleQuotes (f : string) : string :=
  match f with
  | EmptyString => EmptyString
  | String c f' =>
      if Ascii.eqb c Csv.quote
      then String Csv.quote (String Csv.quote (doubleQuotes f'))
      else String c (doubleQuotes f')
  end.

(** A field between quotes. *)
Definition quoted (f : string) : string := dq +:+ doubleQuotes f +:+ dq.

(** A character that means nothing to the reader: no quote, no comma and
    no line break. *)
Definition plainChar (c : ascii) : bool :=
  negb (Ascii.eqb c Csv.quote || Ascii.eqb c Csv.comma
        || Ascii.eqb c Csv.LF || Ascii.eqb c Csv.CR).

Fixpoint plain (f : string) : bool :=
  match f with
  | EmptyString => true
  | String c f' => plainChar c && plain f'
  end.

(** A way of writing fields: each field between quotes, or as it is when
    it is plain. *)
Definition writesFields (code : string -> string) : Prop :=
  forall f, code f = quoted f \/ (plain f = true /\ code f = f).

(** The usual writer: quotes where they are needed. *)
Definition quoteWhenNeeded (f : string) : string :=
  if plain f then f else quoted f.

Inductive LineBreak := breakLF | breakCR | breakCRLF.

Definition breakText (b : LineBreak) : string :=
  match b with
  | breakLF => nl
  | breakCR => cr
  | breakCRLF => cr +:+ nl
  end.

Definition writeRow (code : string -> string) (b : LineBreak)
    (row : list string) : string :=
  JS.join "," (List.map code row) +:+ breakText b.

Fixpoint writeRows (code : string -> string) (b : LineBreak)
    (rows : list (list string)) : string :=
  match rows with
  | [] => EmptyString
  | row :: rows' => writeRow code b row +:+ writeRows code b rows'
  end.

(** The first character of a text is [c]. *)
Definition firstIs (c : ascii) (s : string) : bool :=
  match s with
  | String a _ => Ascii.eqb a c
  | EmptyString => false
  end.

(** The reader's state with [f] added to the field being read. *)
Definition withField (st : Csv.State) (f : string) : Csv.State :=
  {| Csv.row := Csv.row st; Csv.field := Csv.field st +:+ f;
     Csv.inQuotes := Csv.inQuotes st; Csv.emitted := Csv.emitted st |}.

(** The reader's state after the row [fields] was completed and handed
    over. *)
Definition withRow (st : Csv.State) (fields : list string) : Csv.State :=
  {| Csv.row := []; Csv.field := EmptyString;
     Csv.inQuotes := Csv.inQuotes st;
     Csv.emitted := (Csv.emitted st ++ [(Csv.row st ++ fields)%list])%list |}.

Definition hasNoQuote (s : string) : bool :=
  forallb (fun c => negb (Ascii.eqb c Csv.quote)) (list_ascii_of_string s).

End CsvWriting.

(* ================================================================== *)
(** * Part I-d: the rest of the reference builder and its use *)
(* ================================================================== *)

(** ** The trip table ([parseTrips]) *)

Module Trips.

Record State := {
  trips : gmap string string;
  idxTripId : option nat;
  idxRouteId : option nat
}.

Definition start : State :=
  {| trips := ∅; idxTripId := None; idxRouteId := None |}.

(** One call of the row callback. *)
Definition onRow (st : State) (rowIndex : nat) (row : list string) : State :=
  match rowIndex with
  | O =>
      let row := Agencies.headerOf row in
      {| trips := trips st;
         idxTripId := Agencies.indexOf "trip_id" row;
         idxRouteId := Agencies.indexOf "route_id" row |}
  | S _ =>
      let tripId := JS.trim (JS.or_str (Agencies.at_ row (idxTripId st)) "") in
      let routeId := JS.trim (JS.or_str (Agencies.at_ row (idxRouteId st)) "") in
      if String.eqb tripId "" || String.eqb routeId "" then st
      else
        {| trips := <[tripId := routeId]> (trips st);
           idxTripId := idxTripId st;
           idxRouteId := idxRouteId st |}
  end.

Fixpoint run (st : State) (rowIndex : nat) (rows : list (list string)) : State :=
  match rows with
  | [] => st
  | row :: rows' => run (onRow st rowIndex row) (S rowIndex) rows'
  end.

Definition parseTrips (tripsTxt : string) : gmap string string :=
  trips (run start 0 (Csv.forEachCsvRow tripsTxt)).

End Trips.

(** ** The route table ([parseRoutes]) *)

Module Routes.

Section WithNumber.

(** [Number(s)] when it is finite, for the whole numbers that route
    types are; [None] stands for every other outcome. *)
Variable toNumber : string -> option Z.

Record State := {
  routes : gmap string RouteInfo.t;
  idxRouteId : option nat;
  idxShort : option nat;
  idxLong : option nat;
  idxType : option nat;
  idxAgency : option nat
}.

Definition start : State :=
  {| routes := ∅; idxRouteId := None; idxShort := None; idxLong := None;
     idxType := None; idxAgency := None |}.

(** [row[idx]?.trim() || undefined] *)
Definition trimmedCell (row : list string) (idx : option nat) : option string :=
  Agencies.at_ row idx ≫= (fun cell => JS.nonEmpty (JS.trim cell)).

(** One call of the row callback. *)
Definition onRow (st : State) (rowIndex : nat) (row : list string) : State :=
  match rowIndex with
  | O =>
      let row := Agencies.headerOf row in
      {| routes := routes st;
         idxRouteId := Agencies.indexOf "route_id" row;
         idxShort := Agencies.indexOf "route_short_name" row;
         idxLong := Agencies.indexOf "route_long_name" row;
         idxType := Agencies.indexOf "route_type" row;
         idxAgency := Agencies.indexOf "agency_id" row |}
  | S _ =>
      let routeId := JS.trim (JS.or_str (Agencies.at_ row (idxRouteId st)) "") in
      if String.eqb routeId "" then st
      else
        let routeType :=
          JS.or_else (Agencies.at_ row (idxType st)) None ≫= toNumber in
        {| routes :=
             <[routeId :=
                 {| RouteInfo.shortName := trimmedCell row (idxShort st);
                    RouteInfo.longName := trimmedCell row (idxLong st);
                    RouteInfo.type := routeType;
                    RouteInfo.agencyId := trimmedCell row (idxAgency st) |}]>
             (routes st);
           idxRouteId := idxRouteId st;
           idxShort := idxShort st;
           idxLong := idxLong st;
           idxType := idxType st;
           idxAgency := idxAgency st |}
  end.

Fixpoint run (st : State) (rowIndex : nat) (rows : list (list string)) : State :=
  match rows with
  | [] => st
  | row :: rows' => run (onRow st rowIndex row) (S rowIndex) rows'
  end.

Definition parseRoutes (routesTxt : string) : gmap string RouteInfo.t :=
  routes (run start 0 (Csv.forEachCsvRow routesTxt)).

End WithNumber.

(** One turn of the loop of [buildLookup] over [Object.entries(routes)]. *)
Definition addShortName (index : gmap string string)
    (entry : string * RouteInfo.t) : gmap string string :=
  let '(routeId, info) := entry in
  match JS.or_else (RouteInfo.shortName info) None with
  | Some shortName =>
      if JS.truthy (index !! shortName) then index
      else <[shortName := routeId]> index
  | None => index
  end.

(** The loop, the entries taken in the order the engine lists them. *)
Definition shortNameIndex (entries : list (string * RouteInfo.t))
    : gmap string string :=
  fold_left addShortName entries ∅.

End Routes.

Section BuilderNotions.

(** The trimmed trip and route ids of a row, and whether the row is kept. *)
Definition tripCells (idxTrip idxRoute : option nat) (row : list string)
    : string * string :=
  (JS.trim (JS.or_str (Agencies.at_ row idxTrip) ""),
   JS.trim (JS.or_str (Agencies.at_ row idxRoute) "")).

Definition tripKept (pair : string * string) : bool :=
  negb (String.eqb (fst pair) "" || String.eqb (snd pair) "").

(** The trip and route ids of the data rows of a trip table that name
    both, trimmed, in row order. *)
Definition tripPairs (tripsTxt : string) : list (string * string) :=
  match Csv.forEachCsvRow tripsTxt with
  | header :: rows =>
      List.filter tripKept
        (List.map
           (tripCells
              (Agencies.indexOf "trip_id" (Agencies.headerOf header))
              (Agencies.indexOf "route_id" (Agencies.headerOf header)))
           rows)
  | [] => []
  end.

(** A string that is not empty and has no white space around it. *)
Definition trimmed (s : string) : Prop := s <> "" /\ JS.trim s = s.

(** A name that is present is trimmed. *)
Definition presentTrimmed (name : option string) : Prop :=
  forall s, name = Some s -> trimmed s.

(** A route table whose ids and names, where present, are trimmed. *)
Definition routesWellFormed (routes : gmap string RouteInfo.t) : Prop :=
  forall routeId info,
    routes !! routeId = Some info ->
    trimmed routeId
    /\ presentTrimmed (RouteInfo.shortName info)
    /\ presentTrimmed (RouteInfo.longName info)
    /\ presentTrimmed (RouteInfo.agencyId info).

(** The first entry of a list with the given short name. *)
Definition firstWithShortName (shortName : string)
    (entries : list (string * RouteInfo.t)) : option string :=
  fst <$> List.find
            (fun entry =>
               match RouteInfo.shortName (snd entry) with
               | Some s => String.eqb s shortName
               | None => false
               end)
            entries.

(** A trip table of two trips, one of them named twice. *)
Definition tripsExample : string :=
  "route_id,service_id,trip_id" +:+ nl
  +:+ "91-1,weekday,T1" +:+ nl
  +:+ "91-2,weekday,T2" +:+ nl
  +:+ ",weekday,T3" +:+ nl
  +:+ "91-7,sunday, T1 " +:+ nl.

(** A route table of three routes, two of them called S1. *)
Definition routesExample : string :=
  "route_id,agency_id,route_short_name,route_long_name,route_type" +:+ nl
  +:+ "91-1,11,S1,,109" +:+ nl
  +:+ "91-2,11, ,Bern - Thun,106" +:+ nl
  +:+ "91-7,33,S1,,109" +:+ nl.

(** The three routes of that table, in the order of the file. *)
Definition routeEntriesExample : list (string * RouteInfo.t) :=
  [ ("91-1", {| RouteInfo.shortName := Some "S1"; RouteInfo.longName := None;
                RouteInfo.type := Some 109%Z; RouteInfo.agencyId := Some "11" |});
    ("91-2", {| RouteInfo.shortName := None;
                RouteInfo.longName := Some "Bern - Thun";
                RouteInfo.type := Some 106%Z; RouteInfo.agencyId := Some "11" |});
    ("91-7", {| RouteInfo.shortName := Some "S1"; RouteInfo.longName := None;
                RouteInfo.type := Some 109%Z; RouteInfo.agencyId := Some "33" |}) ].

(** Decimal digits to a whole number, for the examples. *)
Definition digitsToNumber (s : string) : option Z :=
  match list_ascii_of_string s with
  | [] => None
  | cs => UtcHost.digits 0 cs
  end.

End BuilderNotions.

(** ** The table the builder writes, as the resolver reads it *)

Section BuiltTable.

(** The fields of the object [buildLookup] writes that the resolver
    reads; written as JSON and read back, they are the same, an absent
    field staying absent.  [entries] is [Object.entries(routes)] in the
    engine's order. *)
Definition builtLookup (toNumber : string -> option Z)
    (routesTxt tripsTxt agencyTxt : string)
    (entries : list (string * RouteInfo.t)) : GtfsLookup.t :=
  let agencies := Agencies.parseAgencies agencyTxt in
  {| GtfsLookup.routes := Routes.parseRoutes toNumber routesTxt;
     GtfsLookup.trips := Trips.parseTrips tripsTxt;
     GtfsLookup.routeShortNameToId := Some (Routes.shortNameIndex entries);
     GtfsLookup.agencies := Agencies.agenciesOf agencies;
     GtfsLookup.defaultAgencyId := Agencies.defaultAgencyId agencies |}.

(** [trimmedLineId || fallbackDisplay], the key that is looked up. *)
Definition lookupKeyOf (q : LineQuery.t) : string :=
  firstNonEmpty (rawIdentifier q) (fallbackDisplayOf q).

(** The property names every object inherits from [Object.prototype].
    The table read from JSON is an ordinary object, so [table[key]] with
    one of these keys yields the inherited member where the table has no
    entry of its own; the maps of [GtfsLookup.t] hold the entries of the
    table's own. *)
Definition inheritedNames : list string :=
  [ "constructor"; "__defineGetter__"; "__defineSetter__"; "hasOwnProperty";
    "__lookupGetter__"; "__lookupSetter__"; "isPrototypeOf";
    "propertyIsEnumerable"; "toString"; "valueOf"; "__proto__";
    "toLocaleString" ].

Definition inherited (key : string) : bool :=
  existsb (String.eqb key) inheritedNames.

(** The name a route is shown under: its short name, else its long name. *)
Definition nameOf (info : RouteInfo.t) : option string :=
  match RouteInfo.shortName info with
  | Some name => Some name
  | None => RouteInfo.longName info
  end.

(** Example files: the example trips and routes, and two agencies. *)
Definition agenciesExample : string :=
  "agency_id,agency_name" +:+ nl
  +:+ "11,Schweizerische Bundesbahnen SBB" +:+ nl
  +:+ "33,BLS AG" +:+ nl.

Definition builtExample : GtfsLookup.t :=
  builtLookup digitsToNumber routesExample tripsExample agenciesExample
    routeEntriesExample.

Definition byTrip : LineQuery.t :=
  {| LineQuery.lineId := Some " T2 ";
     LineQuery.category := Some "IC";
     LineQuery.number := Some "8";
     LineQuery.operator := None |}.

Definition byShortName : LineQuery.t :=
  {| LineQuery.lineId := None;
     LineQuery.category := Some "S1";
     LineQuery.number := None;
     LineQuery.operator := Some "SBB" |}.

Definition byRouteId : LineQuery.t :=
  {| LineQuery.lineId := Some "91-7";
     LineQuery.category := None;
     LineQuery.number := None;
     LineQuery.operator := None |}.

Definition unknownLine : LineQuery.t :=
  {| LineQuery.lineId := Some "X9";
     LineQuery.category := Some "EXT";
     LineQuery.number := None;
     LineQuery.operator := Some "SBB" |}.

End BuiltTable.

(** ** Loading the table ([getGtfsLookup]) *)

Module LookupCache.

Section WithParser.

(** What [JSON.parse] yields is cast to a table unchecked; [None] stands
    for a parse that throws or yields [null]. *)
Variable Table : Type.
Variable JSON_parse : string -> option Table.

(** The file at [DEFAULT_LOOKUP_PATH] at the time of a call: whether
    [existsSync] finds it, and what [readFile] gives, [None] when it
    fails. *)
Record Disk := { found : bool; contents : option string }.

(** The module variable [cachedLookup]: [undefined], or a table or
    [null]. *)
Inductive Cache := notLoaded | loaded (value : option Table).

(** One call, run to its end: the value it resolves to and the cache it
    leaves. *)
Definition getGtfsLookup (cache : Cache) (disk : Disk)
    : option Table * Cache :=
  match cache with
  | loaded value => (value, cache)
  | notLoaded =>
      if negb (found disk) then (None, loaded None)
      else
        match contents disk ≫= JSON_parse with
        | Some table => (Some table, loaded (Some table))
        | None => (None, loaded None)
        end
  end.

(** Calls made one after the other, each seeing the disk of its time. *)
Fixpoint calls (cache : Cache) (disks : list Disk) : list (option Table) :=
  match disks with
  | [] => []
  | disk :: later =>
      let '(value, cache') := getGtfsLookup cache disk in
      value :: calls cache' later
  end.

End WithParser.

Arguments notLoaded {Table}.
Arguments loaded {Table}.

End LookupCache.

(** ** Notions for the scores *)

Section ScoreNotions.

(** A double between 0 and 1. *)
Definition inUnitInterval (x : float) : Prop := fle 0 x /\ fle x 1.

End ScoreNotions.

(** ** Notions for the options of a summary *)

Section SummaryNotions.
Context `{Runtime}.
Local Open Scope Z_scope.

(** An option shows a connection: its identity and times are the
    connection's, its figures are the metrics of the connection's legs,
    its risk and its reasons are those computed for the connection. *)
Definition shows (context : Context.t) (o : DecisionOption.t)
    (connection : Connection.t) : Prop :=
  let metrics := buildMetrics (Connection.legs connection) in
  DecisionOption.id o = Connection.id connection
  /\ DecisionOption.departureTime o = Connection.departureTime connection
  /\ DecisionOption.arrivalTime o = Connection.arrivalTime connection
  /\ DecisionOption.suggestedDepartureTime o
     = Connection.departureTime connection
  /\ DecisionOption.durationMinutes o = Connection.durationMinutes connection
  /\ DecisionOption.transfersCount o = Connection.transfersCount connection
  /\ DecisionOption.minTransferMinutes o = Metrics.minTransferMinutes metrics
  /\ DecisionOption.walkingMinutes o = Metrics.walkingMinutes metrics
  /\ DecisionOption.transferWaitMinutes o = Metrics.transferWaitMinutes metrics
  /\ DecisionOption.exposureMinutes o = Metrics.exposureMinutes metrics
  /\ Alerts.delays (DecisionOption.alerts o) = Metrics.delayAlerts metrics
  /\ Alerts.platformChanges (DecisionOption.alerts o)
     = Metrics.platformChanges metrics
  /\ DecisionOption.riskScore o = Risk.score (computeRisk connection metrics)
  /\ DecisionOption.riskLevel o = Risk.level (computeRisk connection metrics)
  /\ DecisionOption.reasons o
     = buildReasons connection metrics (Context.preferences context).

(** A request by arrival time, with a departure buffer that is to have
    no effect. *)
Definition arriveBy (requested : string) : Context.t :=
  {| Context.from := "Bern"; Context.to := "Zug";
     Context.requestedTimeISO := requested;
     Context.isArrivalTime := true;
     Context.arrivalBufferMinutes := Some 10;
     Context.departureBufferMinutes := Some 5;
     Context.preferences := None |}.

(** A request by departure time, to leave [buffer] minutes ahead. *)
Definition leaveAhead (buffer : Z) : Context.t :=
  {| Context.from := "Bern"; Context.to := "Zug";
     Context.requestedTimeISO := "2024-03-01T08:00:00Z";
     Context.isArrivalTime := false;
     Context.arrivalBufferMinutes := None;
     Context.departureBufferMinutes := Some buffer;
     Context.preferences := None |}.

End SummaryNotions.

(* ================================================================== *)
(** * Part I-e: the client of the timetable service ([transport.ts]) *)
(* ================================================================== *)

(** ** What the service sends

    A field that is absent and one that is [null] behave alike in every
    use below, so both are [None]; [prognosis?.x] is flattened into one
    optional field; [walk] records whether the section's [walk] is an
    object. *)

Module Transport.

Record Checkpoint := {
  stationName : string;
  arrival : option string;
  departure : option string;
  platform : option string;
  prognosisArrival : option string;
  prognosisDeparture : option string;
  prognosisPlatform : option string
}.

Record Journey := {
  name : option string;
  category : option string;
  number : option string;
  operator : option string
}.

Record Section_ := {
  journey : option Journey;
  walk : bool;
  sectionDeparture : Checkpoint;
  sectionArrival : Checkpoint
}.

Record Connection := {
  from : Checkpoint;
  to : Checkpoint;
  duration : option string;
  transfers : Z;
  sections : list Section_
}.

End Transport.

(** ** Durations ([parseDuration]) *)

Section Durations.
Local Open Scope Z_scope.

(** [\d]: an ASCII digit. *)
Definition isDigit (c : ascii) : bool :=
  (48 <=? nat_of_ascii c)%nat && (nat_of_ascii c <=? 57)%nat.

Definition digitValue (c : ascii) : Z := Z.of_nat (nat_of_ascii c) - 48.

(** [parseInt] of a string of digits.  (Exact as long as the number and
    what is computed from it stay below 2^53; a day count of up to 12
    digits does.) *)
Definition parseIntDigits (cs : list ascii) : Z :=
  fold_left (fun acc c => 10 * acc + digitValue c) cs 0.

Definition colon : ascii := ":"%char.

(** [(\d{2}):(\d{2}):(\d{2})] at the head of the text: the first two
    groups. *)
Definition clockAt (cs : list ascii) : option (list ascii * list ascii) :=
  match cs with
  | h1 :: h2 :: c1 :: m1 :: m2 :: c2 :: s1 :: s2 :: _ =>
      if isDigit h1 && isDigit h2 && Ascii.eqb c1 colon
         && isDigit m1 && isDigit m2 && Ascii.eqb c2 colon
         && isDigit s1 && isDigit s2
      then Some ([h1; h2], [m1; m2])
      else None
  | _ => None
  end.

(** The longest run of digits at the head of the text, and what
    follows it. *)
Fixpoint digitRun (cs : list ascii) : list ascii * list ascii :=
  match cs with
  | c :: cs' =>
      if isDigit c then let '(run, rest) := digitRun cs' in (c :: run, rest)
      else ([], cs)
  | [] => ([], [])
  end.

(** The whole pattern at the head of the text.  The optional group
    [(\d+)d] is tried first: [\d+] takes the longest run of digits, and a
    shorter one cannot be followed by [d]; when the group or the clock
    after it fails, the clock is tried without the group. *)
Definition matchAt (cs : list ascii)
    : option (option (list ascii) * list ascii * list ascii) :=
  let '(run, rest) := digitRun cs in
  let withDays :=
    match run, rest with
    | _ :: _, d :: rest' =>
        if Ascii.eqb d "d"%char then
          match clockAt rest' with
          | Some (hours, minutes) => Some (Some run, hours, minutes)
          | None => None
          end
        else None
    | _, _ => None
    end in
  match withDays with
  | Some groups => Some groups
  | None =>
      match clockAt cs with
      | Some (hours, minutes) => Some (None, hours, minutes)
      | None => None
      end
  end.

(** [duration.match(...)]: the match at the leftmost position that has
    one. *)
Fixpoint search (cs : list ascii)
    : option (option (list ascii) * list ascii * list ascii) :=
  match matchAt cs with
  | Some groups => Some groups
  | None =>
      match cs with
      | _ :: cs' => search cs'
      | [] => None
      end
  end.

Definition parseDuration (duration : option string) : Z :=
  match JS.or_else duration None with
  | None => 0
  | Some text =>
      match search (list_ascii_of_string text) with
      | None => 0
      | Some (days, hours, minutes) =>
          parseIntDigits (default ["0"%char] days) * 24 * 60
          + parseIntDigits hours * 60 + parseIntDigits minutes
      end
  end.

End Durations.

(** ** Connection ids ([generateConnectionId]) *)

Section ConnectionIds.

(** A character of the class [a-zA-Z0-9-]. *)
Definition idChar (c : ascii) : bool :=
  let n := nat_of_ascii c in
  ((97 <=? n) && (n <=? 122) || (65 <=? n) && (n <=? 90)
   || (48 <=? n) && (n <=? 57) || (n =? 45))%nat.

Definition underscore : string := "_".

(** [s.replace(/[^a-zA-Z0-9-]/g, "_")].  The pattern works on UTF-16
    code units, the text here is UTF-8: a code point outside ASCII is one
    unit, and so one underscore, when its encoding starts with a byte
    below 240, and two units otherwise; the bytes that continue an
    encoding (128 to 191) add nothing. *)
Fixpoint replaceUnsafe (s : string) : string :=
  match s with
  | EmptyString => EmptyString
  | String c rest =>
      let n := nat_of_ascii c in
      if idChar c then String c (replaceUnsafe rest)
      else if (n <? 128)%nat then underscore +:+ replaceUnsafe rest
      else if (n <? 192)%nat then replaceUnsafe rest
      else if (n <? 240)%nat then underscore +:+ replaceUnsafe rest
      else underscore +:+ underscore +:+ replaceUnsafe rest
  end.

(** [conn.sections.filter((s) => s.journey).map((s) => s.journey?.name)],
    where [join] writes an absent name as the empty string. *)
Definition journeyNames (sections : list Transport.Section_) : list string :=
  omap
    (fun section =>
       (fun journey => JS.or_str (Transport.name journey) "")
       <$> Transport.journey section)
    sections.

Definition generateConnectionId (conn : Transport.Connection) : string :=
  let lines := JS.join "-" (journeyNames (Transport.sections conn)) in
  replaceUnsafe
    (JS.or_str (Transport.departure (Transport.from conn)) ""
     +:+ "-" +:+ lines).

End ConnectionIds.

(** ** Legs ([normalizeLegs]) *)

Section Legs.
Context `{Runtime}.
Local Open Scope Z_scope.

(** [a !== b] for a string and a string that may be absent. *)
Definition differs (a : string) (b : option string) : bool :=
  match b with
  | Some b' => negb (String.eqb a b')
  | None => true
  end.

(** [...(actual && actual !== planned && { timeActual: actual })] *)
Definition timeActualOf (actual planned : option string) : option string :=
  match JS.or_else actual None with
  | Some a => if differs a planned then Some a else None
  | None => None
  end.

(** The delay of a section: [Math.round((actual - planned) / 60000)]
    when both times are given, [None] also when it is NaN. *)
Definition sectionDelay (departure : Transport.Checkpoint) : option Z :=
  match JS.or_else (Transport.prognosisDeparture departure) None,
        JS.or_else (Transport.departure departure) None with
  | Some prognosis, Some scheduled =>
      match Date_parse scheduled, Date_parse prognosis with
      | Some planned, Some actual => Some (roundMinutes (actual - planned))
      | _, _ => None
      end
  | _, _ => None
  end.

(** The callback of [sections.map], with the fields of a leg that
    [Leg.t] keeps. *)
Definition normalizeLeg (gtfsLookup : option GtfsLookup.t)
    (section : Transport.Section_) : Leg.t :=
  let isWalk := Transport.walk section in
  let departure := Transport.sectionDeparture section in
  let arrival := Transport.sectionArrival section in
  let delayMinutes := sectionDelay departure in
  let fromPlatform :=
    JS.or_else (Transport.prognosisPlatform departure)
               (Transport.platform departure) in
  let toPlatform :=
    JS.or_else (Transport.prognosisPlatform arrival)
               (Transport.platform arrival) in
  let fromActual := Transport.prognosisDeparture departure in
  let toActual := Transport.prognosisArrival arrival in
  let line :=
    match Transport.journey section with
    | Some journey =>
        if negb isWalk then
          let lineInfo :=
            resolveLineInfo
              {| LineQuery.lineId := Transport.name journey;
                 LineQuery.category := Transport.category journey;
                 LineQuery.number := Transport.number journey;
                 LineQuery.operator := Transport.operator journey |}
              gtfsLookup in
          let fallbackLine :=
            JS.or_else (Transport.name journey) (Transport.category journey) in
          let displayLine :=
            JS.or_str (JS.nonEmpty (LineInfo.lineDisplay lineInfo))
                      (JS.or_str fallbackLine "") in
          Some displayLine
        else None
    | None => None
    end in
  {| Leg.type := if isWalk then walk else ride;
     Leg.from :=
       {| Stop.name := Transport.stationName departure;
          Stop.timePlanned := JS.or_str (Transport.departure departure) "";
          Stop.timeActual :=
            timeActualOf fromActual (Transport.departure departure);
          Stop.platform := JS.or_else fromPlatform None |};
     Leg.to :=
       {| Stop.name := Transport.stationName arrival;
          Stop.timePlanned := JS.or_str (Transport.arrival arrival) "";
          Stop.timeActual := timeActualOf toActual (Transport.arrival arrival);
          Stop.platform := JS.or_else toPlatform None |};
     Leg.line := line;
     Leg.delayMinutes :=
       match delayMinutes with
       | Some d =>
           if negb (d =? 0) && (0 <? d) then Some (inject_Z d) else None
       | None => None
       end |}.

Definition normalizeLegs (sections : list Transport.Section_)
    (gtfsLookup : option GtfsLookup.t) : list Leg.t :=
  List.map (normalizeLeg gtfsLookup) sections.

(** A stop as [normalizeLegs] leaves it: an actual time and a platform
    are each absent or not empty, and an actual time differs from the
    planned one. *)
Definition stopWellFormed (stop : Stop.t) : Prop :=
  (forall actual,
     Stop.timeActual stop = Some actual ->
     actual <> "" /\ actual <> Stop.timePlanned stop)
  /\ (forall platform, Stop.platform stop = Some platform -> platform <> "").

End Legs.

(** ** The connection list of the [find_connections] handler *)

Section Handler.
Local Open Scope Z_scope.

(** [filteredConnections], the list handed to the widget. *)
Definition filteredConnections (allConnections : list Connection.t)
    (maxTransfers : option Q) : list Connection.t :=
  match maxTransfers with
  | Some requested =>
      let transferLimit := Z.max 0 (Qfloor requested) in
      let matches :=
        List.filter
          (fun connection =>
             Connection.transfersCount connection <=? transferLimit)
          allConnections in
      if (0 <? length matches)%nat then matches else allConnections
  | None => allConnections
  end.

(** The context the handler passes to [buildDecisionSummary]. *)
Definition decisionContext (fromName toName requestTime : string)
    (isArrivalTime : bool) (arrivalBufferMinutes departureBufferMinutes : Z)
    (maxTransfers : option Q)
    (preferLowWalking minimizeOutdoorIfRaining : option bool) : Context.t :=
  {| Context.from := fromName;
     Context.to := toName;
     Context.requestedTimeISO := requestTime;
     Context.isArrivalTime := isArrivalTime;
     Context.arrivalBufferMinutes := Some arrivalBufferMinutes;
     Context.departureBufferMinutes := Some departureBufferMinutes;
     Context.preferences :=
       Some {| Preferences.maxTransfers := maxTransfers;
               Preferences.preferLowWalking := preferLowWalking;
               Preferences.minimizeOutdoorIfRaining :=
                 minimizeOutdoorIfRaining |} |}.

End Handler.

(** ** The figures of a disruption check ([checkDisruptions]) *)

Module Disruptions.
Local Open Scope Z_scope.

Inductive Status := normal | minor_delays | major_delays | disrupted.

Record Figures := {
  delayedConnectionsCount : Z;
  averageDelayMinutes : Z;
  maxDelayMinutes : Q;
  status : Status
}.

(** [delays.reduce((a, b) => a + b, 0)] *)
Definition sumOf (delays : list Q) : Q := fold_left Qplus delays 0%Q.

(** What follows the loop over the hubs: the figures drawn from the
    number of hubs without an answer, the number of connections seen and
    the delays gathered, one for each delayed leg.  (The engine rounds
    the quotient of two doubles; for whole delays that add up to less
    than 2^51 that is the rounding of the exact quotient.) *)
Definition figuresOf (cancelledOrMissing totalChecked : nat) (delays : list Q)
    : Figures :=
  let delayedConnectionsCount := Z.of_nat (length delays) in
  let averageDelay :=
    if (0 <? length delays)%nat
    then JS.roundQ (sumOf delays / inject_Z (Z.of_nat (length delays)))%Q
    else 0 in
  let maxDelay :=
    match delays with
    | d :: ds => fold_left JS.maxQ ds d
    | [] => 0%Q
    end in
  let status :=
    if (2 <=? cancelledOrMissing)%nat || JS.ltQ 30%Q maxDelay then disrupted
    else if JS.ltQ 15%Q maxDelay
            || (Z.of_nat totalChecked <? 2 * delayedConnectionsCount)
    then major_delays
    else if JS.ltQ 5%Q maxDelay || (0 <? delayedConnectionsCount)
    then minor_delays
    else normal in
  {| delayedConnectionsCount := delayedConnectionsCount;
     averageDelayMinutes := averageDelay;
     maxDelayMinutes := maxDelay;
     status := status |}.

(** The delays of the legs of the connections seen, as the loop gathers
    them: those that are present and positive. *)
Definition delaysOfLegs (legs : list Leg.t) : list Q :=
  omap
    (fun leg =>
       match Leg.delayMinutes leg with
       | Some d => if JS.positive d then Some d else None
       | None => None
       end)
    legs.

End Disruptions.

(** ** The tags of the connections found ([findConnections]) *)

Section Tags.
Local Open Scope Z_scope.

(** [x < best], where [None] stands for the [Infinity] the search
    starts from. *)
Definition belowBest (x : Z) (best : option Z) : bool :=
  match best with
  | Some b => x <? b
  | None => true
  end.

(** The least value seen by the first pass over the connections. *)
Definition leastOf (values : list Z) : option Z :=
  fold_left (fun best x => if belowBest x best then Some x else best)
            values None.

(** [x === best] *)
Definition isBest (x : Z) (best : option Z) : bool :=
  match best with
  | Some b => x =? b
  | None => false
  end.

(** The tags pushed for one connection in the second pass. *)
Definition tagsOf (fastestDuration fewestTransfers : option Z)
    (index : nat) (conn : Transport.Connection) : list string :=
  ((if isBest (parseDuration (Transport.duration conn)) fastestDuration
    then ["fastest"] else [])
   ++ (if isBest (Transport.transfers conn) fewestTransfers
       then ["fewest transfers"] else [])
   ++ (if (index =? 0)%nat then ["recommended"] else []))%list.

Definition tagsOfConnections (conns : list Transport.Connection)
    : list (list string) :=
  let fastestDuration :=
    leastOf (List.map (fun conn => parseDuration (Transport.duration conn))
                      conns) in
  let fewestTransfers := leastOf (List.map Transport.transfers conns) in
  imap (tagsOf fastestDuration fewestTransfers) conns.

End Tags.

(** Two connections for the examples: the second is faster, the first
    has fewer transfers. *)
Module TransportData.

Definition checkpoint (station : string) (time : option string)
    : Transport.Checkpoint :=
  {| Transport.stationName := station;
     Transport.arrival := time;
     Transport.departure := time;
     Transport.platform := None;
     Transport.prognosisArrival := None;
     Transport.prognosisDeparture := None;
     Transport.prognosisPlatform := None |}.

Definition slow : Transport.Connection :=
  {| Transport.from := checkpoint "Bern" (Some "2024-03-01T08:00:00Z");
     Transport.to := checkpoint "Zug" (Some "2024-03-01T09:30:00Z");
     Transport.duration := Some "00d01:30:00";
     Transport.transfers := 0;
     Transport.sections := [] |}.

Definition quick : Transport.Connection :=
  {| Transport.from := checkpoint "Bern" (Some "2024-03-01T08:10:00Z");
     Transport.to := checkpoint "Zug" (Some "2024-03-01T09:25:00Z");
     Transport.duration := Some "00d01:15:00";
     Transport.transfers := 1;
     Transport.sections := [] |}.

End TransportData.

(* ================================================================== *)
(** * Part II: properties *)
(* ================================================================== *)

(** ** Finite numbers *)

Section FiniteNumbers.
Local Open Scope Q_scope.

Lemma ltQ_lt (a b : Q) : JS.ltQ a b = true <-> a < b.
Proof.
  unfold JS.ltQ. rewrite negb_true_iff, <- not_true_iff_false, Qle_bool_iff.
  split; [apply Qnot_le_lt | apply Qlt_not_le].
Qed.

Lemma ltQ_ge (a b : Q) : JS.ltQ a b = false <-> b <= a.
Proof. unfold JS.ltQ. rewrite negb_false_iff. apply Qle_bool_iff. Qed.

Lemma positive_lt (x : Q) : JS.positive x = true <-> 0 < x.
Proof. apply ltQ_lt. Qed.

Lemma isInteger_whole (x : Q) :
  JS.isInteger x = true <-> exists z, x == inject_Z z.
Proof.
  unfold JS.isInteger. rewrite Qeq_bool_iff. split.
  - intros Hx. exists (Qfloor x). by symmetry.
  - intros [z Hz]. rewrite Hz at 1. rewrite Qfloor_Z. by symmetry.
Qed.

Lemma isInteger_inject_Z (z : Z) : JS.isInteger (inject_Z z) = true.
Proof. apply isInteger_whole. by exists z. Qed.


Lemma maxQ_cases (a b : Q) :
  (JS.maxQ a b = a /\ b <= a) \/ (JS.maxQ a b = b /\ a < b).
Proof.
  unfold JS.maxQ. destruct (JS.ltQ a b) eqn:Hlt.
  - right. split; [done |]. by apply ltQ_lt.
  - left. split; [done |]. by apply ltQ_ge.
Qed.

(** [Math.round] gives the whole number at most a half away, the upper
    one of two. *)
Lemma roundQ_bounds (x : Q) :
  inject_Z (JS.roundQ x) - (1 # 2) <= x
  /\ x < inject_Z (JS.roundQ x) + (1 # 2).
Proof.
  unfold JS.roundQ.
  pose proof (Qfloor_le (x + (1 # 2))) as Hle.
  pose proof (Qlt_floor (x + (1 # 2))) as Hlt.
  rewrite inject_Z_plus in Hlt. change (inject_Z 1) with 1 in Hlt.
  split; lra.
Qed.

End FiniteNumbers.

(** ** Connection metrics *)

Section MetricsFacts.
Context `{Runtime}.
Local Open Scope Z_scope.


Lemma minutesBetween_nonneg (startISO endISO : option string) :
  0 <= minutesBetween startISO endISO.
Proof.
  unfold minutesBetween.
  destruct (negb (JS.truthy startISO) || negb (JS.truthy endISO)); [lia |].
  destruct (startISO ≫= Date_parse), (endISO ≫= Date_parse); lia.
Qed.



Lemma walkingMinutesOf_nonneg (walkLegs : list Leg.t) :
  0 <= walkingMinutesOf walkLegs.
Proof.
  unfold walkingMinutesOf.
  assert (Hgen : forall l acc, 0 <= acc ->
    0 <= fold_left
           (fun sum leg =>
              sum + minutesBetween (actualOrPlanned (Leg.from leg))
                                   (actualOrPlanned (Leg.to leg))) l acc).
  { induction l as [| leg l IH]; intros acc Hacc; simpl; [done |].
    apply IH.
    pose proof (minutesBetween_nonneg (actualOrPlanned (Leg.from leg))
                                      (actualOrPlanned (Leg.to leg))).
    lia. }
  by apply Hgen.
Qed.

Lemma transferWaits_unfold (rideLegs : list Leg.t) (n start : nat) (acc : list Z) :
  fold_left
    (fun acc i =>
       match rideLegs !! i, rideLegs !! S i with
       | Some cur, Some next =>
           (acc ++ [minutesBetween (actualOrPlanned (Leg.to cur))
                                   (actualOrPlanned (Leg.from next))])%list
       | _, _ => acc
       end)
    (seq start n) acc
  = (acc ++ omap (waitAt rideLegs) (seq start n))%list.
Proof.
  revert start acc. induction n as [| n IH]; intros start acc; simpl.
  - by rewrite app_nil_r.
  - rewrite IH. unfold waitAt at 2.
    destruct (rideLegs !! start) as [cur |];
      [destruct (rideLegs !! S start) as [next |] |]; simpl;
      by rewrite <- ?app_assoc.
Qed.

Lemma transferWaitMinutesList_eq (rideLegs : list Leg.t) :
  transferWaitMinutesList rideLegs
  = omap (waitAt rideLegs) (seq 0 (length rideLegs - 1)).
Proof. unfold transferWaitMinutesList. by rewrite transferWaits_unfold. Qed.

Lemma waitAt_is_Some (rideLegs : list Leg.t) (i : nat) :
  (S i < length rideLegs)%nat -> is_Some (waitAt rideLegs i).
Proof.
  intros Hi. unfold waitAt.
  destruct (lookup_lt_is_Some_2 rideLegs i) as [cur ->]; [lia |].
  destruct (lookup_lt_is_Some_2 rideLegs (S i)) as [next ->]; [lia |].
  by eexists.
Qed.

Lemma omap_seq_total {A} (f : nat -> option A) (n start : nat) :
  (forall i, (start <= i < start + n)%nat -> is_Some (f i)) ->
  length (omap f (seq start n)) = n
  /\ forall i, (i < n)%nat -> omap f (seq start n) !! i = f (start + i)%nat.
Proof.
  revert start. induction n as [| n IH]; intros start Hf; simpl.
  - split; [done | intros; lia].
  - destruct (Hf start) as [x Hx]; [lia |]. rewrite Hx.
    destruct (IH (S start)) as [Hlen Hlook]; [intros; apply Hf; lia |].
    split; [simpl; by f_equal |].
    intros [| i] Hi; simpl.
    + by rewrite Nat.add_0_r.
    + rewrite Hlook; [| lia]. f_equal. lia.
Qed.

Lemma transferWaitMinutesList_length (rideLegs : list Leg.t) :
  length (transferWaitMinutesList rideLegs) = (length rideLegs - 1)%nat.
Proof.
  rewrite transferWaitMinutesList_eq.
  apply omap_seq_total. intros i Hi. apply waitAt_is_Some. lia.
Qed.

Lemma transferWaitMinutesList_lookup (rideLegs : list Leg.t) (i : nat) :
  (S i < length rideLegs)%nat ->
  transferWaitMinutesList rideLegs !! i = waitAt rideLegs i.
Proof.
  intros Hi. rewrite transferWaitMinutesList_eq.
  destruct (omap_seq_total (waitAt rideLegs) (length rideLegs - 1) 0) as [_ Hl].
  - intros j Hj. apply waitAt_is_Some. lia.
  - rewrite Hl; [done | lia].
Qed.

Lemma transferWaitMinutesList_nonneg (rideLegs : list Leg.t) :
  Forall (fun w => 0 <= w) (transferWaitMinutesList rideLegs).
Proof.
  apply Forall_lookup. intros i w Hw.
  assert (Hi : (i < length (transferWaitMinutesList rideLegs))%nat)
    by (eapply lookup_lt_Some; eauto).
  rewrite transferWaitMinutesList_length in Hi.
  rewrite transferWaitMinutesList_lookup in Hw; [| lia].
  unfold waitAt in Hw.
  destruct (rideLegs !! i); [| done]. destruct (rideLegs !! S i); [| done].
  injection Hw as <-. apply minutesBetween_nonneg.
Qed.

Lemma sum_nonneg (l : list Z) (acc : Z) :
  Forall (fun w => 0 <= w) l -> 0 <= acc -> 0 <= fold_left Z.add l acc.
Proof.
  revert acc. induction l as [| x l IH]; intros acc Hl Hacc; simpl; [done |].
  inversion Hl; subst. apply IH; [done | lia].
Qed.




Lemma minOf_spec (x : Z) (l : list Z) :
  minOf x l ∈ x :: l /\ forall y, y ∈ x :: l -> minOf x l <= y.
Proof.
  unfold minOf. revert x. induction l as [| z l IH]; intros x; simpl.
  - split; [apply list_elem_of_here |].
    intros y Hy. apply list_elem_of_singleton in Hy. lia.
  - destruct (IH (Z.min x z)) as [Hin Hle]. split.
    + apply elem_of_cons in Hin as [Hin | Hin].
      * rewrite Hin. destruct (Z.min_spec x z) as [[_ ->] | [_ ->]].
        -- apply list_elem_of_here.
        -- apply list_elem_of_further, list_elem_of_here.
      * by do 2 apply list_elem_of_further.
    + intros y Hy.
      assert (Hmin : fold_left Z.min l (Z.min x z) <= Z.min x z)
        by (apply Hle, list_elem_of_here).
      apply elem_of_cons in Hy as [-> | Hy]; [lia |].
      apply elem_of_cons in Hy as [-> | Hy]; [lia |].
      by apply Hle, list_elem_of_further.
Qed.




End MetricsFacts.

Section MetricsTheorems.
Context `{Runtime}.
Local Open Scope Z_scope.

Lemma buildMetrics_minTransferMinutes (legs : list Leg.t) :
  Metrics.minTransferMinutes (buildMetrics legs)
  = match transferWaitMinutesList (rideLegsOf legs) with
    | [] => None
    | w :: ws => Some (minOf w ws)
    end.
Proof. unfold buildMetrics, rideLegsOf. by destruct (delaysOf _). Qed.





End MetricsTheorems.

Section MetricsExamples.
Local Existing Instance UtcHost.host.

(** The example journey: two waits of 7 minutes, the first of which, at
    Olten, names the transfer station. *)
Lemma transfer_waits_example_values :
  let m := buildMetrics Journeys.threeRides in
  transferWaitMinutesList (rideLegsOf Journeys.threeRides) = [7; 7]%Z
  /\ Metrics.walkingMinutes m = 6%Z
  /\ Metrics.minTransferMinutes m = Some 7%Z
  /\ Metrics.transferStation m = Some "Olten"
  /\ Metrics.exposureMinutes m = 20%Z.
Proof. vm_compute. done. Qed.


(** The planned times of that journey alone would give 7 minutes at
    Olten. *)
Lemma planned_times_example :
  minutesBetween (Some "2024-03-01T08:26:00Z") (Some "2024-03-01T08:33:00Z")
  = 7%Z.
Proof. by vm_compute. Qed.



(** The delay total and the alerts of those rides. *)
Lemma fractional_delays_values :
  let m := buildMetrics Journeys.lateByFractions in
  (Metrics.delayMinutesTotal m == 11 # 4)%Q
  /\ Metrics.delayAlerts m = ["IC 1 +2.5 min"; "S 2 +0.25 min"].
Proof. by vm_compute. Qed.

End MetricsExamples.

(** ** Comparisons of doubles *)

Section FloatOrder.

Lemma SFcompare_antisym (x y : spec_float) (c : comparison) :
  SFcompare x y = Some c -> SFcompare y x = Some (CompOpp c).
Proof.
  destruct x as [sx | sx | | sx mx ex], y as [sy | sy | | sy my ey];
    simpl; intros Hc; try discriminate; injection Hc as <-;
    try (by destruct sx); try (by destruct sy);
    try (by destruct sx, sy).
  change (PosDef.Pos.compare_cont Eq mx my) with (mx ?= my)%positive.
  change (PosDef.Pos.compare_cont Eq my mx) with (my ?= mx)%positive.
  rewrite (Z.compare_antisym ex ey), (Pos.compare_antisym mx my).
  destruct sx, sy; try done;
    destruct (ex ?= ey)%Z; simpl; try done;
    by destruct (mx ?= my)%positive.
Qed.

Lemma SFcompare_None (x y : spec_float) :
  SFcompare x y = None -> x = S754_nan \/ y = S754_nan.
Proof.
  destruct x as [sx | sx | | sx mx ex], y as [sy | sy | | sy my ey];
    simpl; intros Hc; try discriminate; auto.
Qed.

(** [a <= s] excludes [s < a]. *)
Lemma fle_not_flt (a s : float) :
  PrimFloat.leb a s = true -> PrimFloat.ltb s a = false.
Proof.
  rewrite FloatAxioms.leb_spec, FloatAxioms.ltb_spec. unfold SFleb, SFltb.
  destruct (SFcompare (Prim2SF a) (Prim2SF s)) as [c |] eqn:Hc; [| done].
  rewrite (SFcompare_antisym _ _ _ Hc). by destruct c.
Qed.

(** Among numbers, not [a <= s] means [s < a]. *)
Lemma not_fle_flt (a b s : float) :
  PrimFloat.eqb a a = true -> PrimFloat.leb b s = true ->
  PrimFloat.leb a s = false -> PrimFloat.ltb s a = true.
Proof.
  rewrite FloatAxioms.eqb_spec, !FloatAxioms.leb_spec, FloatAxioms.ltb_spec.
  unfold SFeqb, SFleb, SFltb.
  intros Ha Hb Hle.
  destruct (SFcompare (Prim2SF a) (Prim2SF s)) as [c |] eqn:Hc.
  - rewrite (SFcompare_antisym _ _ _ Hc). by destruct c.
  - apply SFcompare_None in Hc as [Hc | Hc]; rewrite Hc in *.
    + simpl in Ha. done.
    + by destruct (Prim2SF b).
Qed.

Lemma flt_fle (a b : float) :
  PrimFloat.ltb a b = true -> PrimFloat.leb a b = true.
Proof.
  rewrite FloatAxioms.ltb_spec, FloatAxioms.leb_spec. unfold SFltb, SFleb.
  by destruct (SFcompare (Prim2SF a) (Prim2SF b)) as [[]|].
Qed.

(** What is not a number is the one NaN of the embedding. *)
Lemma notNumber_nan (x : float) :
  PrimFloat.eqb x x = false -> Prim2SF x = S754_nan.
Proof.
  rewrite FloatAxioms.eqb_spec. unfold SFeqb.
  destruct (Prim2SF x) as [s | s | | s m e]; simpl; try done.
  - by destruct s.
  - rewrite Z.compare_refl.
    change (PosDef.Pos.compare_cont Eq m m) with (m ?= m)%positive.
    rewrite Pos.compare_refl. by destruct s.
Qed.

Lemma Prim2SF_eq (x y : float) : Prim2SF x = Prim2SF y -> x = y.
Proof.
  intros Heq. rewrite <- (SF2Prim_Prim2SF x), <- (SF2Prim_Prim2SF y).
  by rewrite Heq.
Qed.

Lemma SFcompare_Eq_finite (x : spec_float) (m : positive) (e : Z) :
  SFcompare (S754_finite false m e) x = Some Eq -> x = S754_finite false m e.
Proof.
  destruct x as [s | s | | s m' e']; simpl; try done.
  - by destruct s.
  - destruct s; [done |].
    destruct (e ?= e')%Z eqn:He; try done.
    change (PosDef.Pos.compare_cont Eq m m') with (m ?= m')%positive.
    destruct (m ?= m')%positive eqn:Hm; try done.
    apply Z.compare_eq in He. apply Pos.compare_eq in Hm. by subst.
Qed.

(** [Math.max(0, Math.min(1, x))] is the clamp of the specification,
    for every double: below 0 and at either zero it gives [+0], from 1
    on it gives 1, in between the number itself, and NaN for NaN. *)
Lemma clamp_clampToUnit (x : float) : clamp x 0 1 = clampToUnit x.
Proof.
  unfold clamp, clampToUnit, JS.Math_max, JS.Math_min, JS.isNaN.
  change (PrimFloat.eqb 1 1) with true. change (PrimFloat.eqb 0 0) with true.
  change (get_sign 1) with false. change (get_sign 0) with false.
  cbn [negb orb].
  destruct (PrimFloat.eqb x x) eqn:Hnum; cbn [negb].
  - destruct (PrimFloat.ltb 1 x) eqn:Habove.
    + change (PrimFloat.eqb 1 1) with true. cbn [negb].
      change (PrimFloat.ltb 0 1) with true. cbv iota.
      rewrite (flt_fle _ _ Habove).
      assert (Hzero : PrimFloat.leb x 0 = false).
      { revert Habove. rewrite FloatAxioms.ltb_spec, FloatAxioms.leb_spec.
        change (Prim2SF 1) with (S754_finite false 4503599627370496 (-52)).
        change (Prim2SF 0) with (S754_zero false).
        unfold SFltb, SFleb.
        destruct (Prim2SF x) as [s | s | | s m e]; simpl; try done;
          by destruct s. }
      by rewrite Hzero.
    + assert (Hmin : (if PrimFloat.ltb x 1 then x else x) = x)
        by (by destruct (PrimFloat.ltb x 1)).
      rewrite Hmin, Hnum. cbn [negb].
      destruct (PrimFloat.ltb 0 x) eqn:Hpos.
      * assert (Hzero : PrimFloat.leb x 0 = false).
        { destruct (PrimFloat.leb x 0) eqn:Hle; [| done].
          by rewrite (fle_not_flt _ _ Hle) in Hpos. }
        rewrite Hzero.
        destruct (PrimFloat.leb 1 x) eqn:Hone; [| done].
        apply Prim2SF_eq.
        revert Habove Hone. rewrite FloatAxioms.ltb_spec, FloatAxioms.leb_spec.
        unfold SFltb, SFleb.
        change (Prim2SF 1) with (S754_finite false 4503599627370496 (-52)).
        destruct (SFcompare _ (Prim2SF x)) as [[] |] eqn:Hc; try done.
        intros _ _. by apply SFcompare_Eq_finite in Hc.
      * assert (Hzero : PrimFloat.leb x 0 = true).
        { destruct (PrimFloat.leb x 0) eqn:Hle; [done |].
          by rewrite (not_fle_flt x 0 0 Hnum eq_refl Hle) in Hpos. }
        rewrite Hzero. by destruct (PrimFloat.ltb x 0).
  - change (PrimFloat.eqb nan nan) with false. cbn [negb].
    pose proof (notNumber_nan x Hnum) as Hnan.
    assert (Hzero : PrimFloat.leb x 0 = false)
      by (rewrite FloatAxioms.leb_spec, Hnan; done).
    assert (Hone : PrimFloat.leb 1 x = false).
    { rewrite FloatAxioms.leb_spec, Hnan. done. }
    rewrite Hzero, Hone. apply Prim2SF_eq. by rewrite Hnan.
Qed.

End FloatOrder.

(** ** Risk model *)

Section RiskTheorems.

Lemma computeRisk_level (connection : Connection.t) (metrics : Metrics.t) :
  Risk.level (computeRisk connection metrics)
  = let score := Risk.score (computeRisk connection metrics) in
    if PrimFloat.leb 0.6 score then high
    else if PrimFloat.leb 0.35 score then medium
    else low.
Proof. reflexivity. Qed.

(** C1: the risk score is the sum of the delay likelihood
    [1 - reliability] (reliability 0.7 when none is given), the weather
    exposure risk [penalty * (0.3 + 0.7 * clamp(exposure / 20, 0, 1))]
    (penalty 0 when none is given) and the tight-transfer penalty (0.12
    below 6 minutes, 0.06 in [6, 8), else 0), clamped to the interval
    from 0 to 1: a sum of at most 0 gives 0 and a sum of at least 1
    gives 1; the level is high exactly when the score is at least 0.6,
    medium exactly when it is at least 0.35 and below 0.6, and low in
    every other case. *)
Theorem risk_score_and_level (connection : Connection.t) (metrics : Metrics.t) :
  let risk := computeRisk connection metrics in
  let score := Risk.score risk in
  score = riskFormula (reliabilityEstimate connection)
                      (weatherPenaltyGiven connection)
                      (Metrics.exposureMinutes metrics)
                      (Metrics.minTransferMinutes metrics)
  /\ (Risk.level risk = high <-> fle 0.6 score)
  /\ (Risk.level risk = medium <-> fle 0.35 score /\ flt score 0.6)
  /\ (Risk.level risk = low <-> ~ fle 0.6 score /\ ~ (fle 0.35 score /\ flt score 0.6)).
Proof.
  intros risk score. split.
  - unfold score, risk, computeRisk, riskFormula; simpl.
    rewrite !clamp_clampToUnit.
    f_equal. f_equal; [f_equal |].
    + unfold reliabilityScoreOf, reliabilityEstimate.
      destruct (Connection.reliability connection); [done |].
      by destruct (Connection.reliabilityScore connection).
    + unfold weatherPenaltyOf, weatherPenaltyGiven.
      by destruct (Connection.weather connection).
    + unfold tightTransferPenalty.
      destruct (Metrics.minTransferMinutes metrics) as [wait |]; [| done].
      destruct (wait <? 6)%Z eqn:H6; [done |].
      apply Z.ltb_ge in H6. apply Z.leb_le in H6. by rewrite H6.
  - subst score risk. rewrite computeRisk_level. cbv zeta.
    generalize (Risk.score (computeRisk connection metrics)). intros s.
    unfold fle, flt.
    destruct (PrimFloat.leb 0.6 s) eqn:Hhigh.
    + pose proof (fle_not_flt _ _ Hhigh) as Hnlt.
      repeat split; try done; intuition congruence.
    + destruct (PrimFloat.leb 0.35 s) eqn:Hmed.
      * assert (Hlt : PrimFloat.ltb s 0.6 = true)
          by (by apply (not_fle_flt 0.6 0.35 s)).
        repeat split; try done; intuition congruence.
      * repeat split; try done; intuition congruence.
Qed.

(** The worked example of the specification: the score prints as 0.73
    and the level is high.  A reliability estimate of -1 gives a sum of
    2 and a score of 1; an estimate of 1.5 gives a sum of -0.5 and a
    score of 0; forty exposed minutes count as twenty. *)
Lemma risk_example :
  UtcHost.fixed2
    (Risk.score (computeRisk RiskData.rainy RiskData.sixteenExposed)) = "0.73"
  /\ Risk.level (computeRisk RiskData.rainy RiskData.sixteenExposed) = high
  /\ Risk.score (computeRisk RiskData.offScale RiskData.sixteenExposed)
     = 1%float
  /\ Risk.score (computeRisk RiskData.overrated RiskData.sixteenExposed)
     = 0%float
  /\ Risk.score (computeRisk RiskData.rainy RiskData.fortyExposed)
     = (0.3 + 0.5 * (0.3 + 0.7 * 1))%float.
Proof.
  split; [by vm_compute |]. split; [| split; [| split]].
  - apply (risk_score_and_level RiskData.rainy RiskData.sixteenExposed).
    by vm_compute.
  - destruct (risk_score_and_level RiskData.offScale RiskData.sixteenExposed)
      as [Hscore _].
    rewrite Hscore. by vm_compute.
  - destruct (risk_score_and_level RiskData.overrated RiskData.sixteenExposed)
      as [Hscore _].
    rewrite Hscore. by vm_compute.
  - destruct (risk_score_and_level RiskData.rainy RiskData.fortyExposed)
      as [Hscore _].
    rewrite Hscore. by vm_compute.
Defined.

End RiskTheorems.

(** ** Sorting *)

Section SortFacts.
Context {A : Type} (gt : A -> A -> bool).

Lemma insert_Permutation (x : A) (l : list A) :
  Permutation (JS.insert gt x l) (x :: l).
Proof.
  induction l as [| y l IH]; simpl; [done |].
  destruct (gt x y); [| done].
  rewrite IH. apply perm_swap.
Qed.

Lemma sort_Permutation (l : list A) : Permutation (JS.sort gt l) l.
Proof.
  induction l as [| x l IH]; simpl; [done |].
  rewrite insert_Permutation. by constructor.
Qed.

Lemma sort_length (l : list A) : length (JS.sort gt l) = length l.
Proof. apply Permutation_length, sort_Permutation. Qed.

End SortFacts.

Section SortByKey.
Context {A : Type} (key : A -> Z).
Local Open Scope Z_scope.

Lemma insert_sorted (x : A) (l : list A) :
  StronglySorted (byKey key) l -> StronglySorted (byKey key) (JS.insert (JS.byDifference key) x l).
Proof.
  induction l as [| y l IH]; intros Hl; simpl.
  - by repeat constructor.
  - inversion Hl as [| ? ? Hl' Hy]; subst.
    unfold JS.byDifference at 1. destruct (0 <? key x - key y) eqn:Hxy.
    + constructor; [by apply IH |].
      apply Z.ltb_lt in Hxy.
      eapply Permutation_Forall; [symmetry; apply insert_Permutation |].
      constructor; [unfold byKey; lia | done].
    + apply Z.ltb_ge in Hxy. constructor; [done |].
      constructor; [unfold byKey; lia |].
      eapply Forall_impl; [exact Hy |].
      unfold byKey. intros z Hz. simpl in Hz. lia.
Qed.

Lemma sort_sorted (l : list A) : StronglySorted (byKey key) (JS.sort (JS.byDifference key) l).
Proof.
  induction l as [| x l IH]; simpl; [constructor |].
  by apply insert_sorted.
Qed.

(** An element no larger than all that follow it stays in front. *)
Lemma sort_least_first (x : A) (l : list A) :
  Forall (byKey key x) l -> JS.sort (JS.byDifference key) (x :: l) = x :: JS.sort (JS.byDifference key) l.
Proof.
  intros Hl. simpl.
  assert (Hs : Forall (byKey key x) (JS.sort (JS.byDifference key) l))
    by (eapply Permutation_Forall; [symmetry; apply sort_Permutation | done]).
  destruct (JS.sort (JS.byDifference key) l) as [| y s]; [done |]. simpl.
  inversion Hs as [| ? ? Hy _]; subst. unfold byKey in Hy.
  unfold JS.byDifference. destruct (0 <? key x - key y) eqn:Hxy; [| done].
  apply Z.ltb_lt in Hxy. lia.
Qed.

Lemma StronglySorted_take {B} (R : B -> B -> Prop) (n : nat) (l : list B) :
  StronglySorted R l -> StronglySorted R (take n l).
Proof.
  revert n. induction l as [| x l IH]; intros [| n] Hl; simpl;
    try constructor.
  - inversion Hl; subst. by apply IH.
  - inversion Hl as [| ? ? _ Hx]; subst.
    apply Forall_forall. intros y Hy.
    rewrite Forall_forall in Hx. apply Hx.
    eapply subseteq_take; eauto.
Qed.

Lemma StronglySorted_map_key (l : list A) :
  StronglySorted (byKey key) l -> StronglySorted Z.le (List.map key l).
Proof.
  induction 1 as [| x l _ IH Hx]; simpl; constructor; [done |].
  apply Forall_forall. intros k Hk.
  apply list_elem_of_fmap in Hk as (y & -> & Hy).
  rewrite Forall_forall in Hx. by apply Hx.
Qed.

Lemma StronglySorted_lookup_lt {B} (R : B -> B -> Prop) (l : list B)
    (i j : nat) (a b : B) :
  StronglySorted R l -> (i < j)%nat ->
  l !! i = Some a -> l !! j = Some b -> R a b.
Proof.
  intros Hl. revert i j. induction Hl as [| x l _ IH Hx]; intros i j Hij Ha Hb.
  - by rewrite lookup_nil in Ha.
  - destruct j as [| j]; [lia |]. simpl in Hb.
    destruct i as [| i]; simpl in Ha.
    + injection Ha as <-. rewrite Forall_forall in Hx. apply Hx.
      eapply list_elem_of_lookup_2; eauto.
    + apply (IH i j); [lia | done | done].
Qed.

End SortByKey.

(** ** Reason selection *)

Section ReasonFacts.
Context `{Runtime}.
Local Open Scope Z_scope.

Lemma existsb_label_false (reasons : list ReasonEntry.t) (label : string) :
  existsb (fun r => String.eqb (ReasonEntry.label r) label) reasons = false ->
  label ∉ List.map ReasonEntry.label reasons.
Proof.
  induction reasons as [| r reasons IH]; simpl; intros Hex.
  - apply not_elem_of_nil.
  - apply orb_false_iff in Hex as [Hr Hrest].
    apply not_elem_of_cons. split; [| by apply IH].
    apply String.eqb_neq in Hr. congruence.
Qed.

Lemma addReason_pushes (label : string) (priority : Z) :
  1 <= priority <= 8 ->
  pushesAtMostOne (fun reasons => addReason reasons label priority).
Proof.
  intros Hp reasons. unfold addReason.
  destruct (String.eqb label ""); [by left |].
  destruct (existsb _ reasons) eqn:Hex; [by left |].
  right. exists label, priority. split; [done |].
  split; [by apply existsb_label_false | done].
Qed.

Lemma same_pushes : pushesAtMostOne (fun reasons => reasons).
Proof. intros reasons. by left. Qed.

Lemma tightTransferReason_pushes (metrics : Metrics.t) :
  pushesAtMostOne (tightTransferReason metrics).
Proof.
  unfold tightTransferReason.
  destruct (Metrics.minTransferMinutes metrics) as [m |]; [| apply same_pushes].
  destruct (m <? 8); [| apply same_pushes].
  by apply addReason_pushes.
Qed.

Lemma delayReason_pushes (metrics : Metrics.t) :
  pushesAtMostOne (delayReason metrics).
Proof.
  unfold delayReason.
  destruct (JS.positive (Metrics.delayMinutesTotal metrics));
    [| apply same_pushes].
  by apply addReason_pushes.
Qed.

Lemma weatherReason_pushes (connection : Connection.t) (metrics : Metrics.t) :
  pushesAtMostOne (weatherReason connection metrics).
Proof.
  unfold weatherReason. cbv zeta.
  destruct (JS.truthy _ && (0 <? Metrics.exposureMinutes metrics));
    [by apply addReason_pushes |].
  destruct (Connection.weather connection ≫= _); [| apply same_pushes].
  by apply addReason_pushes.
Qed.

Lemma walkingReason_pushes (metrics : Metrics.t)
    (preferences : option Preferences.t) :
  pushesAtMostOne (walkingReason metrics preferences).
Proof.
  unfold walkingReason. cbv zeta.
  destruct (_ <=? Metrics.walkingMinutes metrics); [| apply same_pushes].
  by apply addReason_pushes.
Qed.

Lemma transfersReason_pushes (connection : Connection.t) :
  pushesAtMostOne (transfersReason connection).
Proof.
  unfold transfersReason.
  destruct (0 <? Connection.transfersCount connection); [| apply same_pushes].
  by apply addReason_pushes.
Qed.

Lemma platformReason_pushes (metrics : Metrics.t) :
  pushesAtMostOne (platformReason metrics).
Proof.
  unfold platformReason. cbv zeta.
  destruct (0 <? _); [| apply same_pushes].
  by apply addReason_pushes.
Qed.

Lemma rushHourReason_pushes (connection : Connection.t) :
  pushesAtMostOne (rushHourReason connection).
Proof.
  unfold rushHourReason.
  destruct (Connection.reliability connection) as [r |]; [| apply same_pushes].
  destruct (existsb _ (Reliability.reasons r)); [| apply same_pushes].
  by apply addReason_pushes.
Qed.

Lemma pushes_wellFormed (block : list ReasonEntry.t -> list ReasonEntry.t)
    (reasons : list ReasonEntry.t) :
  pushesAtMostOne block -> wellFormedReasons reasons ->
  wellFormedReasons (block reasons).
Proof.
  intros Hblock [Hnodup Htiers].
  destruct (Hblock reasons) as [-> | (label & priority & Hp & Hnew & ->)];
    [done |].
  split.
  - rewrite map_app. simpl. apply NoDup_app. split; [done |].
    split; [| apply NoDup_singleton].
    intros x Hx Hx'. apply list_elem_of_singleton in Hx'. by subst.
  - apply Forall_app. split; [done |]. by constructor.
Qed.

Lemma pushes_extends (block : list ReasonEntry.t -> list ReasonEntry.t)
    (first : ReasonEntry.t) (rest : list ReasonEntry.t) :
  pushesAtMostOne block -> exists rest', block (first :: rest) = first :: rest'.
Proof.
  intros Hblock.
  destruct (Hblock (first :: rest)) as [-> | (label & priority & _ & _ & ->)];
    by eexists.
Qed.

Lemma reasonCandidates_wellFormed (connection : Connection.t)
    (metrics : Metrics.t) (preferences : option Preferences.t) :
  wellFormedReasons (reasonCandidates connection metrics preferences).
Proof.
  unfold reasonCandidates. cbv zeta.
  apply pushes_wellFormed; [apply rushHourReason_pushes |].
  apply pushes_wellFormed; [apply platformReason_pushes |].
  apply pushes_wellFormed; [apply transfersReason_pushes |].
  apply pushes_wellFormed; [apply walkingReason_pushes |].
  apply pushes_wellFormed; [apply weatherReason_pushes |].
  apply pushes_wellFormed; [apply delayReason_pushes |].
  apply pushes_wellFormed; [apply tightTransferReason_pushes |].
  split; [constructor | constructor].
Qed.

Lemma tight_label_not_empty (a b : string) :
  String.eqb (a +:+ " min transfer" +:+ b) "" = false.
Proof. by destruct a. Qed.

(** When the tight-transfer block fires, its entry heads the candidates. *)
Lemma reasonCandidates_tight_first (connection : Connection.t)
    (metrics : Metrics.t) (preferences : option Preferences.t) (wait : Z) :
  Metrics.minTransferMinutes metrics = Some wait -> wait < 8 ->
  exists label rest,
    reasonCandidates connection metrics preferences
    = {| ReasonEntry.label := label; ReasonEntry.priority := 1 |} :: rest.
Proof.
  intros Hwait Hlt. unfold reasonCandidates. cbv zeta.
  assert (Htight : exists label,
             tightTransferReason metrics []
             = [ {| ReasonEntry.label := label; ReasonEntry.priority := 1 |} ]).
  { unfold tightTransferReason. rewrite Hwait.
    apply Z.ltb_lt in Hlt. rewrite Hlt.
    unfold addReason. rewrite tight_label_not_empty. simpl. by eexists. }
  destruct Htight as [label ->].
  set (first := {| ReasonEntry.label := label; ReasonEntry.priority := 1 |}).
  destruct (pushes_extends _ first [] (delayReason_pushes metrics)) as [r1 ->].
  destruct (pushes_extends _ first r1 (weatherReason_pushes connection metrics))
    as [r2 ->].
  destruct (pushes_extends _ first r2 (walkingReason_pushes metrics preferences))
    as [r3 ->].
  destruct (pushes_extends _ first r3 (transfersReason_pushes connection))
    as [r4 ->].
  destruct (pushes_extends _ first r4 (platformReason_pushes metrics)) as [r5 ->].
  destruct (pushes_extends _ first r5 (rushHourReason_pushes connection))
    as [r6 ->].
  by exists label, r6.
Qed.

(** C8: the selected reasons are at most three, no label occurs twice,
    and they are in order of non-decreasing priority tier; so a reason of
    tier 8 (rush hour) comes after any reason of tier 1 (tight transfer),
    which, when the minimum transfer is below 8 minutes, is the first
    reason of all. *)
Theorem reasons_short_distinct_ordered (connection : Connection.t)
    (metrics : Metrics.t) (preferences : option Preferences.t) :
  let selected := selectedReasons connection metrics preferences in
  let labels := buildReasons connection metrics preferences in
  labels = List.map ReasonEntry.label selected
  /\ (length labels <= 3)%nat
  /\ NoDup labels
  /\ StronglySorted Z.le (List.map ReasonEntry.priority selected)
  /\ (forall i j rush tight,
        selected !! i = Some rush -> ReasonEntry.priority rush = 8 ->
        selected !! j = Some tight -> ReasonEntry.priority tight = 1 ->
        (j < i)%nat)
  /\ (forall wait,
        Metrics.minTransferMinutes metrics = Some wait -> wait < 8 ->
        exists tight,
          selected !! 0%nat = Some tight /\ ReasonEntry.priority tight = 1).
Proof.
  intros selected labels.
  destruct (reasonCandidates_wellFormed connection metrics preferences)
    as [Hnodup Htiers].
  assert (Hsorted : StronglySorted (byKey ReasonEntry.priority) selected).
  { unfold selected, selectedReasons.
    apply StronglySorted_take, sort_sorted. }
  split; [done |]. split; [| split; [| split; [| split]]].
  - unfold labels, buildReasons, selectedReasons.
    rewrite length_map, length_take. lia.
  - unfold labels, buildReasons, selectedReasons.
    rewrite <- firstn_map.
    eapply sublist_NoDup; [| apply sublist_take].
    by rewrite (Permutation_map ReasonEntry.label (sort_Permutation _ _)).
  - by apply StronglySorted_map_key.
  - intros i j rush tight Hi Hrush Hj Htight.
    destruct (Nat.lt_trichotomy i j) as [Hij | [-> | Hij]]; [| | done].
    + pose proof (StronglySorted_lookup_lt _ _ _ _ _ _ Hsorted Hij Hi Hj) as Hle.
      unfold byKey in Hle. lia.
    + rewrite Hi in Hj. injection Hj as ->. lia.
  - intros wait Hwait Hlt.
    destruct (reasonCandidates_tight_first connection metrics preferences
                wait Hwait Hlt) as (label & rest & Hcands).
    exists {| ReasonEntry.label := label; ReasonEntry.priority := 1 |}.
    split; [| done].
    unfold selected, selectedReasons. rewrite Hcands in *.
    rewrite sort_least_first; [done |].
    inversion Htiers as [| ? ? _ Hrest]; subst.
    eapply Forall_impl; [exact Hrest |].
    intros r Hr. unfold byKey. simpl in *. lia.
Qed.

End ReasonFacts.

Section ReasonExamples.
Local Existing Instance UtcHost.host.
Local Open Scope Z_scope.

(** On the busy example the tight transfer leads and rush hour, of tier
    8, is cut off by the three-reason limit. *)
Lemma reasons_example :
  buildReasons ReasonData.busy ReasonData.tight None
  = ["4 min transfer at Olten"; "current delay +3 min"; "7 min walk"]
  /\ exists tight,
       selectedReasons ReasonData.busy ReasonData.tight None !! 0%nat = Some tight
       /\ ReasonEntry.priority tight = 1.
Proof.
  split; [by vm_compute |].
  apply (reasons_short_distinct_ordered ReasonData.busy ReasonData.tight None)
    with (wait := 4); [reflexivity | lia].
Defined.

End ReasonExamples.

(** ** Ranking *)

Section RankingFacts.
Context `{Runtime}.
Local Open Scope Z_scope.

Lemma map_imap_fixed {A B C} (f : nat -> A -> B) (g : B -> C) (h : A -> C)
    (l : list A) :
  (forall i a, g (f i a) = h a) -> List.map g (imap f l) = List.map h l.
Proof.
  revert f. induction l as [| a l IH]; intros f Hf; simpl; [done |].
  rewrite Hf. f_equal. apply IH. intros i b. apply Hf.
Qed.

Lemma isWetWeather_some_sample (weather : option Weather.t) :
  isWetWeather weather = wetInSomeSample weather.
Proof.
  unfold isWetWeather, wetInSomeSample.
  destruct weather as [w |]; [| done].
  by destruct (Weather.samples w).
Qed.

Lemma activeWeightSum_not_zero (context : Context.t) (wet : bool) :
  PrimFloat.eqb (activeWeightSum context wet) 0 = false
  /\ PrimFloat.leb 0.55 (activeWeightSum context wet) = true.
Proof.
  unfold activeWeightSum, walkingWeight, exposureWeight.
  destruct (prefersLowWalking _), (minimizesOutdoor _), wet; by vm_compute.
Qed.

Lemma decisionScoreOf_weightedMean (context : Context.t) (bounds : Bounds.t)
    (item : Computed) :
  decisionScoreOf context bounds item
  = weightedMean (wetInSomeSample (Connection.weather (fst item)))
                 context bounds item.
Proof.
  destruct item as [connection metrics].
  unfold decisionScoreOf, weightedMean. simpl.
  rewrite isWetWeather_some_sample.
  unfold activeWeightSum, walkingWeight, exposureWeight, weightSumOf, weightsFor.
  reflexivity.
Qed.

(** What [mapM id (imap g l)] holds when it returns: the results of [g]
    at each position, none of which failed. *)
Lemma mapM_imap_lookup {A B} (g : nat -> A -> option B) (l : list A)
    (k : list B) (i : nat) (b : B) :
  mapM id (imap g l) = Some k -> k !! i = Some b ->
  exists a, l !! i = Some a /\ g i a = Some b.
Proof.
  intros Hk Hb. apply mapM_Some in Hk.
  destruct (Forall2_lookup_r _ _ _ _ _ Hk Hb) as (x & Hx & Hid).
  rewrite list_lookup_imap in Hx.
  destruct (l !! i) as [a |]; simpl in Hx; [| done].
  injection Hx as <-. by exists a.
Qed.

Lemma mapM_imap_length {A B} (g : nat -> A -> option B) (l : list A)
    (k : list B) :
  mapM id (imap g l) = Some k -> length k = length l.
Proof.
  intros Hk. apply length_mapM in Hk. by rewrite length_imap in Hk.
Qed.

Lemma mapM_imap_Forall2 {A B} (g : nat -> A -> option B) (l : list A)
    (k : list B) :
  mapM id (imap g l) = Some k ->
  Forall2 (fun b a => exists i, g i a = Some b) k l.
Proof.
  intros Hk. apply Forall2_same_length_lookup_2.
  - by apply (mapM_imap_length g).
  - intros i b a Hb Ha.
    destruct (mapM_imap_lookup g l k i b Hk Hb) as (a' & Ha' & Hg).
    exists i. congruence.
Qed.

Lemma Forall2_map_eq {A B C} (f : A -> C) (g : B -> C) (k : list A)
    (l : list B) :
  Forall2 (fun a b => f a = g b) k l -> List.map f k = List.map g l.
Proof. induction 1; simpl; congruence. Qed.

Lemma optionsWithScore_lookup (connections : list Connection.t)
    (context : Context.t) (scored : list Scored.t) (i : nat)
    (entry : Scored.t) :
  optionsWithScore connections context = Some scored ->
  scored !! i = Some entry ->
  exists item,
    fst (filteredOf connections context) !! i = Some item
    /\ scoreOption context (boundsOf (fst (filteredOf connections context)))
         i item = Some entry.
Proof. unfold optionsWithScore. apply mapM_imap_lookup. Qed.

Lemma optionsWithScore_length (connections : list Connection.t)
    (context : Context.t) (scored : list Scored.t) :
  optionsWithScore connections context = Some scored ->
  length scored = length (fst (filteredOf connections context)).
Proof. unfold optionsWithScore. apply mapM_imap_length. Qed.

Lemma scoreOption_decisionScore (context : Context.t) (bounds : Bounds.t)
    (i : nat) (item : Computed) (entry : Scored.t) :
  scoreOption context bounds i item = Some entry ->
  Scored.decisionScore entry = decisionScoreOf context bounds item.
Proof.
  destruct item as [connection metrics]. unfold scoreOption.
  destruct (leaveByTimeOf context connection); simpl; [| done].
  by intros [= <-].
Qed.

Lemma scoreOption_id (context : Context.t) (bounds : Bounds.t)
    (i : nat) (item : Computed) (entry : Scored.t) :
  scoreOption context bounds i item = Some entry ->
  DecisionOption.id (Scored.option entry) = Connection.id (fst item).
Proof.
  destruct item as [connection metrics]. unfold scoreOption.
  destruct (leaveByTimeOf context connection); simpl; [| done].
  by intros [= <-].
Qed.

Lemma relabelled_ids (scored : list Scored.t) :
  Permutation
    (optionIds (relabelled scored))
    (List.map (fun entry => DecisionOption.id (Scored.option entry)) scored).
Proof.
  unfold optionIds, relabelled.
  rewrite (map_imap_fixed _ DecisionOption.id
             (fun entry => DecisionOption.id (Scored.option entry)))
    by done.
  unfold sortByScore. by rewrite (Permutation_map _ (sort_Permutation _ _)).
Qed.

(** The ranked options carry the ids of the filtered connections. *)
Lemma rankedOptions_ids (connections : list Connection.t) (context : Context.t)
    (options : list DecisionOption.t) :
  rankedOptions connections context = Some options ->
  Permutation
    (optionIds options)
    (connectionIds (List.map fst (fst (filteredOf connections context)))).
Proof.
  unfold rankedOptions.
  destruct (optionsWithScore connections context) as [scored |] eqn:Hscored;
    simpl; [| done].
  intros [= <-]. rewrite relabelled_ids.
  unfold connectionIds. rewrite map_map.
  apply Permutation_refl'. apply Forall2_map_eq.
  eapply Forall2_impl; [by apply mapM_imap_Forall2 |].
  intros entry item [i Hentry]. by apply scoreOption_id in Hentry.
Qed.

Lemma relabelled_length (scored : list Scored.t) :
  length (relabelled scored) = length scored.
Proof. unfold relabelled, sortByScore. by rewrite length_imap, sort_length. Qed.

Lemma rankedOptions_length (connections : list Connection.t)
    (context : Context.t) (options : list DecisionOption.t) :
  rankedOptions connections context = Some options ->
  length options = length (fst (filteredOf connections context)).
Proof.
  unfold rankedOptions.
  destruct (optionsWithScore connections context) as [scored |] eqn:Hscored;
    simpl; [| done].
  intros [= <-]. rewrite relabelled_length.
  by apply optionsWithScore_length.
Qed.

(** Rank and label are read off the position after the sort. *)
Lemma relabelled_position (scored : list Scored.t) (i : nat)
    (o : DecisionOption.t) :
  relabelled scored !! i = Some o ->
  DecisionOption.rank o = Z.of_nat i + 1
  /\ DecisionOption.label o = optionLabel i.
Proof.
  unfold relabelled. rewrite list_lookup_imap.
  destruct (_ !! i) as [entry |]; simpl; [| done].
  by intros [= <-].
Qed.

(** What the composer returns for a list that is not empty. *)
Lemma buildDecisionSummary_Some (connections : list Connection.t)
    (context : Context.t) (summary : Summary.t) :
  connections <> [] ->
  buildDecisionSummary connections context = Some summary ->
  exists options,
    rankedOptions connections context = Some options
    /\ Summary.options summary = options
    /\ Summary.constraintNote summary = snd (filteredOf connections context)
    /\ Summary.recommendedOptionId summary
       = DecisionOption.id <$> head options
    /\ Summary.summaryText summary
       = buildSummaryText options context
           (snd (filteredOf connections context)).
Proof.
  intros Hne. destruct connections as [| c cs]; [done |].
  unfold buildDecisionSummary.
  destruct (rankedOptions (c :: cs) context) as [options |]; simpl; [| done].
  intros [= <-]. by exists options.
Qed.

Lemma leaveByTimeOf_asksNoLeaveBy (context : Context.t)
    (connection : Connection.t) :
  asksNoLeaveBy context = true ->
  leaveByTimeOf context connection = Some None.
Proof.
  unfold asksNoLeaveBy, leaveByTimeOf.
  destruct (Context.departureBufferMinutes context) as [b |]; [| done].
  destruct (Context.isArrivalTime context), (b =? 0); simpl; done.
Qed.

Lemma scoreOption_is_Some (context : Context.t) (bounds : Bounds.t)
    (i : nat) (item : Computed) :
  is_Some (leaveByTimeOf context (fst item)) ->
  is_Some (scoreOption context bounds i item).
Proof.
  destruct item as [connection metrics]. simpl. intros [leaveBy Hleave].
  unfold scoreOption. rewrite Hleave. simpl. by eexists.
Qed.

(** The composer returns when every leave-by time it works out is a
    valid date. *)
Lemma buildDecisionSummary_is_Some (connections : list Connection.t)
    (context : Context.t) :
  Forall (fun item => is_Some (leaveByTimeOf context (fst item)))
         (fst (filteredOf connections context)) ->
  is_Some (buildDecisionSummary connections context).
Proof.
  intros Hall.
  assert (Hscored : is_Some (optionsWithScore connections context)).
  { unfold optionsWithScore. apply mapM_is_Some, Forall_lookup.
    intros i x Hx. rewrite list_lookup_imap in Hx.
    destruct (_ !! i) as [item |] eqn:Hitem; simpl in Hx; [| done].
    injection Hx as <-. apply scoreOption_is_Some.
    by apply (proj1 (Forall_lookup _ _) Hall i). }
  destruct Hscored as [scored Hscored].
  unfold buildDecisionSummary, rankedOptions. rewrite Hscored. simpl.
  destruct connections; by eexists.
Qed.

Lemma buildDecisionSummary_asksNoLeaveBy (connections : list Connection.t)
    (context : Context.t) :
  asksNoLeaveBy context = true ->
  is_Some (buildDecisionSummary connections context).
Proof.
  intros Hasks. apply buildDecisionSummary_is_Some, Forall_forall.
  intros item _. rewrite leaveByTimeOf_asksNoLeaveBy by done. by eexists.
Qed.

Lemma computedOf_fst (connections : list Connection.t) :
  List.map fst (computedOf connections) = connections.
Proof.
  unfold computedOf. rewrite map_map. simpl. apply map_id.
Qed.

Lemma filter_computedOf (p : Connection.t -> bool)
    (connections : list Connection.t) :
  List.map fst (List.filter (fun item => p (fst item)) (computedOf connections))
  = List.filter p connections.
Proof.
  induction connections as [| c cs IH]; simpl; [done |].
  destruct (p c); simpl; by rewrite IH.
Qed.

Lemma filter_nil_existsb {A} (p : A -> bool) (l : list A) :
  List.filter p l = [] <-> existsb p l = false.
Proof.
  induction l as [| x l IH]; simpl; [done |].
  destruct (p x); simpl; [split; done | done].
Qed.

(** What [filtered] and [constraintNote] hold once a limit is requested. *)
Lemma filteredOf_limited (connections : list Connection.t)
    (context : Context.t) (requested : Q) :
  Context.preferences context ≫= Preferences.maxTransfers = Some requested ->
  let limit := Z.max 0 (Qfloor requested) in
  (existsb (withinLimit limit) connections = true ->
     List.map fst (fst (filteredOf connections context))
     = List.filter (withinLimit limit) connections
     /\ snd (filteredOf connections context) = None)
  /\ (existsb (withinLimit limit) connections = false ->
        List.map fst (fst (filteredOf connections context)) = connections
        /\ snd (filteredOf connections context)
           = Some (constraintNoteFor limit)).
Proof.
  intros Hreq limit. unfold filteredOf, maxTransfersOf. rewrite Hreq.
  fold limit.
  pose proof (filter_computedOf (withinLimit limit) connections) as Hfilter.
  unfold withinLimit in Hfilter at 1.
  pose proof (filter_nil_existsb (withinLimit limit) connections) as Hnil.
  match goal with
  | |- context [(length ?F =? 0)%nat] => set (kept := F) in *
  end.
  destruct kept as [| item items]; simpl in *.
  - split; intros Hex.
    + symmetry in Hfilter. apply Hnil in Hfilter. congruence.
    + split; [apply computedOf_fst | done].
  - split; intros Hex.
    + by split.
    + apply Hnil in Hex. congruence.
Qed.

End RankingFacts.

Section RankingTheorems.
Context `{Runtime}.
Local Open Scope Z_scope.

(** C2, as amended: in the ranking pass, when it returns its entries,
    the decision score of every connection is the weighted mean of its
    risk score (weight 0.55),
    normalized duration (0.2), normalized transfer count (0.1),
    normalized walking minutes (0.1 under a low-walking preference, else
    0) and normalized exposure minutes (0.1 under an outdoor-minimization
    preference when ANY of its forecast samples has positive
    precipitation or snowfall, else 0), divided by the sum of the weights
    in force, which is at least 0.55 and so never zero. *)
Theorem decision_score_is_weighted_mean (connections : list Connection.t)
    (context : Context.t) (scored : list Scored.t) (i : nat)
    (entry : Scored.t) :
  optionsWithScore connections context = Some scored ->
  scored !! i = Some entry ->
  let filtered := fst (filteredOf connections context) in
  exists item,
    filtered !! i = Some item
    /\ Scored.decisionScore entry
       = weightedMean (wetInSomeSample (Connection.weather (fst item)))
                      context (boundsOf filtered) item
    /\ PrimFloat.eqb
         (activeWeightSum context
            (wetInSomeSample (Connection.weather (fst item)))) 0 = false
    /\ fle 0.55
         (activeWeightSum context
            (wetInSomeSample (Connection.weather (fst item)))).
Proof.
  intros Hscored Hentry filtered.
  destruct (optionsWithScore_lookup _ _ _ _ _ Hscored Hentry)
    as (item & Hitem & Hoption).
  exists item. split; [done |].
  rewrite (scoreOption_decisionScore _ _ _ _ _ Hoption),
    decisionScoreOf_weightedMean.
  split; [done |]. apply activeWeightSum_not_zero.
Qed.

(** C5, as amended: for a non-empty connection list and a requested
    limit, the limit in force is [max(0, floor(requested))].  The
    composer returns a summary whenever the request asks for no leave-by
    time, and in every run in which it returns one: when some connection
    has at most that many transfers, exactly those are ranked and no
    note is attached; when none has, all connections are ranked and the
    note is attached; the option list is not empty.  For a requested
    limit that is not negative the limit in force admits the same
    connections as the requested one. *)
Theorem max_transfers_filter (connections : list Connection.t)
    (context : Context.t) (requested : Q) :
  connections <> [] ->
  Context.preferences context ≫= Preferences.maxTransfers = Some requested ->
  let limit := Z.max 0 (Qfloor requested) in
  (asksNoLeaveBy context = true ->
     is_Some (buildDecisionSummary connections context))
  /\ (forall summary,
        buildDecisionSummary connections context = Some summary ->
        (existsb (withinLimit limit) connections = true ->
           Permutation
             (optionIds (Summary.options summary))
             (connectionIds (List.filter (withinLimit limit) connections))
           /\ Summary.constraintNote summary = None)
        /\ (existsb (withinLimit limit) connections = false ->
              Permutation (optionIds (Summary.options summary))
                          (connectionIds connections)
              /\ Summary.constraintNote summary
                 = Some (constraintNoteFor limit))
        /\ Summary.options summary <> [])
  /\ ((0 <= requested)%Q ->
        forall connection,
          withinLimit limit connection = withinRequested requested connection).
Proof.
  intros Hne Hreq limit.
  destruct (filteredOf_limited connections context requested Hreq)
    as [Hsome Hnone]. fold limit in Hsome, Hnone.
  split; [apply buildDecisionSummary_asksNoLeaveBy |]. split.
  - intros summary Hsummary.
    destruct (buildDecisionSummary_Some _ _ _ Hne Hsummary)
      as (options & Hranked & Hopts & Hnote & _).
    pose proof (rankedOptions_ids _ _ _ Hranked) as Hids.
    pose proof (rankedOptions_length _ _ _ Hranked) as Hlen.
    rewrite Hopts, Hnote.
    split; [| split].
    + intros Hex. destruct (Hsome Hex) as [Hfst Hsnd].
      rewrite Hfst in Hids. by split.
    + intros Hex. destruct (Hnone Hex) as [Hfst Hsnd].
      rewrite Hfst in Hids. by split.
    + intros Hempty. rewrite Hempty in Hlen. simpl in Hlen.
      symmetry in Hlen. apply length_zero_iff_nil in Hlen.
      destruct (existsb (withinLimit limit) connections) eqn:Hex.
      * destruct (Hsome eq_refl) as [Hfst _]. rewrite Hlen in Hfst.
        simpl in Hfst. symmetry in Hfst.
        apply filter_nil_existsb in Hfst. congruence.
      * destruct (Hnone eq_refl) as [Hfst _]. rewrite Hlen in Hfst.
        simpl in Hfst. congruence.
  - intros Hpos connection. unfold withinLimit, withinRequested.
    set (n := Connection.transfersCount connection).
    assert (Hfloor : 0 <= Qfloor requested).
    { replace 0 with (Qfloor (inject_Z 0)) by apply Qfloor_Z.
      by apply Qfloor_resp_le. }
    unfold limit. rewrite Z.max_r by done.
    apply eq_true_iff_eq. rewrite Z.leb_le, Qle_bool_iff. split.
    + intros Hn. eapply Qle_trans; [| apply Qfloor_le].
      by rewrite <- Zle_Qle.
    + intros Hn. replace n with (Qfloor (inject_Z n)) by apply Qfloor_Z.
      by apply Qfloor_resp_le.
Qed.

End RankingTheorems.

Section RankingExamples.
Local Existing Instance UtcHost.host.
Local Open Scope Z_scope.

(** With rain only in the second forecast sample and the outdoor
    preference set, the score is 0.5926..., the mean over the weights
    0.55 + 0.2 + 0.1 + 0.1. *)
Lemma decision_score_example :
  let connections := [RankingData.rainLater; RankingData.direct] in
  let context := RankingData.request None true in
  exists scored entry item,
    optionsWithScore connections context = Some scored
    /\ scored !! 0%nat = Some entry
    /\ fst (filteredOf connections context) !! 0%nat = Some item
    /\ Scored.decisionScore entry
       = weightedMean true context
           (boundsOf (fst (filteredOf connections context))) item.
Proof.
  intros connections context.
  destruct (optionsWithScore connections context) as [scored |] eqn:Hs;
    [| by vm_compute in Hs].
  destruct (scored !! 0%nat) as [entry |] eqn:He;
    [| vm_compute in Hs; injection Hs as <-; by vm_compute in He].
  destruct (decision_score_is_weighted_mean connections context scored 0
              entry Hs He)
    as (item & Hitem & Hscore & _).
  exists scored, entry, item. split; [done |]. split; [done |].
  split; [done |].
  rewrite Hscore. f_equal.
  vm_compute in Hitem. injection Hitem as <-. by vm_compute.
Defined.

(** C2 as stated fails: reading the weather off the first forecast
    sample alone gives a different score for that connection. *)
Lemma first_sample_reading_fails :
  let connections := [RankingData.rainLater; RankingData.direct] in
  let context := RankingData.request None true in
  let filtered := fst (filteredOf connections context) in
  exists scored entry item,
    optionsWithScore connections context = Some scored
    /\ scored !! 0%nat = Some entry
    /\ filtered !! 0%nat = Some item
    /\ wetInFirstSample (Connection.weather (fst item)) = false
    /\ Scored.decisionScore entry
       <> weightedMean (wetInFirstSample (Connection.weather (fst item)))
                       context (boundsOf filtered) item.
Proof.
  intros connections context filtered.
  eexists. eexists. eexists.
  split; [by vm_compute |]. split; [by vm_compute |].
  split; [by vm_compute |]. split; [by vm_compute |].
  intros Heq.
  apply (f_equal (fun x => PrimFloat.eqb x 0.5926315789473684%float)) in Heq.
  vm_compute in Heq. discriminate.
Qed.

(** A limit of one transfer keeps the direct connection only. *)
Lemma max_transfers_example :
  let connections := [RankingData.rainLater; RankingData.direct] in
  let context := RankingData.request (Some 1%Q) false in
  exists summary,
    buildDecisionSummary connections context = Some summary
    /\ Permutation (optionIds (Summary.options summary))
                   [Connection.id RankingData.direct]
    /\ Summary.constraintNote summary = None
    /\ Summary.options summary <> [].
Proof.
  intros connections context.
  destruct (max_transfers_filter connections context 1%Q)
    as (Hreturns & Hruns & _); [discriminate | reflexivity |].
  destruct Hreturns as [summary Hsummary]; [reflexivity |].
  exists summary. split; [done |].
  destruct (Hruns summary Hsummary) as (Hsome & _ & Hne).
  destruct Hsome as [Hids Hnote]; [by vm_compute |].
  by repeat split.
Defined.

(** C5 as stated fails for a negative limit: the composer returns a
    summary, no connection has at most -1 transfers, yet only the direct
    one is ranked and no note is attached. *)
Lemma negative_limit_fails :
  ~ maxTransfersRuleAsRequested
      [RankingData.rainLater; RankingData.direct]
      (RankingData.request (Some (-1)%Q) false) (-1)%Q.
Proof.
  unfold maxTransfersRuleAsRequested. intros Hrule.
  destruct (buildDecisionSummary
              [RankingData.rainLater; RankingData.direct]
              (RankingData.request (Some (-1)%Q) false))
    as [summary |] eqn:Hsummary; [| by vm_compute in Hsummary].
  specialize (Hrule summary eq_refl).
  replace (existsb (withinRequested (-1)%Q)
             [RankingData.rainLater; RankingData.direct]) with false
    in Hrule by (by vm_compute).
  destruct Hrule as [_ Hnote]. apply Hnote.
  vm_compute in Hsummary. by injection Hsummary as <-.
Qed.

End RankingExamples.

(** ** Line resolver *)

Section ResolverTheorems.

Lemma or_str_nonEmpty (s t : string) :
  JS.or_str (JS.nonEmpty s) t = firstNonEmpty s t.
Proof.
  unfold JS.or_str, JS.nonEmpty, firstNonEmpty.
  destruct (String.eqb s "") eqn:He; simpl; by rewrite ?He.
Qed.

Lemma trimmedLineIdOf_truthy (q : LineQuery.t) (s : string) :
  trimmedLineIdOf q = Some s -> String.eqb s "" = false.
Proof.
  unfold trimmedLineIdOf. destruct (LineQuery.lineId q) as [raw |]; [| done].
  simpl. unfold JS.nonEmpty.
  destruct (String.eqb (JS.trim raw) "") eqn:He; [done |]. by intros [= <-].
Qed.

Lemma or_str_trimmed (q : LineQuery.t) (t : string) :
  JS.or_str (trimmedLineIdOf q) t = firstNonEmpty (rawIdentifier q) t.
Proof.
  unfold rawIdentifier, firstNonEmpty, JS.or_str.
  destruct (trimmedLineIdOf q) as [s |] eqn:Hs; [| done].
  pose proof (trimmedLineIdOf_truthy q s Hs) as He.
  rewrite He. simpl. by rewrite He.
Qed.

Lemma firstNonEmpty_empty (a : string) : firstNonEmpty a "" = a.
Proof. unfold firstNonEmpty. by destruct (String.eqb_spec a ""). Qed.

Lemma routeDisplay_truthy (route : option RouteInfo.t) :
  JS.truthy (routeDisplay route)
  = JS.truthy
      (match route with
       | Some r =>
           if JS.truthy (RouteInfo.shortName r) then RouteInfo.shortName r
           else if JS.truthy (RouteInfo.longName r) then RouteInfo.longName r
           else None
       | None => None
       end)
  /\ (JS.truthy (routeDisplay route) = true ->
      routeDisplay route
      = match route with
        | Some r =>
            if JS.truthy (RouteInfo.shortName r) then RouteInfo.shortName r
            else if JS.truthy (RouteInfo.longName r) then RouteInfo.longName r
            else None
        | None => None
        end).
Proof.
  unfold routeDisplay, JS.or_else. destruct route as [r |]; simpl; [| done].
  destruct (JS.truthy (RouteInfo.shortName r)) eqn:Hs; [done |].
  destruct (JS.truthy (RouteInfo.longName r)) eqn:Hl; [done |].
  split; [done |]. congruence.
Qed.

Lemma firstNonEmpty_is_empty (a b : string) :
  String.eqb (firstNonEmpty a b) "" = true -> a = "" /\ b = "".
Proof.
  unfold firstNonEmpty. destruct (String.eqb_spec a "") as [-> | Ha].
  - intros Hb. by apply String.eqb_eq in Hb.
  - intros Ha'. by apply String.eqb_eq in Ha'.
Qed.

(** The key that is looked up: raw identifier, else category and number. *)
Lemma resolveLineInfo_routeId (q : LineQuery.t) (lookup : option GtfsLookup.t) :
  LineInfo.routeId (resolveLineInfo q lookup)
  = match lookup with
    | Some table =>
        let key := firstNonEmpty (rawIdentifier q) (fallbackDisplayOf q) in
        if String.eqb key "" then None else findRouteId table key
    | None => None
    end.
Proof.
  unfold resolveLineInfo. rewrite !or_str_trimmed.
  destruct lookup as [table |]; [| done]. cbv zeta.
  destruct (String.eqb _ ""); [done |].
  by destruct (JS.or_else (findRouteId table _) None).
Qed.

Lemma resolveLineInfo_lineDisplay (q : LineQuery.t)
    (lookup : option GtfsLookup.t) :
  let raw := rawIdentifier q in
  let joined := fallbackDisplayOf q in
  let resolved :=
    match JS.or_else (LineInfo.routeId (resolveLineInfo q lookup)) None, lookup with
    | Some found, Some table =>
        let display := routeDisplay (GtfsLookup.routes table !! found) in
        if JS.truthy display then Some (JS.trim (JS.or_str display ""))
        else None
    | _, _ => None
    end in
  LineInfo.lineDisplay (resolveLineInfo q lookup)
  = match resolved with
    | Some name =>
        if String.eqb name "" then firstNonEmpty raw joined else name
    | None => firstNonEmpty joined raw
    end.
Proof.
  intros raw joined. rewrite resolveLineInfo_routeId.
  unfold resolveLineInfo.
  rewrite or_str_nonEmpty, !or_str_trimmed, firstNonEmpty_empty.
  fold raw joined.
  assert (Hfinal :
    (if String.eqb (firstNonEmpty joined raw) ""
     then firstNonEmpty raw (JS.or_str (JS.nonEmpty joined) "")
     else firstNonEmpty joined raw) = firstNonEmpty joined raw).
  { destruct (String.eqb (firstNonEmpty joined raw) "") eqn:He; [| done].
    apply firstNonEmpty_is_empty in He as [-> ->]. done. }
  destruct lookup as [table |]; cbv zeta.
  - destruct (String.eqb (firstNonEmpty raw joined) ""); simpl; [done |].
    destruct (JS.or_else (findRouteId table _) None) as [found |]; simpl;
      [| done].
    destruct (JS.truthy (routeDisplay _)); simpl; [| done].
    by rewrite or_str_nonEmpty, firstNonEmpty_empty.
  - simpl. exact Hfinal.
Qed.

(** C3, as amended: the display string is the reference-resolved route
    name (short name before long name, trimmed) when a route id was found
    and that name is not blank; when the resolved name is blank, the raw
    trimmed identifier if it is not empty, else category and number; and
    when no name was resolved, category and number joined by one space if
    that is not empty, else the raw trimmed identifier, else the empty
    string. *)
Theorem line_display_fallback_order (q : LineQuery.t)
    (lookup : option GtfsLookup.t) :
  LineInfo.lineDisplay (resolveLineInfo q lookup) = displayInOrder q lookup.
Proof.
  rewrite resolveLineInfo_lineDisplay. unfold displayInOrder, referenceName.
  destruct (JS.or_else (LineInfo.routeId (resolveLineInfo q lookup)) None)
    as [found |]; [| done].
  destruct lookup as [table |]; [| done]. cbv zeta.
  destruct (routeDisplay_truthy (GtfsLookup.routes table !! found))
    as [Htruthy Hvalue].
  destruct (JS.truthy (routeDisplay (GtfsLookup.routes table !! found))) eqn:Ht.
  - rewrite (Hvalue eq_refl) in *.
    destruct (GtfsLookup.routes table !! found) as [route |]; [| done].
    destruct (JS.truthy (RouteInfo.shortName route)) eqn:Hs.
    + destruct (RouteInfo.shortName route) as [name |]; [| done]. simpl.
      simpl in Hs. apply negb_true_iff in Hs. by rewrite Hs.
    + destruct (JS.truthy (RouteInfo.longName route)) eqn:Hl; [| done].
      destruct (RouteInfo.longName route) as [name |]; [| done]. simpl.
      simpl in Hl. apply negb_true_iff in Hl. by rewrite Hl.
  - destruct (GtfsLookup.routes table !! found) as [route |]; [| done].
    destruct (JS.truthy (RouteInfo.shortName route)) eqn:Hs.
    + destruct (RouteInfo.shortName route); simpl in *; congruence.
    + destruct (JS.truthy (RouteInfo.longName route)) eqn:Hl; [| done].
      destruct (RouteInfo.longName route); simpl in *; congruence.
Qed.

Section ResolverExamples.

(** The specification's example: trip "T1" resolves to "S1". *)
Lemma line_display_example :
  let info := resolveLineInfo ResolverData.t1 (Some ResolverData.table) in
  LineInfo.lineDisplay info = "S1" /\ LineInfo.source info = gtfs
  /\ LineInfo.routeId info = Some "91-1".
Proof. by vm_compute. Qed.

(** C3 as stated fails: without a table, "019234" with category "S" and
    number "1" is displayed as "S 1", not as the raw identifier. *)
Lemma raw_identifier_not_preferred :
  LineInfo.lineDisplay (resolveLineInfo ResolverData.s1 None) = "S 1"
  /\ displayAsStated ResolverData.s1 None = "019234"
  /\ LineInfo.lineDisplay (resolveLineInfo ResolverData.s1 None)
     <> displayAsStated ResolverData.s1 None.
Proof. split; [by vm_compute |]. split; [by vm_compute |]. by vm_compute. Qed.

End ResolverExamples.

End ResolverTheorems.

(** ** CSV reader *)

Section CsvTheorems.

(** The example of the specification: quoted fields, an escaped quote, a
    CR LF row break and a last row without a line break. *)
Lemma csv_example_rows :
  Csv.forEachCsvRow csvExample
  = [ ["a"; "b,c"; "d" +:+ dq +:+ "e"]; ["f"; "g"; "h"] ].
Proof. by vm_compute. Qed.

(** An empty line at the very end of the text gives no row. *)
Lemma csv_trailing_line_break :
  Csv.forEachCsvRow ("a,b" +:+ nl) = [ ["a"; "b"] ]
  /\ Csv.forEachCsvRow ("a,b" +:+ cr +:+ nl) = [ ["a"; "b"] ]
  /\ Csv.forEachCsvRow ("a,b" +:+ cr) = [ ["a"; "b"] ].
Proof. by vm_compute. Qed.

(** A last line that holds nothing but an empty quoted field, without a
    line break after it, gives no row either. *)
Lemma csv_trailing_empty_quoted_field :
  Csv.forEachCsvRow ("a,b" +:+ nl +:+ dq +:+ dq) = [ ["a"; "b"] ]
  /\ Csv.forEachCsvRow ("a,b" +:+ nl +:+ dq +:+ dq +:+ nl)
     = [ ["a"; "b"]; [""] ].
Proof. by vm_compute. Qed.

(** Every row handed to the callback has at least one field. *)
Lemma flushRow_emitted (st : Csv.State) :
  Forall (fun row => row <> []) (Csv.emitted st) ->
  Forall (fun row => row <> []) (Csv.emitted (Csv.flushRow (Csv.flushField st))).
Proof.
  intros Hst. unfold Csv.flushRow, Csv.flushField. simpl.
  rewrite length_app. simpl.
  replace (0 <? length (Csv.row st) + 1)%nat with true
    by (symmetry; apply Nat.ltb_lt; lia).
  apply Forall_app. split; [done |].
  constructor; [| constructor]. by destruct (Csv.row st).
Qed.

(** A line break outside quotes always emits a row, even when nothing
    precedes it on its line: the row then holds one empty field. *)
Lemma line_break_emits_row (st : Csv.State) :
  Csv.inQuotes st = false -> Csv.row st = [] -> Csv.field st = "" ->
  Csv.emitted (Csv.scan nl st) = (Csv.emitted st ++ [[""]])%list.
Proof.
  intros Hq Hrow Hfield. simpl.
  unfold Csv.flushRow, Csv.flushField. simpl.
  by rewrite Hq, Hrow, Hfield.
Qed.

(** C4 at a text with an empty line: the empty second line is handed to
    the callback as a row with one empty field, where the specification
    has no row emitted for it. *)
Theorem csv_blank_line_is_emitted :
  Csv.forEachCsvRow csvBlankLine = [ ["a"; "b"]; [""]; ["c"; "d"] ].
Proof. by vm_compute. Qed.

End CsvTheorems.

(** ** Agency table *)

Section AgencyTheorems.

Lemma onlyKey_single (m : gmap string string) (id : string) :
  Agencies.onlyKey m = Some id <-> size m = 1%nat /\ is_Some (m !! id).
Proof.
  unfold Agencies.onlyKey.
  pose proof (length_map_to_list m) as Hsize.
  split.
  - destruct (map_to_list m) as [| [k v] [| kv rest]] eqn:Hlist; try done.
    intros [= <-]. split; [by rewrite <- Hsize |].
    exists v. apply elem_of_map_to_list. rewrite Hlist. apply list_elem_of_here.
  - intros [Hone [v Hv]]. rewrite Hone in Hsize.
    apply elem_of_map_to_list in Hv.
    destruct (map_to_list m) as [| [k w] [| kv rest]]; try done.
    apply list_elem_of_singleton in Hv. by injection Hv as -> ->.
Qed.

(** Storing every name under one key keeps the last name only. *)
Lemma insert_all_default (names : list string) (m : gmap string string) :
  fold_left (fun agencies name => <["default" := name]> agencies) names m
  = match last names with
    | Some name => <["default" := name]> m
    | None => m
    end.
Proof.
  revert m. induction names as [| name names IH]; intros m; simpl; [done |].
  rewrite IH. destruct names as [| name' names]; [done |].
  assert (Hsome : is_Some (last (name' :: names))) by (by apply last_is_Some).
  destruct Hsome as [final Hfinal].
  change (last (name :: name' :: names)) with (last (name' :: names)).
  rewrite Hfinal. apply insert_insert_eq.
Qed.

(** Without an id column the fallback id stays [default] and every
    named row is stored under it. *)
Lemma run_without_id (rows : list (list string)) (st : Agencies.State)
    (rowIndex : nat) :
  Agencies.idxId st = None -> Agencies.fallbackId st = "default" ->
  let names :=
    List.filter (fun name => negb (String.eqb name ""))
      (List.map
         (fun row => JS.trim (JS.or_str (Agencies.at_ row (Agencies.idxName st)) ""))
         rows) in
  let st' := Agencies.run st (S rowIndex) rows in
  Agencies.agencies st'
  = fold_left (fun agencies name => <["default" := name]> agencies) names
              (Agencies.agencies st)
  /\ Agencies.fallbackId st' = "default".
Proof.
  revert st rowIndex. induction rows as [| row rows IH];
    intros st rowIndex Hid Hfb; simpl; [done |].
  destruct (String.eqb (JS.trim (JS.or_str (Agencies.at_ row (Agencies.idxName st)) "")) "")
    eqn:Hname; simpl.
  - by apply IH.
  - rewrite Hid. rewrite Hfb.
    match goal with
    | |- context [Agencies.run ?s _ _] =>
        destruct (IH s (S rowIndex) eq_refl eq_refl) as [Hag Hfb']
    end.
    simpl in Hag, Hfb'. by rewrite Hag, Hfb'.
Qed.

(** C7, as amended: when the header has no [agency_id] column, every row
    with a name is stored under the one fallback id [default], which
    never changes, so the table holds the last name only, under
    [default]; and, for every table, the default agency id is recorded
    exactly when there is exactly one agency key, and it is that key. *)
Theorem agencies_without_id_column (agencyTxt : string) :
  let result := Agencies.parseAgencies agencyTxt in
  (headerOmitsId agencyTxt ->
     Agencies.agenciesOf result
     = match last (agencyNames agencyTxt) with
       | Some name => {[ "default" := name ]}
       | None => ∅
       end
     /\ Agencies.defaultAgencyId result
        = match agencyNames agencyTxt with
          | [] => None
          | _ => Some "default"
          end)
  /\ (forall id,
        Agencies.defaultAgencyId result = Some id
        <-> size (Agencies.agenciesOf result) = 1%nat
            /\ is_Some (Agencies.agenciesOf result !! id)).
Proof.
  intros result. split; [| intros id; apply onlyKey_single].
  unfold headerOmitsId, agencyNames, result, Agencies.parseAgencies.
  destruct (Csv.forEachCsvRow agencyTxt) as [| header rows]; simpl.
  - intros _. split; [done |]. unfold Agencies.onlyKey.
    by rewrite map_to_list_empty.
  - intros Hheader.
    match goal with
    | |- context [Agencies.run ?s _ _] =>
        destruct (run_without_id rows s 0 Hheader eq_refl) as [Hag _]
    end.
    simpl in Hag. rewrite Hag, insert_all_default.
    set (names := List.filter _ _).
    destruct (last names) as [name |] eqn:Hlast.
    + split; [by rewrite insert_empty |].
      rewrite insert_empty. unfold Agencies.onlyKey.
      rewrite map_to_list_singleton. by destruct names.
    + split; [done |]. unfold Agencies.onlyKey. rewrite map_to_list_empty.
      destruct names as [| n ns]; [done |].
      assert (Hsome : is_Some (last (n :: ns))) by (by apply last_is_Some).
      rewrite Hlast in Hsome. by destruct Hsome.
Qed.

(** On the table of two agencies: one key, [default], holding "BLS". *)
Lemma agencies_example :
  Agencies.agenciesOf (Agencies.parseAgencies twoAgencies)
  = {[ "default" := "BLS" ]}
  /\ Agencies.defaultAgencyId (Agencies.parseAgencies twoAgencies)
     = Some "default".
Proof.
  apply (agencies_without_id_column twoAgencies). by vm_compute.
Defined.

(** C7 as stated fails: were each name to become the fallback id of the
    rows after it, "BLS" would be stored under "SBB"; the code stores
    nothing under "SBB". *)
Lemma names_do_not_rotate :
  headerOmitsId twoAgencies
  /\ keyedByRotatingName (agencyNames twoAgencies) !! "SBB" = Some "BLS"
  /\ Agencies.agenciesOf (Agencies.parseAgencies twoAgencies) !! "SBB" = None
  /\ Agencies.agenciesOf (Agencies.parseAgencies twoAgencies)
     <> keyedByRotatingName (agencyNames twoAgencies).
Proof.
  assert (Hstated :
    keyedByRotatingName (agencyNames twoAgencies) !! "SBB" = Some "BLS")
    by (by vm_compute).
  assert (Hcode :
    Agencies.agenciesOf (Agencies.parseAgencies twoAgencies) !! "SBB" = None)
    by (by vm_compute).
  split; [by vm_compute |]. split; [done |]. split; [done |].
  intros Heq. rewrite Heq in Hcode. congruence.
Qed.

End AgencyTheorems.

(* ================================================================== *)
(** * Part III: further properties of the code *)
(* ================================================================== *)

(** ** The CSV reader on written text *)

Section CsvRoundTrip.

Lemma append_cons (x : ascii) (a b : string) :
  String x a +:+ b = String x (a +:+ b).
Proof. reflexivity. Qed.

Lemma append_nil (b : string) : EmptyString +:+ b = b.
Proof. reflexivity. Qed.

Lemma append_assoc (a b c : string) : (a +:+ b) +:+ c = a +:+ (b +:+ c).
Proof.
  induction a as [| x a IH]; [done |].
  by rewrite !append_cons, IH.
Qed.

Lemma append_empty_r (a : string) : a +:+ EmptyString = a.
Proof.
  induction a as [| x a IH]; [done |].
  by rewrite append_cons, IH.
Qed.

Lemma withField_empty (st : Csv.State) : withField st EmptyString = st.
Proof. destruct st. unfold withField. simpl. by rewrite append_empty_r. Qed.

Lemma withField_append (st : Csv.State) (c : ascii) (f : string) :
  withField (Csv.append st c) f = withField st (String c f).
Proof.
  unfold withField, Csv.append. simpl. f_equal.
  by rewrite append_assoc, append_cons, append_nil.
Qed.

(** One step of the loop, by the kind of character it meets. *)

Lemma scan_plainChar (c : ascii) (rest : string) (st : Csv.State) :
  plainChar c = true ->
  Csv.scan (String c rest) st = Csv.scan rest (Csv.append st c).
Proof.
  unfold plainChar. intros Hc. apply negb_true_iff in Hc.
  apply orb_false_iff in Hc as [Hc Hcr].
  apply orb_false_iff in Hc as [Hc Hlf].
  apply orb_false_iff in Hc as [Hq Hcomma].
  simpl. by rewrite Hq, Hcomma, Hlf, Hcr.
Qed.

Lemma scan_inside (c : ascii) (rest : string) (st : Csv.State) :
  Csv.inQuotes st = true -> Ascii.eqb c Csv.quote = false ->
  Csv.scan (String c rest) st = Csv.scan rest (Csv.append st c).
Proof.
  intros Hin Hq. simpl. rewrite Hq, Hin. simpl.
  by rewrite !andb_false_r.
Qed.

Lemma scan_doubled (rest : string) (st : Csv.State) :
  Csv.inQuotes st = true ->
  Csv.scan (String Csv.quote (String Csv.quote rest)) st
  = Csv.scan rest (Csv.append st Csv.quote).
Proof. intros Hin. simpl. by rewrite Hin. Qed.

Lemma scan_opening (rest : string) (st : Csv.State) :
  Csv.inQuotes st = false ->
  Csv.scan (String Csv.quote rest) st = Csv.scan rest (Csv.toggleQuotes st).
Proof. intros Hin. simpl. rewrite Hin. by destruct rest. Qed.

Lemma scan_closing (rest : string) (st : Csv.State) :
  firstIs Csv.quote rest = false ->
  Csv.scan (String Csv.quote rest) st = Csv.scan rest (Csv.toggleQuotes st).
Proof.
  intros Hrest. simpl. destruct rest as [| next rest']; [done |].
  simpl in Hrest. rewrite Hrest. by rewrite andb_false_r.
Qed.

Lemma scan_comma (rest : string) (st : Csv.State) :
  Csv.inQuotes st = false ->
  Csv.scan (String Csv.comma rest) st = Csv.scan rest (Csv.flushField st).
Proof. intros Hin. simpl. by rewrite Hin. Qed.

Lemma scan_break (b : LineBreak) (rest : string) (st : Csv.State) :
  Csv.inQuotes st = false ->
  (b = breakCR -> firstIs Csv.LF rest = false) ->
  Csv.scan (breakText b +:+ rest) st
  = Csv.scan rest (Csv.flushRow (Csv.flushField st)).
Proof.
  intros Hin Hrest.
  destruct b; unfold breakText, nl, cr;
    rewrite ?append_assoc, ?append_cons, ?append_nil; simpl; rewrite Hin; simpl.
  - by destruct rest.
  - destruct rest as [| next rest']; [done |].
    specialize (Hrest eq_refl). simpl in Hrest. by rewrite Hrest.
  - done.
Qed.

(** Whole fields. *)

Lemma scan_plain (f rest : string) (st : Csv.State) :
  plain f = true ->
  Csv.scan (f +:+ rest) st = Csv.scan rest (withField st f).
Proof.
  revert st. induction f as [| c f IH]; intros st Hf.
  - by rewrite append_nil, withField_empty.
  - simpl in Hf. apply andb_true_iff in Hf as [Hc Hf].
    rewrite append_cons, scan_plainChar by done. rewrite IH by done.
    by rewrite withField_append.
Qed.

Lemma scan_doubleQuotes (f rest : string) (st : Csv.State) :
  Csv.inQuotes st = true -> firstIs Csv.quote rest = false ->
  Csv.scan (doubleQuotes f +:+ String Csv.quote rest) st
  = Csv.scan rest (Csv.toggleQuotes (withField st f)).
Proof.
  revert st. induction f as [| c f IH]; intros st Hin Hrest.
  - simpl doubleQuotes. rewrite append_nil.
    rewrite scan_closing by done. by rewrite withField_empty.
  - simpl doubleQuotes. destruct (Ascii.eqb c Csv.quote) eqn:Hc.
    + apply Ascii.eqb_eq in Hc. subst c. rewrite !append_cons.
      rewrite scan_doubled by done. rewrite IH by done.
      by rewrite withField_append.
    + rewrite append_cons. rewrite scan_inside by done.
      rewrite IH by done. by rewrite withField_append.
Qed.

Lemma scan_quoted (f rest : string) (st : Csv.State) :
  Csv.inQuotes st = false -> firstIs Csv.quote rest = false ->
  Csv.scan (quoted f +:+ rest) st = Csv.scan rest (withField st f).
Proof.
  intros Hin Hrest. unfold quoted, dq.
  rewrite !append_assoc, !append_cons, !append_nil.
  rewrite scan_opening by done.
  rewrite scan_doubleQuotes; [| simpl; by rewrite Hin | done].
  f_equal. destruct st. unfold Csv.toggleQuotes, withField. simpl in *.
  by subst.
Qed.

Lemma scan_written_field (code : string -> string) (f rest : string)
    (st : Csv.State) :
  writesFields code ->
  Csv.inQuotes st = false -> firstIs Csv.quote rest = false ->
  Csv.scan (code f +:+ rest) st = Csv.scan rest (withField st f).
Proof.
  intros Hcode Hin Hrest. destruct (Hcode f) as [-> | [Hplain ->]].
  - by apply scan_quoted.
  - by apply scan_plain.
Qed.

(** Whole rows. *)

Lemma flush_written_field (st : Csv.State) (f : string) :
  Csv.field st = EmptyString ->
  Csv.flushField (withField st f)
  = {| Csv.row := (Csv.row st ++ [f])%list; Csv.field := EmptyString;
       Csv.inQuotes := Csv.inQuotes st; Csv.emitted := Csv.emitted st |}.
Proof.
  intros Hfield. unfold Csv.flushField, withField. simpl.
  by rewrite Hfield, append_nil.
Qed.

Lemma flushRow_last_field (st : Csv.State) (f : string) :
  Csv.field st = EmptyString ->
  Csv.flushRow (Csv.flushField (withField st f)) = withRow st [f].
Proof.
  intros Hfield. rewrite flush_written_field by done.
  unfold Csv.flushRow, withRow. simpl. rewrite length_app. simpl.
  by replace (0 <? length (Csv.row st) + 1)%nat with true
    by (symmetry; apply Nat.ltb_lt; lia).
Qed.

Lemma firstIs_quote_break (b : LineBreak) (rest : string) :
  firstIs Csv.quote (breakText b +:+ rest) = false.
Proof. by destruct b. Qed.

Lemma join_cons (sep x y : string) (l : list string) :
  JS.join sep (x :: y :: l) = x +:+ sep +:+ JS.join sep (y :: l).
Proof. reflexivity. Qed.

Lemma scan_written_fields (code : string -> string) (f : string)
    (fs : list string) (rest : string) (st : Csv.State) :
  writesFields code ->
  Csv.inQuotes st = false -> Csv.field st = EmptyString ->
  firstIs Csv.quote rest = false ->
  Csv.scan (JS.join "," (List.map code (f :: fs)) +:+ rest) st
  = Csv.scan rest
      (withField
         {| Csv.row := (Csv.row st ++ removelast (f :: fs))%list;
            Csv.field := EmptyString;
            Csv.inQuotes := false; Csv.emitted := Csv.emitted st |}
         (List.last (f :: fs) EmptyString)).
Proof.
  intros Hcode. revert f st.
  induction fs as [| g gs IH]; intros f st Hin Hfield Hrest.
  - simpl List.map. unfold JS.join. simpl String.concat.
    rewrite scan_written_field by done. f_equal.
    destruct st. unfold withField. simpl in *. subst.
    by rewrite app_nil_r.
  - change (List.map code (f :: g :: gs))
      with (code f :: code g :: List.map code gs).
    rewrite join_cons, !append_assoc.
    rewrite scan_written_field by done.
    change ("," +:+ JS.join "," (code g :: List.map code gs) +:+ rest)
      with (String Csv.comma
              (JS.join "," (List.map code (g :: gs)) +:+ rest)).
    rewrite scan_comma by done.
    rewrite flush_written_field by done.
    rewrite IH by done. simpl Csv.row. simpl Csv.emitted.
    f_equal. f_equal. f_equal.
    change (removelast (f :: g :: gs)) with (f :: removelast (g :: gs)).
    by rewrite <- app_assoc.
Qed.

Lemma scan_written_row (code : string -> string) (b : LineBreak)
    (fields : list string) (rest : string) (st : Csv.State) :
  writesFields code ->
  Csv.inQuotes st = false -> Csv.field st = EmptyString ->
  Csv.row st = [] -> fields <> [] ->
  (b = breakCR -> firstIs Csv.LF rest = false) ->
  Csv.scan (writeRow code b fields +:+ rest) st
  = Csv.scan rest (withRow st fields).
Proof.
  intros Hcode Hin Hfield Hrow Hne Hrest.
  destruct fields as [| f fs]; [done |].
  unfold writeRow. rewrite append_assoc.
  rewrite scan_written_fields by (done || apply firstIs_quote_break).
  rewrite scan_break by done.
  rewrite flushRow_last_field by done.
  f_equal. unfold withRow. cbn [Csv.row Csv.emitted Csv.inQuotes].
  rewrite Hrow, Hin.
  assert (Hsplit := @app_removelast_last _ (f :: fs) EmptyString Hne).
  rewrite !app_nil_l. by rewrite <- Hsplit.
Qed.

Lemma firstIs_LF_written (code : string -> string)
    (rows : list (list string)) :
  writesFields code -> Forall (fun row => row <> []) rows ->
  firstIs Csv.LF (writeRows code breakCR rows) = false.
Proof.
  intros Hcode Hrows. destruct rows as [| row rows]; [done |].
  inversion Hrows as [| ? ? Hrow _]; subst.
  destruct row as [| f fs]; [done |].
  simpl writeRows. unfold writeRow.
  destruct (Hcode f) as [Hq | [Hplain Hf]].
  - destruct fs; simpl List.map; [unfold JS.join; simpl String.concat |
                                   rewrite join_cons];
      rewrite Hq; unfold quoted, dq;
      by rewrite !append_assoc, !append_cons.
  - destruct f as [| c f].
    + destruct fs; simpl List.map; [unfold JS.join; simpl String.concat |
                                     rewrite join_cons];
        by rewrite Hf.
    + simpl in Hplain. apply andb_true_iff in Hplain as [Hc _].
      unfold plainChar in Hc. apply negb_true_iff in Hc.
      apply orb_false_iff in Hc as [Hc _].
      apply orb_false_iff in Hc as [_ Hlf].
      destruct fs; simpl List.map; [unfold JS.join; simpl String.concat |
                                     rewrite join_cons];
        rewrite Hf; by rewrite !append_cons.
Qed.

Lemma scan_written_rows (code : string -> string) (b : LineBreak)
    (rows : list (list string)) (rest : string) (st : Csv.State) :
  writesFields code ->
  Csv.inQuotes st = false -> Csv.field st = EmptyString -> Csv.row st = [] ->
  Forall (fun row => row <> []) rows ->
  (b = breakCR -> firstIs Csv.LF rest = false) ->
  Csv.scan (writeRows code b rows +:+ rest) st
  = Csv.scan rest
      {| Csv.row := []; Csv.field := EmptyString; Csv.inQuotes := false;
         Csv.emitted := (Csv.emitted st ++ rows)%list |}.
Proof.
  intros Hcode. revert st.
  induction rows as [| row rows IH]; intros st Hin Hfield Hrow Hrows Hrest.
  - simpl writeRows. rewrite append_nil. f_equal.
    destruct st. simpl in *. subst. by rewrite app_nil_r.
  - inversion Hrows as [| ? ? Hne Hrows']; subst.
    simpl writeRows. rewrite append_assoc.
    rewrite scan_written_row; try done.
    + rewrite IH; try done. simpl. rewrite Hrow. simpl.
      by rewrite <- app_assoc.
    + intros ->. destruct rows as [| row' rows'].
      * simpl writeRows. rewrite append_nil. by apply Hrest.
      * pose proof (firstIs_LF_written code (row' :: rows') Hcode Hrows') as Hfirst.
        destruct (writeRows code breakCR (row' :: rows')); [| done].
        simpl in Hfirst. rewrite append_nil. by apply Hrest.
Qed.

(** X1: text written row by row, each field between quotes (quotes
    inside doubled) or as it is when it holds no quote, comma or line
    break, each row ended by LF, by CR or by CR LF, is read back as the
    rows that were written, whatever bytes the fields hold. *)
Theorem csv_reads_back_written_rows (code : string -> string) (b : LineBreak)
    (rows : list (list string)) :
  writesFields code -> Forall (fun row => row <> []) rows ->
  Csv.forEachCsvRow (writeRows code b rows) = rows.
Proof.
  intros Hcode Hrows. unfold Csv.forEachCsvRow.
  rewrite <- (append_empty_r (writeRows code b rows)).
  rewrite (scan_written_rows code b rows EmptyString Csv.initial); try done.
Qed.

Lemma quoteWhenNeeded_writes : writesFields quoteWhenNeeded.
Proof.
  intros f. unfold quoteWhenNeeded.
  destruct (plain f) eqn:Hf; [by right | by left].
Qed.

Lemma quoted_writes : writesFields quoted.
Proof. intros f. by left. Qed.

(** A table with commas, quotes and a line break inside its fields,
    written with CR LF row ends, is read back as it was. *)
Lemma csv_reads_back_example :
  let rows := [ ["route_id"; "route_long_name"];
                ["91-1"; "Bern, Bahnhof - " +:+ dq +:+ "Zytglogge" +:+ dq];
                [""; "two" +:+ nl +:+ "lines"] ] in
  Csv.forEachCsvRow (writeRows quoteWhenNeeded breakCRLF rows) = rows.
Proof.
  intros rows.
  apply (csv_reads_back_written_rows quoteWhenNeeded breakCRLF rows).
  - apply quoteWhenNeeded_writes.
  - repeat constructor; discriminate.
Defined.

Lemma firstIs_append (c : ascii) (a b : string) :
  firstIs c (a +:+ b)
  = match a with EmptyString => firstIs c b | _ => firstIs c a end.
Proof. by destruct a. Qed.

Lemma firstIs_LF_written_fields (code : string -> string)
    (fields : list string) :
  writesFields code ->
  firstIs Csv.LF (JS.join "," (List.map code fields)) = false.
Proof.
  intros Hcode. destruct fields as [| f fs]; [done |].
  pose proof (firstIs_LF_written code [f :: fs] Hcode) as Hfirst.
  simpl writeRows in Hfirst. unfold writeRow in Hfirst.
  rewrite append_empty_r, firstIs_append in Hfirst.
  destruct (JS.join "," (List.map code (f :: fs))); [done |].
  apply Hfirst. by repeat constructor.
Qed.

(** X2: a last row without a line break at its end is read as a row
    too, with one exception: when it is a single empty field, nothing
    is read for it. *)
Theorem csv_reads_last_row_without_break (code : string -> string)
    (b : LineBreak) (rows : list (list string)) (final : list string) :
  writesFields code -> Forall (fun row => row <> []) rows -> final <> [] ->
  Csv.forEachCsvRow (writeRows code b rows +:+ JS.join "," (List.map code final))
  = match final with
    | [EmptyString] => rows
    | _ => (rows ++ [final])%list
    end.
Proof.
  intros Hcode Hrows Hfinal. unfold Csv.forEachCsvRow.
  rewrite (scan_written_rows code b rows _ Csv.initial); try done;
    [| intros _; by apply firstIs_LF_written_fields].
  destruct final as [| f fs]; [done |].
  rewrite <- (append_empty_r (JS.join "," (List.map code (f :: fs)))).
  rewrite scan_written_fields by done.
  destruct fs as [| g gs].
  - unfold withField, Csv.flushRow, Csv.flushField, Csv.initial. simpl.
    by destruct f.
  - assert (Hsplit := @app_removelast_last _ (f :: g :: gs) EmptyString Hfinal).
    remember (removelast (f :: g :: gs)) as front eqn:Hfront.
    remember (List.last (f :: g :: gs) EmptyString) as back eqn:Hback.
    assert (Hlen : (0 <? length front)%nat = true).
    { apply Nat.ltb_lt. rewrite Hfront. simpl. lia. }
    unfold withField, Csv.flushRow, Csv.flushField, Csv.initial.
    cbn [Csv.scan Csv.row Csv.emitted Csv.field Csv.inQuotes].
    rewrite !append_nil, !app_nil_l.
    rewrite Hlen, orb_true_r, length_app. cbn [length Csv.emitted].
    replace (0 <? length front + 1)%nat with true
      by (symmetry; apply Nat.ltb_lt; lia).
    rewrite <- Hsplit. by destruct f.
Qed.

(** A table whose last row lacks its line break. *)
Lemma csv_last_row_example :
  Csv.forEachCsvRow
    (writeRows quoteWhenNeeded breakLF [ ["trip_id"; "route_id"] ]
     +:+ JS.join "," (List.map quoteWhenNeeded ["T1"; "91-1"]))
  = [ ["trip_id"; "route_id"]; ["T1"; "91-1"] ].
Proof.
  apply (csv_reads_last_row_without_break quoteWhenNeeded breakLF
           [ ["trip_id"; "route_id"] ] ["T1"; "91-1"]).
  - apply quoteWhenNeeded_writes.
  - repeat constructor; discriminate.
  - discriminate.
Defined.

(** The loop keeps whatever its four updates keep. *)
Lemma scan_keeps (P : Csv.State -> Prop) :
  (forall st c, P st -> P (Csv.append st c)) ->
  (forall st, P st -> P (Csv.toggleQuotes st)) ->
  (forall st, P st -> P (Csv.flushField st)) ->
  (forall st, P st -> P (Csv.flushRow (Csv.flushField st))) ->
  forall content st, P st -> P (Csv.scan content st).
Proof.
  intros Happend Htoggle Hfield Hrow content.
  assert (Hgen : forall n content, (String.length content <= n)%nat ->
            forall st, P st -> P (Csv.scan content st)).
  { induction n as [| n IH]; intros text Hlen st Hst.
    - destruct text; [done | simpl in Hlen; lia].
    - destruct text as [| char rest]; [done |].
      simpl in Hlen. simpl.
      destruct (Ascii.eqb char Csv.quote).
      + destruct rest as [| next rest'].
        * by apply (IH EmptyString); [simpl; lia | apply Htoggle].
        * destruct (Csv.inQuotes st && Ascii.eqb next Csv.quote).
          -- apply IH; [simpl in Hlen; lia | by apply Happend].
          -- apply IH; [lia | by apply Htoggle].
      + destruct (Ascii.eqb char Csv.comma && negb (Csv.inQuotes st)).
        * apply IH; [lia | by apply Hfield].
        * destruct ((Ascii.eqb char Csv.LF || Ascii.eqb char Csv.CR)
                    && negb (Csv.inQuotes st)).
          -- destruct rest as [| next rest'].
             ++ by apply (IH EmptyString); [simpl; lia | apply Hrow].
             ++ destruct (Ascii.eqb char Csv.CR && Ascii.eqb next Csv.LF).
                ** apply IH; [simpl in Hlen; lia | by apply Hrow].
                ** apply IH; [lia | by apply Hrow].
          -- apply IH; [lia | by apply Happend]. }
  by apply (Hgen (String.length content)).
Qed.

(** X3: the callback is never handed a row without fields, whatever the
    text: every row the reader emits has at least one field. *)
Theorem csv_rows_have_a_field (content : string) :
  Forall (fun row => row <> []) (Csv.forEachCsvRow content).
Proof.
  unfold Csv.forEachCsvRow.
  assert (Hscan : Forall (fun row => row <> [])
                    (Csv.emitted (Csv.scan content Csv.initial))).
  { apply (scan_keeps (fun st => Forall (fun row => row <> []) (Csv.emitted st)));
      try done. apply flushRow_emitted. }
  destruct (_ || _); [by apply flushRow_emitted | done].
Qed.

Lemma scan_inside_quotes (s : string) (st : Csv.State) :
  Csv.inQuotes st = true -> hasNoQuote s = true ->
  Csv.scan s st = withField st s.
Proof.
  revert st. induction s as [| c s IH]; intros st Hin Hs.
  - by rewrite withField_empty.
  - unfold hasNoQuote in Hs. simpl in Hs.
    apply andb_true_iff in Hs as [Hc Hs]. apply negb_true_iff in Hc.
    rewrite scan_inside by done. rewrite IH by done.
    by rewrite withField_append.
Qed.

(** X4: a quote that is never closed runs to the end of the text:
    everything after it, commas and line breaks included, is one field
    of one last row (and no row at all when nothing follows it). *)
Theorem csv_unclosed_quote_runs_to_end (code : string -> string)
    (b : LineBreak) (rows : list (list string)) (tail_ : string) :
  writesFields code -> Forall (fun row => row <> []) rows ->
  hasNoQuote tail_ = true ->
  Csv.forEachCsvRow (writeRows code b rows +:+ dq +:+ tail_)
  = match tail_ with
    | EmptyString => rows
    | _ => (rows ++ [[tail_]])%list
    end.
Proof.
  intros Hcode Hrows Htail. unfold Csv.forEachCsvRow.
  rewrite (scan_written_rows code b rows _ Csv.initial); try done.
  unfold dq. rewrite append_cons, append_nil.
  rewrite scan_opening by done.
  rewrite scan_inside_quotes by done.
  unfold withField, Csv.toggleQuotes, Csv.flushRow, Csv.flushField, Csv.initial.
  cbn [Csv.row Csv.emitted Csv.field Csv.inQuotes].
  rewrite append_nil, app_nil_l.
  destruct tail_ as [| c t]; [done |].
  by cbn.
Qed.

(** After a header row, an opening quote without its partner swallows
    the rest of the table. *)
Lemma csv_unclosed_quote_example :
  Csv.forEachCsvRow
    (writeRows quoteWhenNeeded breakLF [ ["agency_id"; "agency_name"] ]
     +:+ dq +:+ ("11,SBB" +:+ nl +:+ "33,BLS" +:+ nl))
  = [ ["agency_id"; "agency_name"]; ["11,SBB" +:+ nl +:+ "33,BLS" +:+ nl] ].
Proof.
  apply (csv_unclosed_quote_runs_to_end quoteWhenNeeded breakLF
           [ ["agency_id"; "agency_name"] ]
           ("11,SBB" +:+ nl +:+ "33,BLS" +:+ nl)).
  - apply quoteWhenNeeded_writes.
  - repeat constructor; discriminate.
  - by vm_compute.
Defined.

End CsvRoundTrip.

(* ------------------------------------------------------------------ *)
(** ** Trimming twice *)
(* ------------------------------------------------------------------ *)

Section Trimming.

Lemma stripLeading_clean (view : list ascii -> list ascii) (fuel : nat)
    (bs : list ascii) (k : nat) :
  JS.isWhiteSpace (view []) = false ->
  (length bs <= fuel)%nat -> (1 <= k <= 3)%nat ->
  JS.isWhiteSpace (view (take k (JS.stripLeading view fuel bs))) = false.
Proof.
  intros Hview. revert bs. induction fuel as [|fuel IH]; intros bs Hlen Hk.
  - destruct bs; [|simpl in Hlen; lia]. simpl. by rewrite take_nil.
  - simpl.
    destruct (JS.isWhiteSpace (view (take 1 bs))) eqn:H1;
      [apply IH; [rewrite length_drop; lia | done]|].
    destruct (JS.isWhiteSpace (view (take 2 bs))) eqn:H2;
      [apply IH; [rewrite length_drop; lia | done]|].
    destruct (JS.isWhiteSpace (view (take 3 bs))) eqn:H3;
      [apply IH; [rewrite length_drop; lia | done]|].
    destruct k as [|[|[|[|k]]]]; try lia; done.
Qed.

Lemma stripLeading_fixed (view : list ascii -> list ascii) (fuel : nat)
    (bs : list ascii) :
  (forall k, (1 <= k <= 3)%nat -> JS.isWhiteSpace (view (take k bs)) = false) ->
  JS.stripLeading view fuel bs = bs.
Proof.
  intros Hclean. destruct fuel as [|fuel]; [done|]. simpl.
  by rewrite (Hclean 1%nat), (Hclean 2%nat), (Hclean 3%nat) by lia.
Qed.

Lemma stripLeading_drop (view : list ascii -> list ascii) (fuel : nat)
    (bs : list ascii) :
  exists n, JS.stripLeading view fuel bs = drop n bs.
Proof.
  revert bs. induction fuel as [|fuel IH]; intros bs; [by exists 0%nat|].
  simpl.
  destruct (JS.isWhiteSpace (view (take 1 bs)));
    [destruct (IH (drop 1 bs)) as [n ->]; rewrite drop_drop; by eexists|].
  destruct (JS.isWhiteSpace (view (take 2 bs)));
    [destruct (IH (drop 2 bs)) as [n ->]; rewrite drop_drop; by eexists|].
  destruct (JS.isWhiteSpace (view (take 3 bs)));
    [destruct (IH (drop 3 bs)) as [n ->]; rewrite drop_drop; by eexists|].
  by exists 0%nat.
Qed.

(** Trimming a trimmed string changes nothing. *)
Lemma trim_trim (s : string) : JS.trim (JS.trim s) = JS.trim s.
Proof.
  unfold JS.trim. rewrite list_ascii_of_string_of_list_ascii.
  set (bs := list_ascii_of_string s).
  set (front := JS.stripLeading (fun x => x) (length bs) bs).
  set (back := JS.stripLeading (@rev ascii) (length front) (rev front)).
  assert (Hfront : forall k, (1 <= k <= 3)%nat ->
            JS.isWhiteSpace (take k front) = false).
  { intros k Hk.
    by apply (stripLeading_clean (fun x => x) (length bs) bs k). }
  assert (Hback : forall k, (1 <= k <= 3)%nat ->
            JS.isWhiteSpace (rev (take k back)) = false).
  { intros k Hk. apply (stripLeading_clean (@rev ascii)); [done| |done].
    by rewrite length_rev. }
  destruct (stripLeading_drop (@rev ascii) (length front) (rev front))
    as [m Hm].
  fold back in Hm.
  assert (Hrev : rev back = take (length front - m) front).
  { rewrite Hm, skipn_rev. apply rev_involutive. }
  rewrite (stripLeading_fixed (fun x => x) _ (rev back)).
  - rewrite rev_involutive.
    by rewrite (stripLeading_fixed (@rev ascii) _ back).
  - intros k Hk. rewrite Hrev, take_take.
    destruct (Nat.min k (length front - m)) as [|j] eqn:Hmin; [done|].
    apply Hfront. lia.
Qed.

Lemma trim_nonEmpty_trimmed (cell s : string) :
  JS.nonEmpty (JS.trim cell) = Some s -> s <> "" /\ JS.trim s = s.
Proof.
  unfold JS.nonEmpty.
  destruct (String.eqb_spec (JS.trim cell) "") as [|Hne]; [done|].
  intros [= <-]. split; [done | apply trim_trim].
Qed.

End Trimming.

(* ------------------------------------------------------------------ *)
(** ** The trip, route and agency tables of the reference builder *)
(* ------------------------------------------------------------------ *)

Section BuilderTables.

Lemma fold_insert_list_to_map (pairs : list (string * string))
    (m : gmap string string) :
  fold_left (fun acc pair => <[fst pair := snd pair]> acc) pairs m
  = list_to_map (rev pairs) ∪ m.
Proof.
  revert m. induction pairs as [|[k v] pairs IH]; intros m; simpl.
  - by rewrite (left_id_L ∅ (∪)).
  - rewrite IH, list_to_map_app. simpl.
    rewrite <- (assoc_L (∪)). f_equal.
    by rewrite insert_empty, <- insert_union_singleton_l.
Qed.

Lemma trips_run_data (st : Trips.State) (n : nat) (rows : list (list string)) :
  Trips.trips (Trips.run st (S n) rows)
  = fold_left (fun acc pair => <[fst pair := snd pair]> acc)
      (List.filter tripKept
         (List.map (tripCells (Trips.idxTripId st) (Trips.idxRouteId st)) rows))
      (Trips.trips st).
Proof.
  revert st n. induction rows as [|row rows IH]; intros st n; [done|].
  cbn [Trips.run List.map List.filter].
  rewrite IH. unfold Trips.onRow, tripKept at 2, tripCells at 2.
  cbn [fst snd].
  destruct (String.eqb _ "" || String.eqb _ ""); by cbn.
Qed.

Lemma list_to_map_find (pairs : list (string * string)) (k : string) :
  (list_to_map pairs : gmap string string) !! k
  = snd <$> List.find (fun pair => String.eqb (fst pair) k) pairs.
Proof.
  induction pairs as [|[k' v] pairs IH]; [done|].
  cbn [list_to_map foldr List.find fst snd uncurry].
  destruct (String.eqb_spec k' k) as [->|Hne].
  - by rewrite lookup_insert_eq.
  - by rewrite lookup_insert_ne.
Qed.

Lemma parseTrips_pairs (tripsTxt : string) :
  Trips.parseTrips tripsTxt = list_to_map (rev (tripPairs tripsTxt)).
Proof.
  unfold Trips.parseTrips, tripPairs.
  destruct (Csv.forEachCsvRow tripsTxt) as [|header rows]; [done|].
  cbn [Trips.run]. rewrite trips_run_data, fold_insert_list_to_map.
  cbn [Trips.onRow Trips.trips Trips.idxTripId Trips.idxRouteId Trips.start].
  by rewrite (right_id_L ∅ (∪)).
Qed.

(** X5. The trip table maps a trip id to the route id of the last data
    row that names it: of the rows that have, after trimming, both a trip
    id and a route id, a later one replaces an earlier one with the same
    trip id, and a trip id no such row names is absent. *)
Theorem trips_last_row_wins (tripsTxt tripId : string) :
  Trips.parseTrips tripsTxt !! tripId
  = snd <$> List.find (fun pair => String.eqb (fst pair) tripId)
              (rev (tripPairs tripsTxt)).
Proof.
  rewrite parseTrips_pairs. apply list_to_map_find.
Qed.

Lemma parseTrips_trimmed (tripsTxt tripId routeId : string) :
  Trips.parseTrips tripsTxt !! tripId = Some routeId ->
  trimmed tripId /\ trimmed routeId.
Proof.
  rewrite parseTrips_pairs, list_to_map_find. intros Hfound.
  destruct (List.find _ _) as [[k v]|] eqn:Hfind; [|done].
  simpl in Hfound. injection Hfound as ->.
  apply find_some in Hfind as [Hin Hk].
  apply String.eqb_eq in Hk. simpl in Hk. subst k.
  apply in_rev in Hin. unfold tripPairs in Hin.
  destruct (Csv.forEachCsvRow tripsTxt) as [|header rows]; [done|].
  apply filter_In in Hin as [Hin Hkept].
  unfold tripKept in Hkept. cbn [fst snd] in Hkept.
  apply negb_true_iff, orb_false_iff in Hkept as [Ht Hr].
  apply String.eqb_neq in Ht, Hr.
  apply in_map_iff in Hin as (row & [= <- <-] & _).
  unfold trimmed. by rewrite !trim_trim.
Qed.

(** X6. The trip table never holds an empty trip id or an empty route
    id, and the ids it holds have no white space around them. *)
Theorem trips_ids_trimmed (tripsTxt tripId routeId : string) :
  Trips.parseTrips tripsTxt !! tripId = Some routeId ->
  trimmed tripId /\ trimmed routeId.
Proof. apply parseTrips_trimmed. Qed.

Lemma trips_ids_example :
  Trips.parseTrips tripsExample !! "T1" = Some "91-7"
  /\ trimmed "T1" /\ trimmed "91-7".
Proof.
  assert (Hlookup : Trips.parseTrips tripsExample !! "T1" = Some "91-7")
    by (by vm_compute).
  split; [exact Hlookup|].
  exact (trips_ids_trimmed tripsExample "T1" "91-7" Hlookup).
Defined.

Lemma trimmedCell_trimmed (row : list string) (idx : option nat) :
  presentTrimmed (Routes.trimmedCell row idx).
Proof.
  intros s. unfold Routes.trimmedCell.
  destruct (Agencies.at_ row idx) as [cell|]; [|done]. simpl.
  apply trim_nonEmpty_trimmed.
Qed.

Lemma routes_run_wellFormed (toNumber : string -> option Z)
    (st : Routes.State) (n : nat) (rows : list (list string)) :
  routesWellFormed (Routes.routes st) ->
  routesWellFormed (Routes.routes (Routes.run toNumber st n rows)).
Proof.
  revert st n. induction rows as [|row rows IH]; intros st n Hst; [done|].
  cbn [Routes.run]. apply IH. destruct n as [|n]; [done|].
  unfold Routes.onRow.
  destruct (String.eqb_spec (JS.trim (JS.or_str
    (Agencies.at_ row (Routes.idxRouteId st)) "")) "") as [|Hid]; [done|].
  cbn [Routes.routes]. intros routeId info.
  destruct (decide (routeId =
    JS.trim (JS.or_str (Agencies.at_ row (Routes.idxRouteId st)) "")))
    as [->|Hne].
  - rewrite lookup_insert_eq. intros [= <-].
    cbn [RouteInfo.shortName RouteInfo.longName RouteInfo.agencyId].
    split; [split; [done | apply trim_trim]|].
    split; [apply trimmedCell_trimmed|].
    split; apply trimmedCell_trimmed.
  - rewrite lookup_insert_ne by done. apply Hst.
Qed.

Lemma parseRoutes_wellFormed (toNumber : string -> option Z)
    (routesTxt : string) :
  routesWellFormed (Routes.parseRoutes toNumber routesTxt).
Proof.
  unfold Routes.parseRoutes. apply routes_run_wellFormed.
  intros routeId info. unfold Routes.start. cbn [Routes.routes].
  by rewrite lookup_empty.
Qed.

(** X7. In the route table every route id, and every short name, long
    name and agency id that a route has, is a non-empty string without
    white space around it, whatever the route file contains; a blank
    cell leaves the field absent. *)
Theorem routes_ids_and_names_trimmed (toNumber : string -> option Z)
    (routesTxt routeId : string) (info : RouteInfo.t) :
  Routes.parseRoutes toNumber routesTxt !! routeId = Some info ->
  trimmed routeId
  /\ presentTrimmed (RouteInfo.shortName info)
  /\ presentTrimmed (RouteInfo.longName info)
  /\ presentTrimmed (RouteInfo.agencyId info).
Proof. apply parseRoutes_wellFormed. Qed.

Lemma routes_names_example :
  trimmed "91-2"
  /\ presentTrimmed None
  /\ presentTrimmed (Some "Bern - Thun")
  /\ presentTrimmed (Some "11").
Proof.
  apply (routes_ids_and_names_trimmed digitsToNumber routesExample "91-2"
           {| RouteInfo.shortName := None;
              RouteInfo.longName := Some "Bern - Thun";
              RouteInfo.type := Some 106%Z;
              RouteInfo.agencyId := Some "11" |}).
  by vm_compute.
Defined.

Lemma shortNameIndex_fold (entries : list (string * RouteInfo.t))
    (index : gmap string string) (shortName : string) :
  (forall k v, index !! k = Some v -> k <> "" /\ v <> "") ->
  Forall (fun entry => fst entry <> "") entries ->
  fold_left Routes.addShortName entries index !! shortName
  = match index !! shortName with
    | Some routeId => Some routeId
    | None =>
        if String.eqb shortName "" then None
        else firstWithShortName shortName entries
    end.
Proof.
  revert index.
  induction entries as [|[routeId info] entries IH]; intros index Hindex Hids.
  - cbn. destruct (index !! shortName); [done|]. by destruct (String.eqb _ _).
  - apply Forall_cons in Hids as [Hid Hids]. cbn [fst] in Hid.
    cbn [fold_left]. unfold firstWithShortName. cbn [List.find snd].
    fold (firstWithShortName shortName entries).
    unfold Routes.addShortName at 2.
    destruct (RouteInfo.shortName info) as [name|] eqn:Hname;
      unfold JS.or_else, JS.truthy at 1.
    2: { by rewrite IH. }
    destruct (String.eqb_spec name "") as [->|Hnonempty]; cbn [negb].
    { rewrite IH by done. destruct (index !! shortName); [done|].
      rewrite (String.eqb_sym "" shortName).
      by destruct (String.eqb shortName ""). }
    destruct (index !! name) as [held|] eqn:Hheld; cbn [JS.truthy].
    + destruct (Hindex _ _ Hheld) as [_ Hv].
      apply String.eqb_neq in Hv. rewrite Hv. cbn [negb].
      rewrite IH by done.
      destruct (index !! shortName) eqn:Hs; [done|].
      destruct (String.eqb_spec name shortName) as [->|]; [congruence|done].
    + rewrite IH; [|
        intros k v; destruct (decide (k = name)) as [->|];
          [rewrite lookup_insert_eq; by intros [= <-]
          |rewrite lookup_insert_ne by done; apply Hindex] | done].
      destruct (String.eqb_spec name shortName) as [->|Hother].
      * rewrite lookup_insert_eq, Hheld.
        apply String.eqb_neq in Hnonempty. by rewrite Hnonempty.
      * by rewrite lookup_insert_ne.
Qed.

Lemma shortNameIndex_lookup (entries : list (string * RouteInfo.t))
    (shortName : string) :
  Forall (fun entry => fst entry <> "") entries ->
  Routes.shortNameIndex entries !! shortName
  = if String.eqb shortName "" then None
    else firstWithShortName shortName entries.
Proof.
  intros Hids. unfold Routes.shortNameIndex.
  rewrite shortNameIndex_fold; [by rewrite lookup_empty| |done].
  intros k v. by rewrite lookup_empty.
Qed.

(** X8. The short-name index maps a short name to the first route, in
    the order the routes are listed, that carries this short name; a short
    name no route carries, and the empty name, are absent.  Route ids are
    taken to be non-empty, as those of the route table are. *)
Theorem short_name_first_route_wins (entries : list (string * RouteInfo.t))
    (shortName : string) :
  Forall (fun entry => fst entry <> "") entries ->
  Routes.shortNameIndex entries !! shortName
  = if String.eqb shortName "" then None
    else firstWithShortName shortName entries.
Proof. apply shortNameIndex_lookup. Qed.

Lemma short_name_example :
  Routes.shortNameIndex routeEntriesExample !! "S1" = Some "91-1".
Proof.
  apply (short_name_first_route_wins routeEntriesExample "S1").
  repeat constructor; done.
Defined.

(** X9. Built from the route table, in whatever order its routes are
    listed, the short-name index is exact: a short name it holds leads to
    a route of the table that carries this short name, and every short
    name that a route of the table carries is held. *)
Theorem short_names_lead_to_their_routes (toNumber : string -> option Z)
    (routesTxt : string) (entries : list (string * RouteInfo.t))
    (shortName : string) :
  entries ≡ₚ map_to_list (Routes.parseRoutes toNumber routesTxt) ->
  (forall routeId,
     Routes.shortNameIndex entries !! shortName = Some routeId ->
     exists info,
       Routes.parseRoutes toNumber routesTxt !! routeId = Some info
       /\ RouteInfo.shortName info = Some shortName)
  /\ (forall routeId info,
       Routes.parseRoutes toNumber routesTxt !! routeId = Some info ->
       RouteInfo.shortName info = Some shortName ->
       is_Some (Routes.shortNameIndex entries !! shortName)).
Proof.
  intros Hentries.
  pose proof (parseRoutes_wellFormed toNumber routesTxt) as Hwf.
  assert (Hids : Forall (fun entry => fst entry <> "") entries).
  { apply Forall_forall. intros [routeId info] Hin. cbn [fst].
    rewrite Hentries in Hin. apply elem_of_map_to_list in Hin.
    by destruct (Hwf _ _ Hin) as [[Hid _] _]. }
  rewrite (shortNameIndex_lookup _ _ Hids). split.
  - intros routeId. destruct (String.eqb shortName ""); [done|].
    unfold firstWithShortName.
    destruct (List.find _ entries) as [[found info]|] eqn:Hfind; [|done].
    intros [= <-]. apply find_some in Hfind as [Hin Hname].
    cbn [snd] in Hname. exists info. split.
    + apply elem_of_map_to_list. rewrite <- Hentries.
      by apply list_elem_of_In.
    + destruct (RouteInfo.shortName info) as [s|]; [|done].
      apply String.eqb_eq in Hname. by subst.
  - intros routeId info Hroute Hname.
    destruct (Hwf _ _ Hroute) as (_ & Hshort & _).
    destruct (Hshort _ Hname) as [Hnonempty _].
    apply String.eqb_neq in Hnonempty as Hshort'.
    rewrite Hshort'. unfold firstWithShortName.
    destruct (List.find _ entries) as [entry|] eqn:Hfind; [by eexists|].
    apply elem_of_map_to_list in Hroute. rewrite <- Hentries in Hroute.
    apply list_elem_of_In in Hroute.
    pose proof (find_none _ _ Hfind _ Hroute) as Hnone.
    cbn [snd] in Hnone. rewrite Hname, String.eqb_refl in Hnone. done.
Qed.

Lemma short_names_example :
  exists info,
    Routes.parseRoutes digitsToNumber routesExample !! "91-1" = Some info
    /\ RouteInfo.shortName info = Some "S1".
Proof.
  assert (Hentries :
    routeEntriesExample
    ≡ₚ map_to_list (Routes.parseRoutes digitsToNumber routesExample)).
  { vm_compute. exact (Permutation_sym (Permutation_cons_append [_; _] _)). }
  apply (proj1 (short_names_lead_to_their_routes digitsToNumber routesExample
                  _ "S1" Hentries)).
  reflexivity.
Defined.

Lemma agencies_run_names (st : Agencies.State) (n : nat)
    (rows : list (list string)) :
  (forall id name, Agencies.agencies st !! id = Some name -> trimmed name) ->
  forall id name,
    Agencies.agencies (Agencies.run st n rows) !! id = Some name ->
    trimmed name.
Proof.
  revert st n. induction rows as [|row rows IH]; intros st n Hst; [done|].
  cbn [Agencies.run]. apply IH. destruct n as [|n]; [done|].
  unfold Agencies.onRow.
  destruct (String.eqb_spec (JS.trim (JS.or_str
    (Agencies.at_ row (Agencies.idxName st)) "")) "") as [|Hname]; [done|].
  cbn [Agencies.agencies]. intros id name.
  match goal with |- <[?k := _]> _ !! _ = _ -> _ =>
    destruct (decide (id = k)) as [->|Hne] end.
  - rewrite lookup_insert_eq. intros [= <-]. split; [done | apply trim_trim].
  - rewrite lookup_insert_ne by done. apply Hst.
Qed.

(** X10. Every name in the agency table is a non-empty string without
    white space around it, and a default agency id is given exactly when
    the table holds one agency, whose id it then is. *)
Theorem agency_names_and_default (agencyTxt : string) :
  let result := Agencies.parseAgencies agencyTxt in
  (forall id name,
     Agencies.agenciesOf result !! id = Some name -> trimmed name)
  /\ (forall id,
        Agencies.defaultAgencyId result = Some id
        <-> exists name, Agencies.agenciesOf result = {[ id := name ]}).
Proof.
  cbv zeta. unfold Agencies.parseAgencies.
  cbn [Agencies.agenciesOf Agencies.defaultAgencyId].
  set (table := Agencies.agencies _). split.
  - apply agencies_run_names. intros id name.
    unfold Agencies.start. cbn [Agencies.agencies]. by rewrite lookup_empty.
  - intros id. unfold Agencies.onlyKey. split.
    + destruct (map_to_list table) as [|[k v] [|second others]] eqn:Hlist;
        try done.
      intros [= <-]. exists v.
      by rewrite <- (list_to_map_to_list table), Hlist.
    + intros [name ->]. by rewrite map_to_list_singleton.
Qed.

End BuilderTables.

(* ------------------------------------------------------------------ *)
(** ** Resolving a line against a table *)
(* ------------------------------------------------------------------ *)

Section Resolving.

Lemma resolveLineInfo_source (q : LineQuery.t) (lookup : option GtfsLookup.t) :
  LineInfo.source (resolveLineInfo q lookup)
  = if JS.truthy (LineInfo.routeId (resolveLineInfo q lookup))
    then gtfs else fallback.
Proof.
  unfold resolveLineInfo. destruct lookup as [table|]; [|done]. cbv zeta.
  destruct (String.eqb _ ""); [done|].
  set (found := findRouteId table _).
  destruct (JS.or_else found None) as [routeId|] eqn:Hfound;
    cbn [LineInfo.source LineInfo.routeId];
    unfold JS.or_else in Hfound;
    destruct found as [r|]; cbn in Hfound |- *; try done;
    by destruct (String.eqb r "").
Qed.

Lemma resolveLineInfo_operator (q : LineQuery.t)
    (lookup : option GtfsLookup.t) :
  LineInfo.operator (resolveLineInfo q lookup)
  = match JS.or_else (LineInfo.routeId (resolveLineInfo q lookup)) None,
          lookup with
    | Some found, Some table =>
        let route := GtfsLookup.routes table !! found in
        match JS.or_else
                (JS.or_else (route ≫= RouteInfo.agencyId)
                   (GtfsLookup.defaultAgencyId table)) None with
        | Some a =>
            if JS.truthy (GtfsLookup.agencies table !! a)
            then GtfsLookup.agencies table !! a
            else LineQuery.operator q
        | None => LineQuery.operator q
        end
    | _, _ => LineQuery.operator q
    end.
Proof.
  rewrite resolveLineInfo_routeId. unfold resolveLineInfo.
  rewrite !or_str_trimmed.
  destruct lookup as [table|]; [|done]. cbv zeta.
  destruct (String.eqb _ ""); [done|].
  by destruct (JS.or_else (findRouteId table _) None).
Qed.

Lemma findRouteId_trip (table : GtfsLookup.t) (key routeId : string) :
  GtfsLookup.trips table !! key = Some routeId -> routeId <> "" ->
  findRouteId table key = Some routeId.
Proof.
  intros Htrip Hne. unfold findRouteId. rewrite Htrip.
  apply String.eqb_neq in Hne. cbn. rewrite ?Hne. cbn. rewrite ?Hne. cbn.
  by destruct (GtfsLookup.routeShortNameToId table).
Qed.

Lemma findRouteId_route (table : GtfsLookup.t) (key : string)
    (info : RouteInfo.t) :
  GtfsLookup.trips table !! key = None ->
  GtfsLookup.routes table !! key = Some info -> key <> "" ->
  findRouteId table key = Some key.
Proof.
  intros Htrip Hroute Hne. unfold findRouteId. rewrite Htrip, Hroute.
  apply String.eqb_neq in Hne.
  rewrite bool_decide_eq_true_2 by (by eexists).
  cbn. rewrite ?Hne. cbn. rewrite ?Hne. cbn.
  by destruct (GtfsLookup.routeShortNameToId table).
Qed.

Lemma findRouteId_shortName (table : GtfsLookup.t) (key : string)
    (index : gmap string string) :
  GtfsLookup.trips table !! key = None ->
  GtfsLookup.routes table !! key = None ->
  GtfsLookup.routeShortNameToId table = Some index ->
  findRouteId table key = JS.or_else (index !! key) None.
Proof.
  intros Htrip Hroute Hindex. unfold findRouteId.
  rewrite Htrip, Hroute, Hindex.
  rewrite bool_decide_eq_false_2 by (by intros [? ?]). done.
Qed.

Lemma or_else_nonEmpty (s : string) :
  s <> "" -> JS.or_else (Some s) None = Some s.
Proof.
  intros Hne. apply String.eqb_neq in Hne.
  unfold JS.or_else, JS.truthy. by rewrite Hne.
Qed.

Lemma routeDisplay_nameOf (info : RouteInfo.t) :
  presentTrimmed (RouteInfo.shortName info) ->
  routeDisplay (Some info) = nameOf info.
Proof.
  intros Hshort. unfold routeDisplay, nameOf, JS.or_else. cbn.
  destruct (RouteInfo.shortName info) as [name|]; [|done].
  destruct (Hshort name eq_refl) as [Hne _].
  apply String.eqb_neq in Hne. cbn. by rewrite Hne.
Qed.

(** What is shown once a route id has been found. *)
Lemma resolveLineInfo_found (q : LineQuery.t) (table : GtfsLookup.t)
    (routeId : string) :
  LineInfo.routeId (resolveLineInfo q (Some table)) = Some routeId ->
  routeId <> "" ->
  (forall info, GtfsLookup.routes table !! routeId = Some info ->
     presentTrimmed (RouteInfo.shortName info)
     /\ presentTrimmed (RouteInfo.longName info)) ->
  LineInfo.source (resolveLineInfo q (Some table)) = gtfs
  /\ LineInfo.lineDisplay (resolveLineInfo q (Some table))
     = match GtfsLookup.routes table !! routeId ≫= nameOf with
       | Some name => name
       | None => firstNonEmpty (fallbackDisplayOf q) (rawIdentifier q)
       end.
Proof.
  intros Hfound Hne Hnames. split.
  - rewrite resolveLineInfo_source, Hfound. cbn.
    apply String.eqb_neq in Hne. by rewrite Hne.
  - rewrite resolveLineInfo_lineDisplay. cbv zeta.
    rewrite Hfound, or_else_nonEmpty by done.
    destruct (GtfsLookup.routes table !! routeId) as [info|] eqn:Hroute;
      [|done].
    destruct (Hnames info eq_refl) as [Hshort Hlong].
    rewrite routeDisplay_nameOf by done. cbn [mbind option_bind].
    destruct (nameOf info) as [name|] eqn:Hname; [|done].
    assert (Htrimmed : trimmed name).
    { unfold nameOf in Hname.
      destruct (RouteInfo.shortName info) as [short|] eqn:Hs.
      - injection Hname as <-. by apply Hshort.
      - by apply Hlong. }
    destruct Htrimmed as [Hnonempty Htrim].
    apply String.eqb_neq in Hnonempty. unfold JS.truthy, JS.or_str.
    rewrite Hnonempty. cbn [negb]. by rewrite Htrim, Hnonempty.
Qed.

Lemma findRouteId_none (table : GtfsLookup.t) (key : string) :
  GtfsLookup.trips table !! key = None ->
  GtfsLookup.routes table !! key = None ->
  (forall index, GtfsLookup.routeShortNameToId table = Some index ->
     index !! key = None) ->
  findRouteId table key = None.
Proof.
  intros Htrip Hroute Hindex. unfold findRouteId. rewrite Htrip, Hroute.
  rewrite bool_decide_eq_false_2 by (by intros [? ?]).
  destruct (GtfsLookup.routeShortNameToId table) as [index|]; [|done].
  by rewrite (Hindex index eq_refl).
Qed.

(** X11. A table that knows nothing of the key changes nothing: when the
    key (the trimmed line id, else category and number) is neither a trip
    id, nor a route id, nor a short name of the table, the result is the
    one obtained without any table, with source fallback.  The key is
    not to be a property name that every object inherits, for which the
    engine's look-up finds the inherited member. *)
Theorem unknown_key_resolves_as_without_table (q : LineQuery.t)
    (table : GtfsLookup.t) :
  inherited (lookupKeyOf q) = false ->
  GtfsLookup.trips table !! lookupKeyOf q = None ->
  GtfsLookup.routes table !! lookupKeyOf q = None ->
  (forall index, GtfsLookup.routeShortNameToId table = Some index ->
     index !! lookupKeyOf q = None) ->
  resolveLineInfo q (Some table) = resolveLineInfo q None
  /\ LineInfo.source (resolveLineInfo q (Some table)) = fallback.
Proof.
  intros _ Htrip Hroute Hindex.
  pose proof (findRouteId_none table _ Htrip Hroute Hindex) as Hnone.
  unfold lookupKeyOf in Hnone. rewrite <- or_str_trimmed in Hnone.
  unfold resolveLineInfo. cbv zeta. rewrite Hnone.
  by destruct (String.eqb _ "").
Qed.

Lemma unknown_key_example :
  resolveLineInfo unknownLine (Some builtExample)
  = resolveLineInfo unknownLine None
  /\ LineInfo.source (resolveLineInfo unknownLine (Some builtExample))
     = fallback.
Proof.
  apply (unknown_key_resolves_as_without_table unknownLine builtExample).
  - by vm_compute.
  - by vm_compute.
  - by vm_compute.
  - intros index [= <-]. by vm_compute.
Defined.

Section Built.

Variable toNumber : string -> option Z.
Variables routesTxt tripsTxt agencyTxt : string.
Variable entries : list (string * RouteInfo.t).

Lemma built_names (routeId : string) (info : RouteInfo.t) :
  GtfsLookup.routes
    (builtLookup toNumber routesTxt tripsTxt agencyTxt entries) !! routeId
  = Some info ->
  presentTrimmed (RouteInfo.shortName info)
  /\ presentTrimmed (RouteInfo.longName info).
Proof.
  intros Hroute.
  by destruct (parseRoutes_wellFormed toNumber routesTxt _ _ Hroute)
    as (_ & Hshort & Hlong & _).
Qed.

Lemma built_routeId (q : LineQuery.t) :
  lookupKeyOf q <> "" ->
  LineInfo.routeId
    (resolveLineInfo q
       (Some (builtLookup toNumber routesTxt tripsTxt agencyTxt entries)))
  = findRouteId (builtLookup toNumber routesTxt tripsTxt agencyTxt entries)
      (lookupKeyOf q).
Proof.
  intros Hkey. rewrite resolveLineInfo_routeId. cbv zeta.
  fold (lookupKeyOf q). apply String.eqb_neq in Hkey. by rewrite Hkey.
Qed.

(** X12. Against the table built from the three files, a key (the
    trimmed line id, else category and number) that is a trip id of the
    trip file always resolves to that trip's route, with source gtfs,
    whatever else the key may name; the line is shown under the route's
    short name, else its long name, exactly as the route file gives it
    trimmed, and under category and number, else the line id, when the
    route has no name or is missing from the route file. *)
Theorem trip_resolves_to_its_route (q : LineQuery.t) (routeId : string) :
  Trips.parseTrips tripsTxt !! lookupKeyOf q = Some routeId ->
  let result :=
    resolveLineInfo q
      (Some (builtLookup toNumber routesTxt tripsTxt agencyTxt entries)) in
  LineInfo.routeId result = Some routeId
  /\ LineInfo.source result = gtfs
  /\ LineInfo.lineDisplay result
     = match Routes.parseRoutes toNumber routesTxt !! routeId ≫= nameOf with
       | Some name => name
       | None => firstNonEmpty (fallbackDisplayOf q) (rawIdentifier q)
       end.
Proof.
  intros Htrip result.
  destruct (parseTrips_trimmed _ _ _ Htrip) as [[Hkey _] [Hroute _]].
  assert (Hfound : LineInfo.routeId result = Some routeId).
  { unfold result. rewrite built_routeId by done.
    by apply findRouteId_trip. }
  split; [done|].
  apply (resolveLineInfo_found q _ routeId Hfound Hroute).
  intros info. apply built_names.
Qed.

(** X13. Against the built table, a key that is no trip id but a route
    id of the route file resolves to this route, with source gtfs, and
    the line is shown under the route's short name, else its long name,
    else under category and number, else the line id.  The key is not to
    be a property name that every object inherits. *)
Theorem route_id_resolves_to_itself (q : LineQuery.t) (info : RouteInfo.t) :
  inherited (lookupKeyOf q) = false ->
  Trips.parseTrips tripsTxt !! lookupKeyOf q = None ->
  Routes.parseRoutes toNumber routesTxt !! lookupKeyOf q = Some info ->
  let result :=
    resolveLineInfo q
      (Some (builtLookup toNumber routesTxt tripsTxt agencyTxt entries)) in
  LineInfo.routeId result = Some (lookupKeyOf q)
  /\ LineInfo.source result = gtfs
  /\ LineInfo.lineDisplay result
     = match nameOf info with
       | Some name => name
       | None => firstNonEmpty (fallbackDisplayOf q) (rawIdentifier q)
       end.
Proof.
  intros _ Htrip Hroute result.
  destruct (parseRoutes_wellFormed toNumber routesTxt _ _ Hroute)
    as ([Hkey _] & _).
  assert (Hfound : LineInfo.routeId result = Some (lookupKeyOf q)).
  { unfold result. rewrite built_routeId by done.
    by apply (findRouteId_route _ _ info). }
  split; [done|].
  destruct (resolveLineInfo_found q _ _ Hfound Hkey) as [Hsource Hdisplay].
  { intros info'. apply built_names. }
  split; [done|]. unfold result. rewrite Hdisplay.
  cbn [builtLookup GtfsLookup.routes]. by rewrite Hroute.
Qed.

(** X14. Against the built table, a key that is neither a trip id nor a
    route id but the short name of some route resolves to a route of the
    route file that carries this short name, with source gtfs, and the
    line is shown under exactly this short name.  The routes may be
    listed in any order; the key is not to be a property name that every
    object inherits. *)
Theorem short_name_resolves_to_a_route (q : LineQuery.t)
    (someRoute : string) (someInfo : RouteInfo.t) :
  entries ≡ₚ map_to_list (Routes.parseRoutes toNumber routesTxt) ->
  inherited (lookupKeyOf q) = false ->
  Trips.parseTrips tripsTxt !! lookupKeyOf q = None ->
  Routes.parseRoutes toNumber routesTxt !! lookupKeyOf q = None ->
  Routes.parseRoutes toNumber routesTxt !! someRoute = Some someInfo ->
  RouteInfo.shortName someInfo = Some (lookupKeyOf q) ->
  let result :=
    resolveLineInfo q
      (Some (builtLookup toNumber routesTxt tripsTxt agencyTxt entries)) in
  exists routeId info,
    Routes.parseRoutes toNumber routesTxt !! routeId = Some info
    /\ RouteInfo.shortName info = Some (lookupKeyOf q)
    /\ LineInfo.routeId result = Some routeId
    /\ LineInfo.source result = gtfs
    /\ LineInfo.lineDisplay result = lookupKeyOf q.
Proof.
  intros Hentries _ Htrip Hroute Hsome Hname result.
  pose proof (parseRoutes_wellFormed toNumber routesTxt) as Hwf.
  destruct (Hwf _ _ Hsome) as (_ & Hshort & _).
  destruct (Hshort _ Hname) as [Hkey _].
  assert (Hids : Forall (fun entry => fst entry <> "") entries).
  { apply Forall_forall. intros [routeId info] Hin. cbn [fst].
    rewrite Hentries in Hin. apply elem_of_map_to_list in Hin.
    by destruct (Hwf _ _ Hin) as [[Hid _] _]. }
  pose proof (shortNameIndex_lookup entries (lookupKeyOf q) Hids) as Hindex.
  apply String.eqb_neq in Hkey as Hkey'. rewrite Hkey' in Hindex.
  unfold firstWithShortName in Hindex.
  destruct (List.find _ entries) as [[routeId info]|] eqn:Hfind.
  2: { apply elem_of_map_to_list in Hsome. rewrite <- Hentries in Hsome.
       apply list_elem_of_In in Hsome.
       pose proof (find_none _ _ Hfind _ Hsome) as Hnone.
       cbn [snd] in Hnone. by rewrite Hname, String.eqb_refl in Hnone. }
  apply find_some in Hfind as [Hin Hcarries]. cbn [snd] in Hcarries.
  apply list_elem_of_In in Hin. rewrite Hentries in Hin.
  apply elem_of_map_to_list in Hin.
  destruct (RouteInfo.shortName info) as [short|] eqn:Hs; [|done].
  apply String.eqb_eq in Hcarries. subst short.
  destruct (Hwf _ _ Hin) as ([Hid _] & _).
  exists routeId, info. split; [done|]. split; [done|].
  assert (Hfound : LineInfo.routeId result = Some routeId).
  { unfold result. rewrite built_routeId by done.
    rewrite (findRouteId_shortName _ _ (Routes.shortNameIndex entries))
      by done.
    rewrite Hindex. cbn [fmap option_fmap option_map fst].
    by apply or_else_nonEmpty. }
  split; [done|].
  destruct (resolveLineInfo_found q _ _ Hfound Hid) as [Hsource Hdisplay].
  { intros info'. apply built_names. }
  split; [done|]. unfold result. rewrite Hdisplay.
  cbn [builtLookup GtfsLookup.routes]. rewrite Hin. cbn [mbind option_bind].
  unfold nameOf. by rewrite Hs.
Qed.

(** X15. Against the built table, once a route of the route file has
    been found, the operator of the result is the name the agency file
    gives to the route's agency, and, for a route without an agency id,
    the name of the only agency of the agency file if its id is not
    empty; the operator passed in is replaced.  The key is not to be a
    property name that every object inherits. *)
Theorem operator_is_the_agency_name (q : LineQuery.t) (routeId : string)
    (info : RouteInfo.t) (agency name : string) :
  let result :=
    resolveLineInfo q
      (Some (builtLookup toNumber routesTxt tripsTxt agencyTxt entries)) in
  inherited (lookupKeyOf q) = false ->
  LineInfo.routeId result = Some routeId ->
  Routes.parseRoutes toNumber routesTxt !! routeId = Some info ->
  (RouteInfo.agencyId info = Some agency
   /\ Agencies.agenciesOf (Agencies.parseAgencies agencyTxt) !! agency
      = Some name)
  \/ (RouteInfo.agencyId info = None /\ agency <> ""
      /\ Agencies.agenciesOf (Agencies.parseAgencies agencyTxt)
         = {[ agency := name ]}) ->
  LineInfo.operator result = Some name.
Proof.
  intros result _ Hfound Hroute Hagency.
  destruct (parseRoutes_wellFormed toNumber routesTxt _ _ Hroute)
    as ([Hid _] & _ & _ & Hagencies).
  assert (Hheld :
    Agencies.agenciesOf (Agencies.parseAgencies agencyTxt) !! agency
    = Some name).
  { destruct Hagency as [[_ Hheld]|(_ & _ & ->)]; [done|].
    apply lookup_singleton_eq. }
  assert (Hname : name <> "").
  { eapply (agencies_run_names Agencies.start 0); [|exact Hheld].
    intros id held. unfold Agencies.start. cbn [Agencies.agencies].
    by rewrite lookup_empty. }
  assert (Hagency' : agency <> "").
  { destruct Hagency as [[Hown _]|(_ & Hne & _)]; [|done].
    by destruct (Hagencies _ Hown). }
  unfold result. rewrite resolveLineInfo_operator. fold result.
  rewrite Hfound, or_else_nonEmpty by done.
  cbn [builtLookup GtfsLookup.routes GtfsLookup.agencies
       GtfsLookup.defaultAgencyId].
  cbv zeta. rewrite Hroute. cbn [mbind option_bind].
  assert (Hchosen :
    JS.or_else (RouteInfo.agencyId info)
      (Agencies.defaultAgencyId (Agencies.parseAgencies agencyTxt))
    = Some agency).
  { destruct Hagency as [[Hown _]|(Hnone & _ & Honly)].
    - rewrite Hown. unfold JS.or_else, JS.truthy.
      apply String.eqb_neq in Hagency'. by rewrite Hagency'.
    - rewrite Hnone. unfold JS.or_else. cbn [JS.truthy].
      unfold Agencies.parseAgencies in Honly |- *.
      cbn [Agencies.agenciesOf Agencies.defaultAgencyId] in Honly |- *.
      rewrite Honly. unfold Agencies.onlyKey.
      by rewrite map_to_list_singleton. }
  rewrite Hchosen, or_else_nonEmpty by done. rewrite Hheld.
  apply String.eqb_neq in Hname. unfold JS.truthy. by rewrite Hname.
Qed.

End Built.

(** X16. Whatever the table, the line is shown under an empty string
    only when the line id, the category and the number are all blank:
    the display string is empty exactly when the key (the trimmed line
    id, else category and number) is. *)
Theorem display_is_empty_only_without_key (q : LineQuery.t)
    (lookup : option GtfsLookup.t) :
  LineInfo.lineDisplay (resolveLineInfo q lookup) = ""
  <-> lookupKeyOf q = "".
Proof.
  rewrite resolveLineInfo_lineDisplay. cbv zeta.
  rewrite resolveLineInfo_routeId. fold (lookupKeyOf q). split.
  - intros Hdisplay.
    destruct (String.eqb_spec (lookupKeyOf q) "") as [|Hkey]; [done|].
    exfalso.
    assert (Hsome : firstNonEmpty (fallbackDisplayOf q) (rawIdentifier q) <> "").
    { intros Hempty. apply Hkey. unfold lookupKeyOf.
      apply String.eqb_eq, firstNonEmpty_is_empty in Hempty as [-> ->].
      done. }
    destruct lookup as [table|]; [|by destruct (JS.or_else None None)].
    cbv zeta in Hdisplay.
    destruct (JS.or_else _ None) as [found|]; [|done].
    destruct (JS.truthy (routeDisplay _)); [|done].
    destruct (String.eqb_spec (JS.trim (JS.or_str
      (routeDisplay (GtfsLookup.routes table !! found)) "")) ""); done.
  - intros Hkey. rewrite Hkey.
    unfold lookupKeyOf in Hkey.
    apply String.eqb_eq, firstNonEmpty_is_empty in Hkey as [Hraw Hjoined].
    rewrite Hraw, Hjoined.
    by destruct lookup.
Qed.

End Resolving.

Section ResolvingExamples.

Lemma trip_example :
  let result := resolveLineInfo byTrip (Some builtExample) in
  LineInfo.routeId result = Some "91-2"
  /\ LineInfo.source result = gtfs
  /\ LineInfo.lineDisplay result = "Bern - Thun".
Proof.
  apply (trip_resolves_to_its_route digitsToNumber routesExample tripsExample
           agenciesExample routeEntriesExample byTrip "91-2").
  by vm_compute.
Defined.

Lemma route_id_example :
  let result := resolveLineInfo byRouteId (Some builtExample) in
  LineInfo.routeId result = Some "91-7"
  /\ LineInfo.source result = gtfs
  /\ LineInfo.lineDisplay result = "S1".
Proof.
  apply (route_id_resolves_to_itself digitsToNumber routesExample tripsExample
           agenciesExample routeEntriesExample byRouteId
           {| RouteInfo.shortName := Some "S1"; RouteInfo.longName := None;
              RouteInfo.type := Some 109%Z;
              RouteInfo.agencyId := Some "33" |});
    by vm_compute.
Defined.

Lemma short_name_resolution_example :
  let result := resolveLineInfo byShortName (Some builtExample) in
  exists routeId info,
    Routes.parseRoutes digitsToNumber routesExample !! routeId = Some info
    /\ RouteInfo.shortName info = Some "S1"
    /\ LineInfo.routeId result = Some routeId
    /\ LineInfo.source result = gtfs
    /\ LineInfo.lineDisplay result = "S1".
Proof.
  apply (short_name_resolves_to_a_route digitsToNumber routesExample
           tripsExample agenciesExample routeEntriesExample byShortName "91-1"
           {| RouteInfo.shortName := Some "S1"; RouteInfo.longName := None;
              RouteInfo.type := Some 109%Z;
              RouteInfo.agencyId := Some "11" |}).
  - vm_compute. exact (Permutation_sym (Permutation_cons_append [_; _] _)).
  - by vm_compute.
  - by vm_compute.
  - by vm_compute.
  - by vm_compute.
  - by vm_compute.
Defined.

Lemma operator_example :
  LineInfo.operator (resolveLineInfo byTrip (Some builtExample))
  = Some "Schweizerische Bundesbahnen SBB".
Proof.
  apply (operator_is_the_agency_name digitsToNumber routesExample tripsExample
           agenciesExample routeEntriesExample byTrip "91-2"
           {| RouteInfo.shortName := None;
              RouteInfo.longName := Some "Bern - Thun";
              RouteInfo.type := Some 106%Z;
              RouteInfo.agencyId := Some "11" |}
           "11" "Schweizerische Bundesbahnen SBB").
  - by vm_compute.
  - by vm_compute.
  - by vm_compute.
  - left. split; by vm_compute.
Defined.

End ResolvingExamples.

(* ------------------------------------------------------------------ *)
(** ** Loading the table once *)
(* ------------------------------------------------------------------ *)

Section Loading.

Variable Table : Type.
Variable JSON_parse : string -> option Table.

Lemma calls_loaded (value : option Table) (disks : list LookupCache.Disk) :
  LookupCache.calls Table JSON_parse (LookupCache.loaded value) disks
  = List.map (fun _ => value) disks.
Proof.
  induction disks as [|disk later IH]; [done|].
  cbn [LookupCache.calls LookupCache.getGtfsLookup List.map]. by rewrite IH.
Qed.

(** X17. In a run of calls made one after the other, the file is looked
    at by the first call only: every later call gives what the first one
    gave, whatever has become of the file in the meantime.  A missing
    file, a failed read and a failed parse are remembered like a table:
    they give null for good. *)
Theorem table_is_loaded_once (first : LookupCache.Disk)
    (later : list LookupCache.Disk) :
  let value :=
    if LookupCache.found first
    then LookupCache.contents first ≫= JSON_parse
    else None in
  LookupCache.calls Table JSON_parse LookupCache.notLoaded (first :: later)
  = value :: List.map (fun _ => value) later.
Proof.
  cbv zeta. cbn [LookupCache.calls LookupCache.getGtfsLookup].
  destruct (LookupCache.found first); cbn [negb].
  - destruct (LookupCache.contents first ≫= JSON_parse) as [table|];
      by rewrite calls_loaded.
  - by rewrite calls_loaded.
Qed.

End Loading.

(* ------------------------------------------------------------------ *)
(** ** Alerts and totals of the metrics *)
(* ------------------------------------------------------------------ *)

Section MetricsInvariants.
Context `{Runtime}.
Local Open Scope Z_scope.

Lemma includes_elem_of (x : string) (l : list string) :
  includes x l = true <-> x ∈ l.
Proof.
  unfold includes. rewrite existsb_exists. split.
  - intros (y & Hin & Heq). apply String.eqb_eq in Heq. subst y.
    by apply list_elem_of_In.
  - intros Hin. exists x. split; [by apply list_elem_of_In|].
    apply String.eqb_refl.
Qed.

Lemma pushNew_elem_of (l : list string) (x y : string) :
  y ∈ pushNew l x <-> y ∈ l \/ y = x.
Proof.
  unfold pushNew. destruct (includes x l) eqn:Hin.
  - apply includes_elem_of in Hin. split; [by left|].
    by intros [?| ->].
  - rewrite elem_of_app, list_elem_of_singleton. done.
Qed.

Lemma pushNew_NoDup (l : list string) (x : string) :
  NoDup l -> NoDup (pushNew l x).
Proof.
  intros Hl. unfold pushNew. destruct (includes x l) eqn:Hin; [done|].
  apply NoDup_app. split; [done|]. split; [|apply NoDup_singleton].
  intros y Hy Hx. apply list_elem_of_singleton in Hx. subst y.
  apply includes_elem_of in Hy. congruence.
Qed.

Lemma pushNew_not_nil (l : list string) (x : string) : pushNew l x <> [].
Proof.
  unfold pushNew. destruct (includes x l) eqn:Hin.
  - apply includes_elem_of in Hin. intros ->. by apply not_elem_of_nil in Hin.
  - by destruct l.
Qed.

Lemma delaysOf_invariant (rideLegs : list Leg.t) (st : list string * Q) :
  NoDup (fst st) ->
  (fst st = [] /\ snd st = 0%Q) \/ (fst st <> [] /\ (0 < snd st)%Q) ->
  let st' := fold_left addDelay rideLegs st in
  NoDup (fst st')
  /\ ((fst st' = [] /\ snd st' = 0%Q) \/ (fst st' <> [] /\ (0 < snd st')%Q))
  /\ forall alert,
       alert ∈ fst st'
       <-> alert ∈ fst st
           \/ exists leg d,
                leg ∈ rideLegs /\ Leg.delayMinutes leg = Some d /\ (0 < d)%Q
                /\ alert = delayLabel leg d.
Proof.
  revert st. induction rideLegs as [|leg rideLegs IH];
    intros [alerts total] Hdistinct Htotal; cbn [fst snd] in *.
  - cbn. split; [done|]. split; [done|]. intros alert. split; [by left|].
    intros [?|(leg & d & Hin & _)]; [done|]. by apply not_elem_of_nil in Hin.
  - cbn [fold_left]. cbv zeta.
    destruct (Leg.delayMinutes leg) as [d|] eqn:Hdelay.
    1: destruct (JS.positive d) eqn:Hd.
    1: replace (addDelay (alerts, total) leg)
         with (pushNew alerts (delayLabel leg d), (total + d)%Q)
         by (unfold addDelay; by rewrite Hdelay, Hd).
    2, 3: replace (addDelay (alerts, total) leg) with (alerts, total)
         by (unfold addDelay; by rewrite Hdelay, ?Hd).
    + apply positive_lt in Hd.
      destruct (IH (pushNew alerts (delayLabel leg d), (total + d)%Q))
        as (Hnodup & Hiff & Helem); cbn [fst snd].
      { by apply pushNew_NoDup. }
      { right. split; [apply pushNew_not_nil |].
        destruct Htotal as [[_ ->] | [_ Hpos]]; lra. }
      split; [done|]. split; [done|]. intros alert. rewrite Helem.
      cbn [fst]. rewrite pushNew_elem_of. split.
      * intros [[?| ->]|(leg' & d' & Hin & ?)]; [by left| |].
        -- right. exists leg, d. split; [apply list_elem_of_here|done].
        -- right. exists leg', d'. split; [by apply list_elem_of_further|done].
      * intros [?|(leg' & d' & Hin & Hd' & Hpos & ->)]; [by left; left|].
        apply elem_of_cons in Hin as [->|Hin].
        -- left. right. congruence.
        -- right. by exists leg', d'.
    + destruct (IH (alerts, total)) as (Hnodup & Hiff & Helem); try done.
      split; [done|]. split; [done|]. intros alert. rewrite Helem. split.
      * intros [?|(leg' & d' & Hin & ?)]; [by left|].
        right. exists leg', d'. split; [by apply list_elem_of_further|done].
      * intros [?|(leg' & d' & Hin & Hd' & Hpos & ->)]; [by left|].
        apply elem_of_cons in Hin as [->|Hin].
        -- rewrite Hdelay in Hd'. injection Hd' as ->.
           apply positive_lt in Hpos. congruence.
        -- right. by exists leg', d'.
    + destruct (IH (alerts, total)) as (Hnodup & Hiff & Helem); try done.
      split; [done|]. split; [done|]. intros alert. rewrite Helem. split.
      * intros [?|(leg' & d' & Hin & ?)]; [by left|].
        right. exists leg', d'. split; [by apply list_elem_of_further|done].
      * intros [?|(leg' & d' & Hin & Hd' & Hpos & ->)]; [by left|].
        apply elem_of_cons in Hin as [->|Hin]; [congruence|].
        right. by exists leg', d'.
Qed.

Lemma hasBang_empty : hasBang "" = false.
Proof. reflexivity. Qed.

Lemma addPlatformChange_elem_of (changes : list string) (station : string)
    (platform : option string) (change : string) :
  change ∈ addPlatformChange changes station platform
  <-> change ∈ changes
      \/ exists p,
           platform = Some p /\ hasBang p = true
           /\ change = station +:+ " (Pl. " +:+ p +:+ ")".
Proof.
  unfold addPlatformChange. destruct platform as [p|].
  2: { split; [by left|]. by intros [?|(p & ? & _)]. }
  destruct (String.eqb_spec p "") as [->|Hp]; cbn [orb].
  { split; [by left|]. intros [?|(p & [= <-] & Hbang & _)]; [done|].
    by rewrite hasBang_empty in Hbang. }
  destruct (hasBang p) eqn:Hbang; cbn [negb].
  - rewrite pushNew_elem_of. split.
    + intros [?| ->]; [by left|]. right. by exists p.
    + intros [?|(p' & [= <-] & _ & ->)]; [by left|by right].
  - split; [by left|]. intros [?|(p' & [= <-] & Hbang' & _)]; [done|].
    congruence.
Qed.

Lemma addPlatformChange_NoDup (changes : list string) (station : string)
    (platform : option string) :
  NoDup changes -> NoDup (addPlatformChange changes station platform).
Proof.
  intros Hchanges. unfold addPlatformChange.
  destruct platform as [p|]; [|done].
  destruct (String.eqb p "" || negb (hasBang p)); [done|].
  by apply pushNew_NoDup.
Qed.

Lemma platformChanges_invariant (legs : list Leg.t) (changes : list string) :
  NoDup changes ->
  let changes' :=
    fold_left
      (fun changes leg =>
         let changes' :=
           addPlatformChange changes (Stop.name (Leg.from leg))
                             (Stop.platform (Leg.from leg)) in
         addPlatformChange changes' (Stop.name (Leg.to leg))
                           (Stop.platform (Leg.to leg)))
      legs changes in
  NoDup changes'
  /\ forall change,
       change ∈ changes'
       <-> change ∈ changes
           \/ exists leg stop p,
                leg ∈ legs /\ (stop = Leg.from leg \/ stop = Leg.to leg)
                /\ Stop.platform stop = Some p /\ hasBang p = true
                /\ change = Stop.name stop +:+ " (Pl. " +:+ p +:+ ")".
Proof.
  revert changes. induction legs as [|leg legs IH]; intros changes Hchanges.
  - cbn. split; [done|]. intros change. split; [by left|].
    intros [?|(leg & stop & p & Hin & _)]; [done|].
    by apply not_elem_of_nil in Hin.
  - cbn [fold_left]. cbv zeta.
    destruct (IH (addPlatformChange
                    (addPlatformChange changes (Stop.name (Leg.from leg))
                       (Stop.platform (Leg.from leg)))
                    (Stop.name (Leg.to leg)) (Stop.platform (Leg.to leg))))
      as [Hnodup Helem].
    { by do 2 apply addPlatformChange_NoDup. }
    split; [done|]. intros change. rewrite Helem.
    rewrite !addPlatformChange_elem_of. split.
    + intros [[[?|(p & Hp & Hbang & ->)]|(p & Hp & Hbang & ->)]
             |(leg' & stop & p & Hin & ?)].
      * by left.
      * right. exists leg, (Leg.from leg), p.
        split; [apply list_elem_of_here|]. split; [by left|done].
      * right. exists leg, (Leg.to leg), p.
        split; [apply list_elem_of_here|]. split; [by right|done].
      * right. exists leg', stop, p.
        split; [by apply list_elem_of_further|done].
    + intros [?|(leg' & stop & p & Hin & Hstop & Hp & Hbang & ->)];
        [by left; left; left|].
      apply elem_of_cons in Hin as [->|Hin].
      * left. destruct Hstop as [->| ->].
        -- left. right. by exists p.
        -- right. by exists p.
      * right. by exists leg', stop, p.
Qed.

(** X18. The alerts of a connection are exact and free of repetitions:
    no delay alert and no platform change is listed twice; the delay
    alerts are the labels of the ride legs with a positive delay and of
    no others, and there are none exactly when the delay total is 0; the
    platform changes are the labels of the stops, departure or arrival
    of any leg, whose platform carries an exclamation mark and of no
    others. *)
Theorem alerts_are_exact_and_distinct (legs : list Leg.t) :
  let m := buildMetrics legs in
  NoDup (Metrics.delayAlerts m)
  /\ NoDup (Metrics.platformChanges m)
  /\ (forall alert,
        alert ∈ Metrics.delayAlerts m
        <-> exists leg d,
              leg ∈ rideLegsOf legs /\ Leg.delayMinutes leg = Some d
              /\ (0 < d)%Q /\ alert = delayLabel leg d)
  /\ (forall change,
        change ∈ Metrics.platformChanges m
        <-> exists leg stop p,
              leg ∈ legs /\ (stop = Leg.from leg \/ stop = Leg.to leg)
              /\ Stop.platform stop = Some p /\ hasBang p = true
              /\ change = Stop.name stop +:+ " (Pl. " +:+ p +:+ ")")
  /\ (Metrics.delayAlerts m = [] <-> (Metrics.delayMinutesTotal m == 0)%Q).
Proof.
  cbv zeta.
  destruct (delaysOf_invariant (rideLegsOf legs) ([], 0%Q))
    as (Hnodup & Hempty & Helem); cbn [fst snd];
    [apply NoDup_nil_2 | by left |].
  destruct (platformChanges_invariant legs []) as [Hnodup' Helem'];
    [apply NoDup_nil_2|].
  unfold buildMetrics. fold (rideLegsOf legs). unfold delaysOf.
  destruct (fold_left addDelay (rideLegsOf legs) ([], 0%Q)) as [alerts total].
  cbn [fst snd] in *.
  cbn [Metrics.delayAlerts Metrics.platformChanges Metrics.delayMinutesTotal].
  split; [done|]. split; [done|]. split; [|split].
  - intros alert. rewrite Helem. split; [|by right].
    intros [Hnil|?]; [|done]. by apply not_elem_of_nil in Hnil.
  - intros change. unfold platformChangesOf.
    rewrite Helem'. split; [|by right].
    intros [Hnil|?]; [|done]. by apply not_elem_of_nil in Hnil.
  - destruct Hempty as [[-> ->] | [Hsome Hpos]]; [done |].
    split; [done |]. intros Hzero. rewrite Hzero in Hpos.
    by apply Qlt_irrefl in Hpos.
Qed.

Lemma sum_shift (l : list Z) (acc : Z) :
  fold_left Z.add l acc = acc + fold_left Z.add l 0.
Proof.
  revert acc. induction l as [|y l IH]; intros acc; cbn [fold_left]; [lia|].
  rewrite (IH (acc + y)), (IH (0 + y)). lia.
Qed.

Lemma sum_ge_elem (l : list Z) (x : Z) :
  Forall (fun w => 0 <= w) l -> x ∈ l -> x <= fold_left Z.add l 0.
Proof.
  induction l as [|y l IH]; intros Hl Hin.
  - by apply not_elem_of_nil in Hin.
  - apply Forall_cons in Hl as [Hy Hl]. cbn [fold_left].
    rewrite sum_shift. pose proof (sum_nonneg l 0 Hl) as Hsum.
    apply elem_of_cons in Hin as [->|Hin]; [lia|].
    specialize (IH Hl Hin). lia.
Qed.

(** X19. The totals of the metrics fit together: the exposure is the
    walking time plus the waiting time, so neither exceeds it, and the
    tightest transfer, when there is one, is at most the whole waiting
    time. *)
Theorem metrics_totals_fit_together (legs : list Leg.t) :
  let m := buildMetrics legs in
  Metrics.exposureMinutes m
  = Metrics.walkingMinutes m + Metrics.transferWaitMinutes m
  /\ Metrics.walkingMinutes m <= Metrics.exposureMinutes m
  /\ Metrics.transferWaitMinutes m <= Metrics.exposureMinutes m
  /\ (forall least,
        Metrics.minTransferMinutes m = Some least ->
        least <= Metrics.transferWaitMinutes m).
Proof.
  cbv zeta.
  pose proof (walkingMinutesOf_nonneg (List.filter isWalk legs)) as Hwalk.
  pose proof (transferWaitMinutesList_nonneg (rideLegsOf legs)) as Hwaits.
  pose proof (sum_nonneg _ 0 Hwaits) as Hsum.
  rewrite buildMetrics_minTransferMinutes.
  unfold buildMetrics. fold (rideLegsOf legs).
  destruct (delaysOf (rideLegsOf legs)) as [alerts total].
  cbn [Metrics.exposureMinutes Metrics.walkingMinutes
       Metrics.transferWaitMinutes].
  split; [done|]. split; [lia|]. split; [lia|].
  intros least Hleast.
  destruct (transferWaitMinutesList (rideLegsOf legs)) as [|w ws] eqn:Hlist;
    [done|].
  injection Hleast as <-.
  apply sum_ge_elem; [done|]. apply minOf_spec.
Qed.

End MetricsInvariants.

(* ------------------------------------------------------------------ *)
(** ** The range of the scores *)
(* ------------------------------------------------------------------ *)

Section ScoreRange.

Lemma isNaN_compare (a s : float) :
  JS.isNaN s = true -> PrimFloat.leb a s = false.
Proof.
  unfold JS.isNaN. rewrite FloatAxioms.eqb_spec, FloatAxioms.leb_spec.
  unfold SFeqb, SFleb. intros Hnan.
  destruct (SFcompare (Prim2SF s) (Prim2SF s)) as [c|] eqn:Hc.
  - pose proof (SFcompare_antisym _ _ _ Hc) as Hopp.
    rewrite Hc in Hopp. by destruct c.
  - apply SFcompare_None in Hc. assert (Hs : Prim2SF s = S754_nan) by tauto.
    rewrite Hs. by destruct (Prim2SF a).
Qed.

Lemma clamp_unit (value : float) :
  inUnitInterval (clamp value 0 1) \/ JS.isNaN (clamp value 0 1) = true.
Proof.
  unfold clamp, JS.Math_min.
  change (JS.isNaN 1) with false. cbn [orb].
  destruct (JS.isNaN value) eqn:Hnan; [by right|].
  assert (Hnum : PrimFloat.eqb value value = true).
  { unfold JS.isNaN in Hnan. by destruct (PrimFloat.eqb value value). }
  assert (Hcases :
    forall m, (m = 1%float \/ (m = value /\ PrimFloat.leb value 1 = true)) ->
      inUnitInterval (JS.Math_max 0 m)).
  { intros m [->|[-> Hle]]; [by vm_compute|].
    unfold JS.Math_max. change (JS.isNaN 0) with false. rewrite Hnan.
    cbn [orb].
    destruct (PrimFloat.ltb 0 value) eqn:Hpos.
    - split; [by apply flt_fle | done].
    - change (get_sign 0) with false.
      destruct (PrimFloat.ltb value 0); by vm_compute. }
  left. apply Hcases.
  destruct (PrimFloat.ltb 1 value) eqn:Habove; [by left|].
  assert (Hle : PrimFloat.leb value 1 = true).
  { destruct (PrimFloat.leb value 1) eqn:Hle; [done|].
    rewrite (not_fle_flt value 1 1 Hnum eq_refl Hle) in Habove. done. }
  right. change (get_sign 1) with false.
  by destruct (PrimFloat.ltb value 1).
Qed.

(** X20. The risk score and the normalized duration, transfer, walking
    and exposure scores are each a number between 0 and 1, or NaN when
    the inputs they are computed from give no number; a risk score that
    is NaN gives the level low. *)
Theorem scores_are_fractions (connection : Connection.t) (metrics : Metrics.t)
    (value min max : float) :
  let risk := computeRisk connection metrics in
  (inUnitInterval (Risk.score risk)
   \/ (JS.isNaN (Risk.score risk) = true /\ Risk.level risk = low))
  /\ (inUnitInterval (normalize value min max)
      \/ JS.isNaN (normalize value min max) = true).
Proof.
  cbv zeta. split.
  - rewrite computeRisk_level. cbv zeta.
    unfold computeRisk. cbn [Risk.score].
    match goal with |- context [clamp ?v 0 1] =>
      destruct (clamp_unit v) as [Hunit|Hnan] end; [by left|].
    right. split; [done|]. by rewrite !isNaN_compare.
  - unfold normalize. destruct (PrimFloat.leb max min).
    + left. by vm_compute.
    + apply clamp_unit.
Qed.

End ScoreRange.

(* ------------------------------------------------------------------ *)
(** ** The options of a summary *)
(* ------------------------------------------------------------------ *)

Section SummaryInvariants.
Context `{Runtime}.
Local Open Scope Z_scope.

Lemma Forall2_Permutation_l {A B} (R : A -> B -> Prop) (l l' : list A)
    (k : list B) :
  Forall2 R l k -> Permutation l l' ->
  exists k', Permutation k k' /\ Forall2 R l' k'.
Proof.
  intros Hall Hperm. revert k Hall.
  induction Hperm as [|x l l' Hperm IH|x y l|l l' l'' _ IH1 _ IH2];
    intros k Hall.
  - apply Forall2_nil_inv_l in Hall as ->. by exists [].
  - apply Forall2_cons_inv_l in Hall as (b & k0 & Hb & Hall & ->).
    destruct (IH _ Hall) as (k' & Hk & Hall').
    exists (b :: k'). split; [by constructor | by constructor].
  - apply Forall2_cons_inv_l in Hall as (b & k0 & Hb & Hall & ->).
    apply Forall2_cons_inv_l in Hall as (c & k1 & Hc & Hall & ->).
    exists (c :: b :: k1). split; [apply perm_swap | by repeat constructor].
  - destruct (IH1 _ Hall) as (k' & Hk & Hall').
    destruct (IH2 _ Hall') as (k'' & Hk' & Hall'').
    exists k''. split; [by etransitivity | done].
Qed.

Lemma Forall2_imap_l {A B C} (R : A -> C -> Prop) (R' : B -> C -> Prop)
    (f : nat -> A -> B) (l : list A) (k : list C) :
  (forall i a c, R a c -> R' (f i a) c) ->
  Forall2 R l k -> Forall2 R' (imap f l) k.
Proof.
  intros Hf Hall. revert f Hf.
  induction Hall as [|a c l k Hac Hall IH]; intros f Hf; [constructor|].
  cbn [imap]. constructor; [by apply Hf|]. apply IH. intros i. apply Hf.
Qed.

Lemma filter_submseteq {A} (p : A -> bool) (l : list A) :
  List.filter p l ⊆+ l.
Proof.
  induction l as [|x l IH]; [done|]. cbn [List.filter].
  destruct (p x); [by apply submseteq_skip | by apply submseteq_cons].
Qed.

Lemma filteredOf_cases (connections : list Connection.t)
    (context : Context.t) :
  fst (filteredOf connections context) = computedOf connections
  \/ exists limit,
       maxTransfersOf context = Some limit
       /\ fst (filteredOf connections context)
          = List.filter
              (fun item => Connection.transfersCount (fst item) <=? limit)
              (computedOf connections)
       /\ fst (filteredOf connections context) <> [].
Proof.
  unfold filteredOf. cbv zeta.
  destruct (maxTransfersOf context) as [limit|]; [|by left].
  match goal with |- context [List.filter ?p (computedOf connections)] =>
    destruct (List.filter p (computedOf connections)) as [|item kept]
      eqn:Hkept
  end; cbn [length Nat.eqb fst]; [by left|].
  right. exists limit. by rewrite Hkept.
Qed.

Lemma filteredOf_submseteq (connections : list Connection.t)
    (context : Context.t) :
  List.map fst (fst (filteredOf connections context)) ⊆+ connections.
Proof.
  destruct (filteredOf_cases connections context)
    as [->|(limit & _ & -> & _)].
  - by rewrite computedOf_fst.
  - rewrite (filter_computedOf
               (fun c => Connection.transfersCount c <=? limit)).
    apply filter_submseteq.
Qed.

Lemma filteredOf_metrics (connections : list Connection.t)
    (context : Context.t) (item : Computed) :
  item ∈ fst (filteredOf connections context) ->
  snd item = buildMetrics (Connection.legs (fst item)).
Proof.
  intros Hin.
  assert (Hcomputed : item ∈ computedOf connections).
  { destruct (filteredOf_cases connections context)
      as [Heq|(limit & _ & Heq & _)]; rewrite Heq in Hin; [done|].
    apply list_elem_of_In, filter_In in Hin as [Hin _].
    by apply list_elem_of_In. }
  unfold computedOf in Hcomputed.
  apply list_elem_of_In, in_map_iff in Hcomputed as (c & <- & _). done.
Qed.

Lemma filteredOf_not_nil (connections : list Connection.t)
    (context : Context.t) :
  connections <> [] -> fst (filteredOf connections context) <> [].
Proof.
  intros Hsome.
  destruct (filteredOf_cases connections context)
    as [->|(limit & _ & _ & Hne)]; [|done].
  unfold computedOf. by destruct connections.
Qed.

Lemma Forall2_imap_self {A B} (R : B -> A -> Prop) (f : nat -> A -> B)
    (l : list A) :
  (forall i a, a ∈ l -> R (f i a) a) -> Forall2 R (imap f l) l.
Proof.
  revert f. induction l as [|a l IH]; intros f Hf; [constructor|].
  cbn [imap]. constructor; [apply Hf, list_elem_of_here|].
  apply IH. intros i b Hb. by apply Hf, list_elem_of_further.
Qed.

Lemma Forall2_map_r {A B C} (R : A -> C -> Prop) (g : B -> C) (l : list A)
    (k : list B) :
  Forall2 (fun a b => R a (g b)) l k -> Forall2 R l (List.map g k).
Proof. induction 1; by constructor. Qed.

Lemma scoreOption_shows (context : Context.t) (bounds : Bounds.t) (i : nat)
    (item : Computed) (entry : Scored.t) :
  scoreOption context bounds i item = Some entry ->
  snd item = buildMetrics (Connection.legs (fst item)) ->
  shows context (Scored.option entry) (fst item).
Proof.
  destruct item as [connection metrics]. cbn [fst snd]. unfold scoreOption.
  destruct (leaveByTimeOf context connection); simpl; [| done].
  intros [= <-] ->. unfold shows. by repeat split.
Qed.

(** The ranked options, each beside the connection it was made from. *)
Lemma rankedOptions_shows (connections : list Connection.t)
    (context : Context.t) (options : list DecisionOption.t) :
  rankedOptions connections context = Some options ->
  exists ranked,
    Permutation (List.map fst (fst (filteredOf connections context))) ranked
    /\ Forall2 (shows context) options ranked.
Proof.
  unfold rankedOptions.
  destruct (optionsWithScore connections context) as [scored |] eqn:Hreturn;
    simpl; [| done].
  intros [= <-].
  set (filtered := fst (filteredOf connections context)).
  assert (Hscored :
    Forall2 (fun entry item => shows context (Scored.option entry) (fst item))
      scored filtered).
  { apply Forall2_same_length_lookup_2;
      [by apply optionsWithScore_length |].
    intros i entry item Hentry Hitem.
    destruct (optionsWithScore_lookup _ _ _ _ _ Hreturn Hentry)
      as (item' & Hitem' & Hoption).
    pose proof (eq_trans (eq_sym Hitem) Hitem') as Hsame.
    injection Hsame as <-.
    apply (scoreOption_shows _ _ _ _ _ Hoption).
    apply (filteredOf_metrics connections context).
    by apply list_elem_of_lookup_2 in Hitem. }
  destruct (Forall2_Permutation_l _ _ (sortByScore scored) _ Hscored)
    as (items & Hitems & Hsorted).
  { symmetry. apply sort_Permutation. }
  exists (List.map fst items). split; [by apply Permutation_map|].
  unfold relabelled.
  apply (Forall2_imap_l
           (fun entry c => shows context (Scored.option entry) c));
    [by intros i entry c Hshows | by apply Forall2_map_r].
Qed.

(** The composer's result for an empty list. *)
Lemma buildDecisionSummary_nil (context : Context.t) (summary : Summary.t) :
  buildDecisionSummary [] context = Some summary ->
  Summary.options summary = []
  /\ Summary.recommendedOptionId summary = None
  /\ Summary.constraintNote summary = None.
Proof. by intros [= <-]. Qed.

(** X21. In every run in which the composer returns a summary, every
    option of the summary shows one of the connections passed in, no
    connection twice: its identity, times, duration and transfer count
    are that connection's, its figures and alerts are the metrics of
    that connection's legs, and its risk and reasons are those computed
    for that connection; ranking changes nothing but rank and label.
    When no transfer limit is requested, every connection is shown, and
    no note is attached. *)
Theorem options_show_the_connections (connections : list Connection.t)
    (context : Context.t) (summary : Summary.t) :
  buildDecisionSummary connections context = Some summary ->
  exists ranked,
    ranked ⊆+ connections
    /\ Forall2 (shows context) (Summary.options summary) ranked
    /\ (Context.preferences context ≫= Preferences.maxTransfers = None ->
        ranked ≡ₚ connections /\ Summary.constraintNote summary = None).
Proof.
  intros Hsummary.
  destruct (decide (connections = [])) as [-> | Hsome].
  { destruct (buildDecisionSummary_nil _ _ Hsummary) as (-> & _ & ->).
    exists []. split; [done|]. split; [constructor|done]. }
  destruct (buildDecisionSummary_Some _ _ _ Hsome Hsummary)
    as (options & Hranked & -> & -> & _).
  destruct (rankedOptions_shows _ _ _ Hranked) as (ranked & Hperm & Hshows).
  exists ranked. split; [|split; [done|]].
  - rewrite <- Hperm. apply filteredOf_submseteq.
  - intros Hnone. rewrite <- Hperm. unfold filteredOf, maxTransfersOf.
    rewrite Hnone. cbn [fst snd]. by rewrite computedOf_fst.
Qed.

(** X22. In every run in which the composer returns a summary, the
    summary recommends its first option: without connections there are
    no options and no recommendation; otherwise there is a first option,
    it has rank 1 and the label Option A, the recommended id is its id,
    and that is the id of one of the connections. *)
Theorem first_option_is_recommended (connections : list Connection.t)
    (context : Context.t) (summary : Summary.t) :
  buildDecisionSummary connections context = Some summary ->
  match Summary.options summary with
  | [] => connections = [] /\ Summary.recommendedOptionId summary = None
  | first :: _ =>
      connections <> []
      /\ Summary.recommendedOptionId summary = Some (DecisionOption.id first)
      /\ DecisionOption.rank first = 1
      /\ DecisionOption.label first = "Option A"
      /\ DecisionOption.id first ∈ connectionIds connections
  end.
Proof.
  intros Hsummary.
  destruct (decide (connections = [])) as [-> | Hsome].
  { by destruct (buildDecisionSummary_nil _ _ Hsummary) as (-> & -> & _). }
  destruct (buildDecisionSummary_Some _ _ _ Hsome Hsummary)
    as (options & Hranked & -> & _ & -> & _).
  pose proof (rankedOptions_length _ _ _ Hranked) as Hlength.
  pose proof (filteredOf_not_nil connections context Hsome) as Hfiltered.
  destruct (rankedOptions_shows _ _ _ Hranked) as (ranked & Hperm & Hshows).
  assert (Hposition : forall o, options !! 0%nat = Some o ->
            DecisionOption.rank o = 1 /\ DecisionOption.label o = "Option A").
  { unfold rankedOptions in Hranked.
    destruct (optionsWithScore connections context) as [scored |];
      simpl in Hranked; [| done].
    injection Hranked as <-. intros o Ho.
    by apply relabelled_position in Ho. }
  destruct options as [|first rest].
  { by destruct (fst (filteredOf connections context)). }
  destruct (Hposition first eq_refl) as [Hrank Hlabel].
  split; [done|]. split; [done|]. split; [done|]. split; [done|].
  apply Forall2_cons_inv_l in Hshows as (shown & others & Hfirst & _ & ->).
  destruct Hfirst as [-> _].
  assert (Hin : shown ∈ connections).
  { eapply elem_of_submseteq; [apply list_elem_of_here|].
    rewrite <- Hperm. apply filteredOf_submseteq. }
  unfold connectionIds. apply list_elem_of_In, in_map.
  by apply list_elem_of_In.
Qed.

Lemma rankedOptions_Forall (P : DecisionOption.t -> Prop)
    (connections : list Connection.t) (context : Context.t)
    (options : list DecisionOption.t) :
  (forall bounds i item entry rank label,
     scoreOption context bounds i item = Some entry ->
     P (DecisionOption.withRankLabel (Scored.option entry) rank label)) ->
  rankedOptions connections context = Some options ->
  Forall P options.
Proof.
  intros HP Hranked. unfold rankedOptions in Hranked.
  destruct (optionsWithScore connections context) as [scored |] eqn:Hreturn;
    simpl in Hranked; [| done].
  injection Hranked as <-.
  apply Forall_forall. intros o Hin.
  apply list_elem_of_lookup in Hin as [i Hi].
  unfold relabelled in Hi. rewrite list_lookup_imap in Hi.
  destruct (sortByScore _ !! i) as [entry|] eqn:Hentry; [|done].
  injection Hi as <-.
  apply list_elem_of_lookup_2 in Hentry.
  unfold sortByScore in Hentry. rewrite sort_Permutation in Hentry.
  apply list_elem_of_lookup in Hentry as [j Hj].
  destruct (optionsWithScore_lookup _ _ _ _ _ Hreturn Hj)
    as (item & _ & Hoption).
  by apply (HP _ _ _ _ _ _ Hoption).
Qed.

(** X23. In every run in which the composer returns a summary, all
    options of the summary carry the same kind of timing advice: an
    arrival buffer exactly when the request is by arrival time and names
    a time, a leave-by time exactly when the request is by departure
    time with a departure buffer other than 0, hence never both; and an
    arrival buffer is never negative. *)
Theorem timing_advice_follows_the_request (connections : list Connection.t)
    (context : Context.t) (summary : Summary.t) :
  buildDecisionSummary connections context = Some summary ->
  Forall
    (fun o =>
       (is_Some (DecisionOption.arrivalBufferMinutes o)
        <-> Context.isArrivalTime context = true
            /\ Context.requestedTimeISO context <> "")
       /\ (is_Some (DecisionOption.suggestedLeaveByTime o)
           <-> Context.isArrivalTime context = false
               /\ exists buffer,
                    Context.departureBufferMinutes context = Some buffer
                    /\ buffer <> 0)
       /\ (DecisionOption.arrivalBufferMinutes o = None
           \/ DecisionOption.suggestedLeaveByTime o = None)
       /\ forall buffer,
            DecisionOption.arrivalBufferMinutes o = Some buffer ->
            0 <= buffer)
    (Summary.options summary).
Proof.
  intros Hsummary.
  destruct (decide (connections = [])) as [-> | Hsome].
  { destruct (buildDecisionSummary_nil _ _ Hsummary) as (-> & _).
    constructor. }
  destruct (buildDecisionSummary_Some _ _ _ Hsome Hsummary)
    as (options & Hranked & -> & _).
  refine (rankedOptions_Forall _ _ _ _ _ Hranked).
  intros bounds i [connection metrics] entry rank label.
  unfold scoreOption.
  destruct (leaveByTimeOf context connection) as [leaveBy |] eqn:Hleave;
    simpl; [| done].
  intros [= <-].
  cbn [Scored.option DecisionOption.withRankLabel
       DecisionOption.arrivalBufferMinutes
       DecisionOption.suggestedLeaveByTime].
  unfold leaveByTimeOf in Hleave.
  destruct (Context.isArrivalTime context); cbn [andb negb] in *.
  - assert (leaveBy = None) as ->
      by (destruct (Context.departureBufferMinutes context); congruence).
    destruct (String.eqb_spec (Context.requestedTimeISO context) "")
      as [Hnone|Hsome']; cbn [negb].
    + repeat split; try done; try (by intros [? ?]);
        try (by intros [_ ?]); try (by intros [? _]); by left.
    + repeat split; try done; try (by intros [? ?]);
        try (by intros [? _]); try (by right);
        intros buffer [= <-]; apply minutesBetween_nonneg.
  - destruct (Context.departureBufferMinutes context) as [b|].
    + destruct (Z.eqb_spec b 0) as [Hzero|Hb]; cbn [negb] in Hleave.
      * injection Hleave as <-.
        repeat split; try done; try (by intros [? ?]);
          try (by intros [? _]); try (by left).
        intros (_ & b' & Hb' & Hne). congruence.
      * destruct (subtractMinutes (Connection.departureTime connection) b)
          as [leave |]; simpl in Hleave; [| done].
        injection Hleave as <-.
        repeat split; try done; try (by intros [? ?]);
          try (by intros [? _]); try (by left).
        by exists b.
    + injection Hleave as <-.
      repeat split; try done; try (by intros [? ?]);
        try (by intros [? _]); try (by left);
        by intros (_ & b' & ? & _).
Qed.

End SummaryInvariants.

(* ------------------------------------------------------------------ *)
(** ** The widget's connections and the summary's options *)
(* ------------------------------------------------------------------ *)

Section WidgetAgreement.
Context `{Runtime}.
Local Open Scope Z_scope.

Lemma filteredOf_filteredConnections (connections : list Connection.t)
    (context : Context.t) :
  List.map fst (fst (filteredOf connections context))
  = filteredConnections connections
      (Context.preferences context ≫= Preferences.maxTransfers).
Proof.
  unfold filteredOf, filteredConnections, maxTransfersOf. cbv zeta.
  destruct (Context.preferences context ≫= Preferences.maxTransfers)
    as [requested|]; [|apply computedOf_fst].
  pose proof (filter_computedOf
                (fun c => Connection.transfersCount c
                          <=? Z.max 0 (Qfloor requested)) connections)
    as Hkept.
  cbv beta in Hkept. rewrite <- Hkept, length_map.
  match goal with |- context [List.filter ?p (computedOf connections)] =>
    destruct (List.filter p (computedOf connections)) as [|item kept]
  end; cbn [length Nat.eqb Nat.ltb Nat.leb fst]; [apply computedOf_fst|done].
Qed.

(** X24. The handler filters the connections a second time, for the
    widget, and the two agree: in every run in which the composer
    returns a summary, the connections the handler hands to the widget
    are, up to order, exactly those that the options of the decision
    summary show, one option for each, whatever the transfer limit. *)
Theorem widget_lists_what_the_summary_ranks
    (allConnections : list Connection.t) (context : Context.t)
    (summary : Summary.t) :
  buildDecisionSummary allConnections context = Some summary ->
  exists ranked,
    ranked
    ≡ₚ filteredConnections allConnections
         (Context.preferences context ≫= Preferences.maxTransfers)
    /\ Forall2 (shows context) (Summary.options summary) ranked.
Proof.
  intros Hsummary.
  destruct (decide (allConnections = [])) as [-> | Hsome].
  { destruct (buildDecisionSummary_nil _ _ Hsummary) as (-> & _).
    exists []. split; [|constructor].
    unfold filteredConnections.
    by destruct (Context.preferences context ≫= Preferences.maxTransfers). }
  destruct (buildDecisionSummary_Some _ _ _ Hsome Hsummary)
    as (options & Hranked & -> & _).
  destruct (rankedOptions_shows _ _ _ Hranked) as (ranked & Hperm & Hshows).
  exists ranked. split; [|done].
  by rewrite <- Hperm, filteredOf_filteredConnections.
Qed.

End WidgetAgreement.

Section SummaryExamples.
Local Existing Instance UtcHost.host.
Local Open Scope Z_scope.

(** Asked to leave five minutes ahead, the composer returns a summary
    that shows both connections. *)
Lemma options_show_example :
  let connections := [RankingData.rainLater; RankingData.direct] in
  let context := leaveAhead 5 in
  exists summary ranked,
    buildDecisionSummary connections context = Some summary
    /\ ranked ≡ₚ connections
    /\ Forall2 (shows context) (Summary.options summary) ranked.
Proof.
  intros connections context.
  destruct (buildDecisionSummary connections context) as [summary |]
    eqn:Hsummary; [| by vm_compute in Hsummary].
  destruct (options_show_the_connections connections context summary Hsummary)
    as (ranked & _ & Hshows & Hall).
  exists summary, ranked. split; [done |].
  split; [by apply Hall | done].
Defined.

(** The same run recommends its first option. *)
Lemma first_option_example :
  let connections := [RankingData.rainLater; RankingData.direct] in
  let context := leaveAhead 5 in
  exists summary first rest,
    buildDecisionSummary connections context = Some summary
    /\ Summary.options summary = first :: rest
    /\ Summary.recommendedOptionId summary = Some (DecisionOption.id first)
    /\ DecisionOption.rank first = 1
    /\ DecisionOption.label first = "Option A".
Proof.
  intros connections context.
  destruct (buildDecisionSummary connections context) as [summary |]
    eqn:Hsummary; [| by vm_compute in Hsummary].
  pose proof (first_option_is_recommended connections context summary Hsummary)
    as Hfirst.
  destruct (Summary.options summary) as [| first rest] eqn:Hoptions.
  { by destruct Hfirst as [Hnil _]. }
  destruct Hfirst as (_ & Hid & Hrank & Hlabel & _).
  by exists summary, first, rest.
Defined.

(** A request by arrival time gives every option an arrival buffer and
    no leave-by time, whatever the departure buffer. *)
Lemma timing_advice_example :
  let connections := [RankingData.rainLater; RankingData.direct] in
  let context := arriveBy "2024-03-01T10:30:00Z" in
  exists summary,
    buildDecisionSummary connections context = Some summary
    /\ Forall
         (fun o =>
            is_Some (DecisionOption.arrivalBufferMinutes o)
            /\ DecisionOption.suggestedLeaveByTime o = None)
         (Summary.options summary).
Proof.
  intros connections context.
  destruct (buildDecisionSummary connections context) as [summary |]
    eqn:Hsummary; [| by vm_compute in Hsummary].
  exists summary. split; [done |].
  eapply Forall_impl;
    [apply (timing_advice_follows_the_request connections context summary
              Hsummary) |].
  intros o (Harrival & _ & Hone & _).
  assert (Hsome : is_Some (DecisionOption.arrivalBufferMinutes o))
    by (by apply Harrival).
  split; [done |].
  destruct Hone as [Hnone | Hnone]; [| done].
  rewrite Hnone in Hsome. by destruct Hsome.
Defined.

(** With a limit of one transfer the widget is handed the direct
    connection, and the summary shows that one. *)
Lemma widget_example :
  let connections := [RankingData.rainLater; RankingData.direct] in
  let context := RankingData.request (Some 1%Q) false in
  exists summary ranked,
    buildDecisionSummary connections context = Some summary
    /\ ranked ≡ₚ [RankingData.direct]
    /\ Forall2 (shows context) (Summary.options summary) ranked.
Proof.
  intros connections context.
  destruct (buildDecisionSummary connections context) as [summary |]
    eqn:Hsummary; [| by vm_compute in Hsummary].
  destruct (widget_lists_what_the_summary_ranks connections context summary
              Hsummary)
    as (ranked & Hperm & Hshows).
  by exists summary, ranked.
Defined.

(** A departure buffer of 2e11 minutes takes the leave-by date out of
    the range of time values: the composer throws. *)
Lemma far_buffer_throws :
  buildDecisionSummary [RankingData.direct] (leaveAhead 200000000000) = None.
Proof. by vm_compute. Qed.

End SummaryExamples.

(* ------------------------------------------------------------------ *)
(** ** Connection ids *)
(* ------------------------------------------------------------------ *)

Section ConnectionIdFacts.

Lemma replaceUnsafe_chars (s : string) :
  Forall (fun c => idChar c = true \/ c = "_"%char)
    (list_ascii_of_string (replaceUnsafe s)).
Proof.
  induction s as [|c rest IH]; [constructor|]. cbn [replaceUnsafe].
  unfold underscore.
  destruct (idChar c) eqn:Hc; [constructor; [by left|done]|].
  repeat match goal with |- context [if ?b then _ else _] => destruct b end;
    rewrite ?append_cons, ?append_nil; cbn [list_ascii_of_string];
    repeat (constructor; [by right|]); done.
Qed.

Lemma replaceUnsafe_fixed (s : string) :
  Forall (fun c => idChar c = true \/ c = "_"%char) (list_ascii_of_string s) ->
  replaceUnsafe s = s.
Proof.
  induction s as [|c rest IH]; [done|]. cbn [list_ascii_of_string].
  intros Hall. apply Forall_cons in Hall as [Hc Hrest].
  cbn [replaceUnsafe]. rewrite (IH Hrest).
  destruct Hc as [Hc| ->]; [by rewrite Hc|]. reflexivity.
Qed.

(** X25. A connection id consists of ASCII letters, digits, hyphens and
    underscores only, whatever the departure time and the journey names
    contain, and replacing once more would change nothing. *)
Theorem connection_ids_are_plain (conn : Transport.Connection) :
  Forall (fun c => idChar c = true \/ c = "_"%char)
    (list_ascii_of_string (generateConnectionId conn))
  /\ replaceUnsafe (generateConnectionId conn) = generateConnectionId conn.
Proof.
  split; [apply replaceUnsafe_chars|].
  apply replaceUnsafe_fixed, replaceUnsafe_chars.
Qed.

End ConnectionIdFacts.

(* ------------------------------------------------------------------ *)
(** ** Durations *)
(* ------------------------------------------------------------------ *)

Section DurationFacts.
Local Open Scope Z_scope.

Lemma digitValue_nonneg (c : ascii) : isDigit c = true -> 0 <= digitValue c.
Proof.
  unfold isDigit, digitValue. intros Hc.
  apply andb_true_iff in Hc as [Hlow _]. apply Nat.leb_le in Hlow. lia.
Qed.

Lemma parseIntDigits_nonneg (cs : list ascii) :
  forallb isDigit cs = true -> 0 <= parseIntDigits cs.
Proof.
  unfold parseIntDigits.
  assert (Hgen : forall acc, 0 <= acc -> forallb isDigit cs = true ->
            0 <= fold_left (fun acc c => 10 * acc + digitValue c) cs acc).
  { induction cs as [|c cs IH]; intros acc Hacc Hall; [done|].
    cbn [forallb] in Hall. apply andb_true_iff in Hall as [Hc Hall].
    cbn [fold_left]. apply IH; [|done].
    pose proof (digitValue_nonneg c Hc). lia. }
  by apply Hgen.
Qed.

Lemma digitRun_digits (cs : list ascii) :
  forallb isDigit (fst (digitRun cs)) = true.
Proof.
  induction cs as [|c cs IH]; [done|]. cbn [digitRun].
  destruct (isDigit c) eqn:Hc; [|done].
  destruct (digitRun cs) as [run rest]. cbn [fst forallb] in *.
  by rewrite Hc, IH.
Qed.

Lemma clockAt_digits (cs hours minutes : list ascii) :
  clockAt cs = Some (hours, minutes) ->
  forallb isDigit hours = true /\ forallb isDigit minutes = true.
Proof.
  unfold clockAt.
  destruct cs as [|h1 [|h2 [|c1 [|m1 [|m2 [|c2 [|s1 [|s2 rest]]]]]]]];
    try done.
  destruct (isDigit h1) eqn:Hh1; [|done].
  destruct (isDigit h2) eqn:Hh2; [|done].
  destruct (Ascii.eqb c1 colon); [|done].
  destruct (isDigit m1) eqn:Hm1; [|done].
  destruct (isDigit m2) eqn:Hm2; [|done].
  cbn [andb]. destruct (Ascii.eqb c2 colon && isDigit s1 && isDigit s2);
    [|done].
  intros [= <- <-]. cbn [forallb]. by rewrite Hh1, Hh2, Hm1, Hm2.
Qed.

Lemma matchAt_digits (cs : list ascii) (days : option (list ascii))
    (hours minutes : list ascii) :
  matchAt cs = Some (days, hours, minutes) ->
  forallb isDigit (default ["0"%char] days) = true
  /\ forallb isDigit hours = true /\ forallb isDigit minutes = true.
Proof.
  unfold matchAt. pose proof (digitRun_digits cs) as Hrun.
  destruct (digitRun cs) as [run rest]. cbn [fst] in Hrun.
  assert (Hplain :
    match clockAt cs with
    | Some (hours0, minutes0) => Some (None, hours0, minutes0)
    | None => None
    end = Some (days, hours, minutes) ->
    forallb isDigit (default ["0"%char] days) = true
    /\ forallb isDigit hours = true /\ forallb isDigit minutes = true).
  { destruct (clockAt cs) as [[hours' minutes']|] eqn:Hclock; [|done].
    intros [= <- <- <-]. split; [done|]. by apply (clockAt_digits cs). }
  destruct run as [|r run]; [done|]. destruct rest as [|d rest]; [done|].
  destruct (Ascii.eqb d "d"); [|done].
  destruct (clockAt rest) as [[hours' minutes']|] eqn:Hclock; [|done].
  intros [= <- <- <-]. split; [done|]. by apply (clockAt_digits rest).
Qed.

Lemma search_digits (cs : list ascii) (days : option (list ascii))
    (hours minutes : list ascii) :
  search cs = Some (days, hours, minutes) ->
  forallb isDigit (default ["0"%char] days) = true
  /\ forallb isDigit hours = true /\ forallb isDigit minutes = true.
Proof.
  induction cs as [|c cs IH]; cbn [search].
  - destruct (matchAt []) as [[[d h] m]|] eqn:Hmatch; [|done].
    intros [= <- <- <-]. by apply (matchAt_digits []).
  - destruct (matchAt (c :: cs)) as [[[d h] m]|] eqn:Hmatch; [|done].
    intros [= <- <- <-]. by apply (matchAt_digits (c :: cs)).
Qed.

Lemma clockAt_colon (cs : list ascii) :
  Forall (fun c => c <> colon) cs -> clockAt cs = None.
Proof.
  unfold clockAt. intros Hall.
  destruct cs as [|h1 [|h2 [|c1 [|m1 [|m2 [|c2 [|s1 [|s2 rest]]]]]]]];
    try done.
  apply Forall_cons in Hall as [_ Hall].
  apply Forall_cons in Hall as [_ Hall].
  apply Forall_cons in Hall as [Hc1 _].
  apply Ascii.eqb_neq in Hc1. rewrite Hc1.
  by rewrite !andb_false_r.
Qed.

Lemma digitRun_rest (cs : list ascii) :
  exists n, snd (digitRun cs) = drop n cs.
Proof.
  induction cs as [|c cs [n IH]]; [by exists 0%nat|]. cbn [digitRun].
  destruct (isDigit c); [|by exists 0%nat].
  destruct (digitRun cs) as [run rest]. cbn [snd] in *. by exists (S n).
Qed.

Lemma matchAt_colon (cs : list ascii) :
  Forall (fun c => c <> colon) cs -> matchAt cs = None.
Proof.
  intros Hall. unfold matchAt.
  destruct (digitRun_rest cs) as [n Hrest].
  destruct (digitRun cs) as [run rest]. cbn [snd] in Hrest.
  rewrite (clockAt_colon cs Hall).
  destruct run as [|r run]; [done|]. destruct rest as [|d rest]; [done|].
  destruct (Ascii.eqb d "d"); [|done].
  rewrite clockAt_colon; [done|].
  assert (Hdrop : Forall (fun c => c <> colon) (drop n cs))
    by (by apply Forall_drop).
  rewrite <- Hrest in Hdrop. by apply Forall_cons in Hdrop as [_ ?].
Qed.

Lemma search_colon (cs : list ascii) :
  Forall (fun c => c <> colon) cs -> search cs = None.
Proof.
  induction cs as [|c cs IH]; intros Hall; cbn [search];
    rewrite (matchAt_colon _ Hall); [done|].
  apply Forall_cons in Hall as [_ Hall]. by apply IH.
Qed.

(** X26. A duration is never negative, whatever the text: it is 0 when
    the text is absent or empty, and 0 when it holds no colon, so that
    no clock can be found in it. *)
Theorem durations_are_not_negative (duration : option string) :
  0 <= parseDuration duration
  /\ parseDuration None = 0
  /\ parseDuration (Some "") = 0
  /\ (forall text,
        duration = Some text ->
        Forall (fun c => c <> colon) (list_ascii_of_string text) ->
        parseDuration duration = 0).
Proof.
  split; [|split; [done|split; [done|]]].
  - unfold parseDuration.
    destruct (JS.or_else duration None) as [text|]; [|done].
    destruct (search (list_ascii_of_string text)) as [[[days hours] minutes]|]
      eqn:Hsearch; [|done].
    destruct (search_digits _ _ _ _ Hsearch) as (Hd & Hh & Hm).
    pose proof (parseIntDigits_nonneg _ Hd).
    pose proof (parseIntDigits_nonneg _ Hh).
    pose proof (parseIntDigits_nonneg _ Hm). lia.
  - intros text -> Hcolon. unfold parseDuration.
    destruct (JS.or_else (Some text) None) as [text'|] eqn:Htext; [|done].
    assert (text' = text) as ->.
    { unfold JS.or_else in Htext. destruct (JS.truthy (Some text)); congruence. }
    by rewrite (search_colon _ Hcolon).
Qed.

Lemma digitRun_app (run rest : list ascii) (stop : ascii) :
  forallb isDigit run = true -> isDigit stop = false ->
  digitRun (run ++ stop :: rest) = (run, stop :: rest).
Proof.
  intros Hrun Hstop. induction run as [|c run IH]; cbn [app digitRun].
  - by rewrite Hstop.
  - cbn [forallb] in Hrun. apply andb_true_iff in Hrun as [Hc Hrun].
    by rewrite Hc, (IH Hrun).
Qed.

Lemma clockAt_clock (h1 h2 m1 m2 s1 s2 : ascii) (rest : list ascii) :
  isDigit h1 = true -> isDigit h2 = true -> isDigit m1 = true ->
  isDigit m2 = true -> isDigit s1 = true -> isDigit s2 = true ->
  clockAt ([h1; h2; colon; m1; m2; colon; s1; s2] ++ rest)
  = Some ([h1; h2], [m1; m2]).
Proof.
  intros Hh1 Hh2 Hm1 Hm2 Hs1 Hs2. cbn [app clockAt].
  by rewrite Hh1, Hh2, Hm1, Hm2, Hs1, Hs2, Ascii.eqb_refl.
Qed.

(** X27. A duration written as a clock [HH:MM:SS], with or without a
    day count [D...d] before it and whatever follows it, is read as the
    whole minutes it denotes: 1440 for each day, 60 for each hour, and
    the minutes; the seconds are dropped.  Hours and minutes are taken as
    written, also above 23 and 59.  (Day counts of up to 12 digits, for
    which the arithmetic on doubles is exact.) *)
Theorem duration_is_read_as_minutes (days : option (list ascii))
    (h1 h2 m1 m2 s1 s2 : ascii) (rest : list ascii) :
  (forall ds,
     days = Some ds ->
     ds <> [] /\ forallb isDigit ds = true /\ (length ds <= 12)%nat) ->
  isDigit h1 = true -> isDigit h2 = true -> isDigit m1 = true ->
  isDigit m2 = true -> isDigit s1 = true -> isDigit s2 = true ->
  let dayPart :=
    match days with
    | Some ds => (ds ++ ["d"%char])%list
    | None => []
    end in
  let text :=
    string_of_list_ascii
      (dayPart ++ [h1; h2; colon; m1; m2; colon; s1; s2] ++ rest) in
  parseDuration (Some text)
  = match days with Some ds => parseIntDigits ds | None => 0 end * 1440
    + (10 * digitValue h1 + digitValue h2) * 60
    + (10 * digitValue m1 + digitValue m2).
Proof.
  intros Hdays Hh1 Hh2 Hm1 Hm2 Hs1 Hs2 dayPart text.
  pose proof (clockAt_clock h1 h2 m1 m2 s1 s2 rest Hh1 Hh2 Hm1 Hm2 Hs1 Hs2)
    as Hclock.
  assert (Hmatch :
    matchAt (dayPart ++ [h1; h2; colon; m1; m2; colon; s1; s2] ++ rest)
    = Some (days, [h1; h2], [m1; m2])).
  { unfold matchAt, dayPart. destruct days as [ds|].
    - destruct (Hdays ds eq_refl) as (Hne & Hdigits & _).
      rewrite <- app_assoc. cbn [app].
      rewrite (digitRun_app ds _ "d"%char Hdigits eq_refl).
      destruct ds as [|d ds]; [done|].
      change (Ascii.eqb "d" "d") with true. cbv iota.
      change (h1 :: h2 :: colon :: m1 :: m2 :: colon :: s1 :: s2 :: rest)
        with ([h1; h2; colon; m1; m2; colon; s1; s2] ++ rest)%list.
      by rewrite Hclock.
    - cbn [app].
      change (h1 :: h2 :: colon :: m1 :: m2 :: colon :: s1 :: s2 :: rest)
        with ([h1; h2] ++ colon :: m1 :: m2 :: colon :: s1 :: s2 :: rest)%list.
      rewrite (digitRun_app [h1; h2] _ colon);
        [|by cbn; rewrite Hh1, Hh2|done].
      change (Ascii.eqb colon "d") with false. cbv iota.
      change (([h1; h2] ++ colon :: m1 :: m2 :: colon :: s1 :: s2 :: rest)%list)
        with ([h1; h2; colon; m1; m2; colon; s1; s2] ++ rest)%list.
      by rewrite Hclock. }
  assert (Htext : JS.or_else (Some text) None = Some text).
  { apply or_else_nonEmpty. unfold text, dayPart.
    destruct days as [[|d ds]|]; [by destruct (Hdays [] eq_refl)|done|done]. }
  unfold parseDuration. rewrite Htext. unfold text.
  rewrite list_ascii_of_string_of_list_ascii.
  assert (Hsearch :
    search (dayPart ++ [h1; h2; colon; m1; m2; colon; s1; s2] ++ rest)
    = Some (days, [h1; h2], [m1; m2])).
  { destruct (dayPart ++ [h1; h2; colon; m1; m2; colon; s1; s2] ++ rest)%list
      as [|c cs]; cbn [search]; by rewrite Hmatch. }
  rewrite Hsearch. unfold parseIntDigits at 2 3. cbn [fold_left].
  destruct days as [ds|].
  - change (default ["0"%char] (Some ds)) with ds. lia.
  - change (parseIntDigits (default ["0"%char] None)) with 0. lia.
Qed.

Lemma duration_example :
  parseDuration (Some "00d01:23:45") = 83.
Proof.
  apply (duration_is_read_as_minutes (Some ["0"; "0"]%char)
           "0" "1" "2" "3" "4" "5" []); try reflexivity.
  intros ds [= <-]. split; [done|]. split; [reflexivity|]. cbn. lia.
Defined.

End DurationFacts.

(* ------------------------------------------------------------------ *)
(** ** Legs *)
(* ------------------------------------------------------------------ *)

Section LegFacts.
Context `{Runtime}.
Local Open Scope Z_scope.

Lemma or_else_None_Some (o : option string) (s : string) :
  JS.or_else o None = Some s -> o = Some s /\ s <> "".
Proof.
  unfold JS.or_else, JS.truthy. destruct o as [t|]; [|done].
  destruct (String.eqb_spec t ""); cbn [negb]; [done|].
  by intros [= <-].
Qed.

Lemma or_else_None_None (o : option string) (b : string) :
  JS.or_else o None = None -> JS.or_str o b = b.
Proof.
  unfold JS.or_else, JS.truthy, JS.or_str. destruct o as [t|]; [|done].
  by destruct (String.eqb t "").
Qed.

Lemma timeActualOf_wellFormed (actual planned : option string) (a : string) :
  timeActualOf actual planned = Some a ->
  a <> "" /\ a <> JS.or_str planned "".
Proof.
  unfold timeActualOf.
  destruct (JS.or_else actual None) as [a'|] eqn:Hactual; [|done].
  apply or_else_None_Some in Hactual as [_ Hne].
  destruct (differs a' planned) eqn:Hdiffers; [|done].
  intros [= <-]. split; [done|].
  unfold differs in Hdiffers. unfold JS.or_str.
  destruct planned as [p|]; [|done].
  apply negb_true_iff, String.eqb_neq in Hdiffers.
  by destruct (String.eqb p "").
Qed.

Lemma timeActualOf_read (actual planned : option string) :
  JS.or_str (timeActualOf actual planned) (JS.or_str planned "")
  = JS.or_str actual (JS.or_str planned "").
Proof.
  unfold timeActualOf.
  destruct (JS.or_else actual None) as [a|] eqn:Hactual.
  - apply or_else_None_Some in Hactual as [-> Hne].
    apply String.eqb_neq in Hne as Hne'.
    unfold differs. destruct planned as [p|]; cbn [JS.or_str].
    + destruct (String.eqb_spec a p) as [<-|]; cbn [negb JS.or_str];
        by rewrite Hne'.
    + by rewrite Hne'.
  - by rewrite (or_else_None_None actual).
Qed.

(** X28. Every section becomes one leg, a walk exactly when the section
    is one, and no leg carries a value that stands for nothing: a delay
    is present only when it is positive, and it is a whole number of
    minutes; an actual time is present only
    when it is not empty and differs from the planned time; a platform is
    present only when it is not empty; a walk has no line.  Dropping an
    actual time that equals the planned one loses nothing: the time the
    metrics read at a stop is the prognosis when one is given, else the
    planned time. *)
Theorem legs_carry_no_empty_values (sections : list Transport.Section_)
    (gtfsLookup : option GtfsLookup.t) :
  Forall2
    (fun section leg =>
       Leg.type leg = (if Transport.walk section then walk else ride)
       /\ stopWellFormed (Leg.from leg)
       /\ stopWellFormed (Leg.to leg)
       /\ (forall delay,
             Leg.delayMinutes leg = Some delay ->
             exists d, delay = inject_Z d /\ 0 < d)
       /\ (Leg.type leg = walk -> Leg.line leg = None)
       /\ actualOrPlanned (Leg.from leg)
          = Some (JS.or_str
                    (Transport.prognosisDeparture
                       (Transport.sectionDeparture section))
                    (JS.or_str
                       (Transport.departure
                          (Transport.sectionDeparture section)) ""))
       /\ actualOrPlanned (Leg.to leg)
          = Some (JS.or_str
                    (Transport.prognosisArrival
                       (Transport.sectionArrival section))
                    (JS.or_str
                       (Transport.arrival
                          (Transport.sectionArrival section)) "")))
    sections (normalizeLegs sections gtfsLookup).
Proof.
  unfold normalizeLegs.
  induction sections as [|section sections IH]; [constructor|].
  cbn [List.map]. constructor; [|done]. clear IH.
  unfold normalizeLeg, stopWellFormed, actualOrPlanned.
  cbn [Leg.type Leg.from Leg.to Leg.line Leg.delayMinutes
       Stop.timeActual Stop.timePlanned Stop.platform].
  split; [done|]. split; [|split; [|split; [|split; [|split]]]].
  - split; [apply timeActualOf_wellFormed|].
    intros platform Hplatform.
    by apply or_else_None_Some in Hplatform as [_ ?].
  - split; [apply timeActualOf_wellFormed|].
    intros platform Hplatform.
    by apply or_else_None_Some in Hplatform as [_ ?].
  - intros delay.
    destruct (sectionDelay _) as [d|]; [|done].
    destruct (Z.ltb_spec 0 d); [|by rewrite andb_false_r].
    destruct (negb (d =? 0)); cbn [andb]; [|done].
    intros [= <-]. by exists d.
  - destruct (Transport.walk section); [|done]. intros _.
    by destruct (Transport.journey section).
  - by rewrite timeActualOf_read.
  - by rewrite timeActualOf_read.
Qed.

(** The legs that [normalizeLegs] makes have whole delays. *)
Lemma normalizeLegs_wholeDelay (sections : list Transport.Section_)
    (gtfsLookup : option GtfsLookup.t) :
  Forall (fun leg => wholeDelay leg = true)
         (normalizeLegs sections gtfsLookup).
Proof.
  unfold normalizeLegs. apply Forall_forall. intros leg Hleg.
  apply list_elem_of_In, in_map_iff in Hleg as (section & <- & _).
  unfold wholeDelay, normalizeLeg. cbn [Leg.delayMinutes].
  destruct (sectionDelay _) as [d|]; [|done].
  destruct (negb (d =? 0) && (0 <? d)); [|done].
  apply isInteger_inject_Z.
Qed.

End LegFacts.

(* ------------------------------------------------------------------ *)
(** ** The figures of a disruption check *)
(* ------------------------------------------------------------------ *)

Section DisruptionFacts.
Local Open Scope Z_scope.

Lemma delaysOfLegs_positive (legs : list Leg.t) :
  Forall (fun d => (0 < d)%Q) (Disruptions.delaysOfLegs legs).
Proof.
  unfold Disruptions.delaysOfLegs.
  induction legs as [|leg legs IH]; [constructor|].
  cbn [omap list_omap] in IH |- *.
  destruct (Leg.delayMinutes leg) as [d|]; [|done].
  destruct (JS.positive d) eqn:Hd; [|done].
  constructor; [by apply positive_lt|done].
Qed.

Lemma delaysOfLegs_whole (legs : list Leg.t) :
  Forall (fun leg => wholeDelay leg = true) legs ->
  Forall (fun d => JS.isInteger d = true) (Disruptions.delaysOfLegs legs).
Proof.
  unfold Disruptions.delaysOfLegs.
  induction legs as [|leg legs IH]; intros Hwhole; [constructor|].
  apply Forall_cons in Hwhole as [Hleg Hwhole]. specialize (IH Hwhole).
  cbn [omap list_omap] in IH |- *. unfold wholeDelay in Hleg.
  destruct (Leg.delayMinutes leg) as [d|]; [|done].
  destruct (JS.positive d); [|done].
  by constructor.
Qed.

Lemma maxOf_spec (x : Q) (l : list Q) :
  fold_left JS.maxQ l x ∈ x :: l
  /\ forall y, y ∈ x :: l -> (y <= fold_left JS.maxQ l x)%Q.
Proof.
  revert x. induction l as [|z l IH]; intros x; cbn [fold_left].
  - split; [apply list_elem_of_here|].
    intros y Hy. apply list_elem_of_singleton in Hy. subst y. apply Qle_refl.
  - destruct (IH (JS.maxQ x z)) as [Hin Hmax].
    pose proof (Hmax _ (list_elem_of_here _ _)) as Hfirst.
    split.
    + apply elem_of_cons in Hin as [Heq|Hin].
      * rewrite Heq. destruct (maxQ_cases x z) as [[-> _]|[-> _]].
        -- apply list_elem_of_here.
        -- apply list_elem_of_further, list_elem_of_here.
      * by do 2 apply list_elem_of_further.
    + assert (Hboth : (x <= JS.maxQ x z /\ z <= JS.maxQ x z)%Q).
      { destruct (maxQ_cases x z) as [[-> Hle]|[-> Hlt]]; split; lra. }
      intros y Hy. apply elem_of_cons in Hy as [->|Hy].
      * eapply Qle_trans; [apply Hboth | done].
      * apply elem_of_cons in Hy as [->|Hy].
        -- eapply Qle_trans; [apply Hboth | done].
        -- by apply Hmax, list_elem_of_further.
Qed.

Lemma sumQ_shift (l : list Q) (acc : Q) :
  (fold_left Qplus l acc == acc + fold_left Qplus l 0)%Q.
Proof.
  revert acc. induction l as [|y l IH]; intros acc; cbn [fold_left]; [lra|].
  rewrite (IH (acc + y)%Q), (IH (0 + y)%Q). lra.
Qed.

Lemma sumOf_bounds (l : list Q) (lo hi : Q) :
  Forall (fun x => (lo <= x <= hi)%Q) l ->
  (inject_Z (Z.of_nat (length l)) * lo <= Disruptions.sumOf l
   <= inject_Z (Z.of_nat (length l)) * hi)%Q.
Proof.
  unfold Disruptions.sumOf.
  induction l as [|x l IH]; intros Hall.
  { cbn [length fold_left]. change (inject_Z (Z.of_nat 0)) with 0%Q. lra. }
  apply Forall_cons in Hall as [Hx Hall]. specialize (IH Hall).
  cbn [fold_left length]. rewrite sumQ_shift.
  rewrite Nat2Z.inj_succ, <- Z.add_1_r, inject_Z_plus.
  change (inject_Z 1) with 1%Q. lra.
Qed.

(** The mean of numbers between two bounds lies between them, and so
    does its rounding, up to a half. *)
Lemma average_bounds (l : list Q) (lo hi : Q) :
  l <> [] -> Forall (fun x => (lo <= x <= hi)%Q) l ->
  let count := inject_Z (Z.of_nat (length l)) in
  (lo - (1 # 2) < inject_Z (JS.roundQ (Disruptions.sumOf l / count))
   <= hi + (1 # 2))%Q.
Proof.
  intros Hsome Hall count.
  pose proof (sumOf_bounds l lo hi Hall) as [Hlo Hhi]. fold count in Hlo, Hhi.
  assert (Hcount : (0 < count)%Q).
  { unfold count. change 0%Q with (inject_Z 0). rewrite <- Zlt_Qlt.
    destruct l; [done | cbn [length]; lia]. }
  assert (Hmean : (lo <= Disruptions.sumOf l / count <= hi)%Q).
  { split.
    - apply Qle_shift_div_l; [done |]. lra.
    - apply Qle_shift_div_r; [done |]. lra. }
  pose proof (roundQ_bounds (Disruptions.sumOf l / count)) as [Hdown Hup].
  split; lra.
Qed.

Lemma whole_positive (d : Q) :
  JS.isInteger d = true -> (0 < d)%Q -> (1 <= d)%Q.
Proof.
  intros Hwhole Hpos. apply isInteger_whole in Hwhole as [z Hz].
  rewrite Hz in Hpos |- *. change 0%Q with (inject_Z 0) in Hpos.
  change 1%Q with (inject_Z 1). rewrite <- Zlt_Qlt in Hpos.
  rewrite <- Zle_Qle. lia.
Qed.

(** X29. The figures of a disruption check fit the delays gathered
    from the legs: the status is normal exactly when fewer than two hubs
    gave no answer and no leg is delayed, and disrupted exactly when at
    least two hubs gave no answer or some leg is more than 30 minutes
    late; without delays the average and the maximum are 0; with delays
    the maximum is one of them and the average is not negative; when
    the delays are whole numbers of minutes, as those that
    [normalizeLegs] rounds are, the average lies between 1 and the
    maximum. *)
Theorem disruption_figures_fit_the_delays (cancelledOrMissing totalChecked : nat)
    (legs : list Leg.t) :
  let delays := Disruptions.delaysOfLegs legs in
  let figures :=
    Disruptions.figuresOf cancelledOrMissing totalChecked delays in
  (Disruptions.status figures = Disruptions.normal
   <-> (cancelledOrMissing < 2)%nat /\ delays = [])
  /\ (Disruptions.status figures = Disruptions.disrupted
      <-> (2 <= cancelledOrMissing)%nat
          \/ exists delay, delay ∈ delays /\ (30 < delay)%Q)
  /\ (delays = [] ->
      Disruptions.averageDelayMinutes figures = 0
      /\ Disruptions.maxDelayMinutes figures = 0%Q)
  /\ (delays <> [] ->
      Disruptions.maxDelayMinutes figures ∈ delays
      /\ 0 <= Disruptions.averageDelayMinutes figures
      /\ (Forall (fun leg => wholeDelay leg = true) legs ->
          1 <= Disruptions.averageDelayMinutes figures
          /\ (inject_Z (Disruptions.averageDelayMinutes figures)
              <= Disruptions.maxDelayMinutes figures)%Q)).
Proof.
  cbv zeta. pose proof (delaysOfLegs_positive legs) as Hpositive.
  pose proof (delaysOfLegs_whole legs) as Hwhole.
  destruct (Disruptions.delaysOfLegs legs) as [|d ds] eqn:Hdelays.
  - unfold Disruptions.figuresOf.
    cbn [length Disruptions.status
         Disruptions.averageDelayMinutes Disruptions.maxDelayMinutes].
    change (0 <? 0)%nat with false. cbv iota.
    change (JS.ltQ 30 0) with false. change (JS.ltQ 15 0) with false.
    change (JS.ltQ 5 0) with false. change (0 <? Z.of_nat 0) with false.
    change (2 * Z.of_nat 0) with 0.
    assert (Htotal : (Z.of_nat totalChecked <? 0) = false)
      by (apply Z.ltb_ge; lia).
    rewrite Htotal, !orb_false_r. cbn [orb].
    destruct (Nat.leb_spec 2 cancelledOrMissing) as [Hmany|Hfew].
    + split; [split; [done|lia]|]. split; [split; [by left|done]|].
      split; done.
    + split; [split; [done|done]|]. split; [|split; done].
      split; [done|]. intros [?|(delay & Hin & _)]; [lia|].
      by apply not_elem_of_nil in Hin.
  - set (delays := d :: ds) in *.
    destruct (maxOf_spec d ds) as [Hin Hmax]. fold delays in Hin, Hmax.
    assert (Hbounds :
      Forall (fun x => (0 <= x <= fold_left JS.maxQ ds d)%Q) delays).
    { apply Forall_forall. intros x Hx. split; [|by apply Hmax].
      apply Qlt_le_weak. by apply (proj1 (Forall_forall _ _) Hpositive). }
    assert (Hsome : delays <> []) by done.
    pose proof (average_bounds delays _ _ Hsome Hbounds) as Haverage.
    cbv zeta in Haverage.
    assert (Hcount : 0 < Z.of_nat (length delays)) by (cbn; lia).
    unfold Disruptions.figuresOf.
    change (0 <? length delays)%nat with true. cbv iota.
    cbn [Disruptions.status Disruptions.averageDelayMinutes
         Disruptions.maxDelayMinutes].
    change (match delays with
            | d0 :: ds0 => fold_left JS.maxQ ds0 d0
            | [] => 0%Q
            end)
      with (fold_left JS.maxQ ds d).
    set (maxDelay := fold_left JS.maxQ ds d) in *.
    set (count := Z.of_nat (length delays)) in *.
    set (average := JS.roundQ (Disruptions.sumOf delays / inject_Z count)) in *.
    assert (Hpos : (0 <? count) = true) by (apply Z.ltb_lt; lia).
    rewrite Hpos, orb_true_r.
    assert (Hlate : JS.ltQ 30 maxDelay = true
                    <-> exists delay, delay ∈ delays /\ (30 < delay)%Q).
    { rewrite ltQ_lt. split; [by exists maxDelay|].
      intros (delay & Hdelay & Hlate). specialize (Hmax _ Hdelay). lra. }
    split; [|split; [|split; [done|]]].
    + split; [|by intros [_ ?]].
      destruct ((2 <=? cancelledOrMissing)%nat || JS.ltQ 30 maxDelay); [done|].
      by destruct (JS.ltQ 15 maxDelay || (Z.of_nat totalChecked <? 2 * count)).
    + rewrite <- Hlate.
      destruct (Nat.leb_spec 2 cancelledOrMissing) as [Hmany|Hfew];
        cbn [orb]; [split; [by left|done]|].
      destruct (JS.ltQ 30 maxDelay) eqn:Hover.
      * split; [by right|done].
      * split; [|intros [?|?]; [lia | done]].
        by destruct (JS.ltQ 15 maxDelay || (Z.of_nat totalChecked <? 2 * count)).
    + intros _. split; [done|]. destruct Haverage as [Hdown Hup].
      split.
      * assert (Hlt : (inject_Z (-1) < inject_Z average)%Q)
          by (change (inject_Z (-1)) with (-1)%Q; lra).
        rewrite <- Zlt_Qlt in Hlt. lia.
      * intros Hlegs. specialize (Hwhole Hlegs).
        assert (Hones :
          Forall (fun x => (1 <= x <= maxDelay)%Q) delays).
        { apply Forall_forall. intros x Hx. split; [|by apply Hmax].
          apply whole_positive.
          - by apply (proj1 (Forall_forall _ _) Hwhole).
          - by apply (proj1 (Forall_forall _ _) Hpositive). }
        pose proof (average_bounds delays _ _ Hsome Hones) as [Hdown' _].
        cbv zeta in Hdown'. fold count average in Hdown'.
        assert (Hmaxwhole : JS.isInteger maxDelay = true)
          by (by apply (proj1 (Forall_forall _ _) Hwhole)).
        apply isInteger_whole in Hmaxwhole as [top Htop].
        split.
        -- assert (Hlt : (inject_Z 0 < inject_Z average)%Q)
             by (change (inject_Z 0) with 0%Q; lra).
           rewrite <- Zlt_Qlt in Hlt. lia.
        -- rewrite Htop in Hup |- *.
           assert (Hlt : (inject_Z average < inject_Z (top + 1))%Q).
           { rewrite inject_Z_plus. change (inject_Z 1) with 1%Q. lra. }
           rewrite <- Zlt_Qlt in Hlt. rewrite <- Zle_Qle. lia.
Qed.

End DisruptionFacts.

(* ------------------------------------------------------------------ *)
(** ** The tags of the connections found *)
(* ------------------------------------------------------------------ *)

Section TagFacts.
Local Open Scope Z_scope.

Lemma leastOf_fold (values : list Z) (best : option Z) :
  let least :=
    fold_left (fun best x => if belowBest x best then Some x else best)
              values best in
  (least = None <-> best = None /\ values = [])
  /\ forall m,
       least = Some m ->
       (best = Some m \/ m ∈ values)
       /\ (forall b, best = Some b -> m <= b)
       /\ forall x, x ∈ values -> m <= x.
Proof.
  revert best. induction values as [|v values IH]; intros best; cbv zeta.
  - cbn [fold_left]. split; [by split; [|intros [? _]]|].
    intros m ->. split; [by left|]. split; [by intros b [= <-]|].
    intros x Hx. by apply not_elem_of_nil in Hx.
  - cbn [fold_left].
    destruct (IH (if belowBest v best then Some v else best)) as [Hnone Hsome].
    cbv zeta in Hnone, Hsome. split.
    + rewrite Hnone. split; [|by intros [_ ?]].
      intros [Hbest _]. unfold belowBest in Hbest.
      destruct best as [b|]; [by destruct (v <? b)|done].
    + intros m Hm. destruct (Hsome m Hm) as (Hfrom & Hbest & Hall).
      unfold belowBest in Hfrom, Hbest.
      destruct best as [b|].
      * destruct (Z.ltb_spec v b) as [Hlt|Hge].
        -- specialize (Hbest v eq_refl). split; [|split].
           ++ right. destruct Hfrom as [[= <-]|?];
                [apply list_elem_of_here|by apply list_elem_of_further].
           ++ intros b' [= <-]. lia.
           ++ intros x Hx. apply elem_of_cons in Hx as [->|Hx];
                [done|by apply Hall].
        -- specialize (Hbest b eq_refl). split; [|split].
           ++ destruct Hfrom as [?|?]; [by left|].
              right. by apply list_elem_of_further.
           ++ by intros b' [= <-].
           ++ intros x Hx. apply elem_of_cons in Hx as [->|Hx];
                [lia|by apply Hall].
      * specialize (Hbest v eq_refl). split; [|split; [done|]].
        -- right. destruct Hfrom as [[= <-]|?];
             [apply list_elem_of_here|by apply list_elem_of_further].
        -- intros x Hx. apply elem_of_cons in Hx as [->|Hx];
             [done|by apply Hall].
Qed.

Lemma isBest_leastOf (values : list Z) (x : Z) :
  x ∈ values ->
  isBest x (leastOf values) = true <-> forall y, y ∈ values -> x <= y.
Proof.
  intros Hx. destruct (leastOf_fold values None) as [Hnone Hsome].
  cbv zeta in Hnone, Hsome. fold (leastOf values) in Hnone, Hsome.
  destruct (leastOf values) as [m|] eqn:Hleast.
  - destruct (Hsome m eq_refl) as ([?|Hin] & _ & Hall); [done|].
    cbn [isBest]. rewrite Z.eqb_eq. split.
    + intros -> y Hy. by apply Hall.
    + intros Hleast'. specialize (Hall x Hx). specialize (Hleast' m Hin). lia.
  - destruct (proj1 Hnone eq_refl) as [_ ->]. by apply not_elem_of_nil in Hx.
Qed.

(** X30. The tags mark the best connections of a search: a connection
    is tagged fastest exactly when no connection found has a shorter
    duration, and tagged with fewest transfers exactly when none has
    fewer transfers, ties being tagged alike; the tag recommended goes to
    the first connection and to no other. *)
Theorem tags_mark_the_best (conns : list Transport.Connection) (i : nat)
    (conn : Transport.Connection) :
  conns !! i = Some conn ->
  exists tags,
    tagsOfConnections conns !! i = Some tags
    /\ ("fastest" ∈ tags
        <-> forall other,
              other ∈ conns ->
              parseDuration (Transport.duration conn)
              <= parseDuration (Transport.duration other))
    /\ ("fewest transfers" ∈ tags
        <-> forall other,
              other ∈ conns ->
              Transport.transfers conn <= Transport.transfers other)
    /\ ("recommended" ∈ tags <-> i = 0%nat).
Proof.
  intros Hconn. unfold tagsOfConnections. cbv zeta.
  rewrite list_lookup_imap, Hconn. cbn [fmap option_fmap option_map].
  eexists. split; [reflexivity|].
  set (durations :=
    List.map (fun c => parseDuration (Transport.duration c)) conns).
  set (transfers := List.map Transport.transfers conns).
  assert (Hin : conn ∈ conns) by (by eapply list_elem_of_lookup_2).
  assert (Hduration : parseDuration (Transport.duration conn) ∈ durations).
  { apply list_elem_of_In, in_map_iff. exists conn.
    split; [done|by apply list_elem_of_In]. }
  assert (Htransfers : Transport.transfers conn ∈ transfers).
  { apply list_elem_of_In, in_map_iff. exists conn.
    split; [done|by apply list_elem_of_In]. }
  pose proof (isBest_leastOf durations _ Hduration) as Hfastest.
  pose proof (isBest_leastOf transfers _ Htransfers) as Hfewest.
  unfold tagsOf.
  split; [|split].
  - rewrite !elem_of_app. split.
    + intros [Htag|[Htag|Htag]].
      * destruct (isBest _ (leastOf durations)) eqn:Hbest;
          [|by apply not_elem_of_nil in Htag].
        intros other Hother. apply (proj1 Hfastest eq_refl).
        apply list_elem_of_In, in_map_iff. exists other.
        split; [done|by apply list_elem_of_In].
      * destruct (isBest _ (leastOf transfers));
          [by apply list_elem_of_singleton in Htag
          |by apply not_elem_of_nil in Htag].
      * destruct (i =? 0)%nat;
          [by apply list_elem_of_singleton in Htag
          |by apply not_elem_of_nil in Htag].
    + intros Hleast. left.
      rewrite (proj2 Hfastest); [apply list_elem_of_here|].
      intros y Hy. apply list_elem_of_In, in_map_iff in Hy as (other & <- & Hy).
      by apply Hleast, list_elem_of_In.
  - rewrite !elem_of_app. split.
    + intros [Htag|[Htag|Htag]].
      * destruct (isBest _ (leastOf durations));
          [by apply list_elem_of_singleton in Htag
          |by apply not_elem_of_nil in Htag].
      * destruct (isBest _ (leastOf transfers)) eqn:Hbest;
          [|by apply not_elem_of_nil in Htag].
        intros other Hother. apply (proj1 Hfewest eq_refl).
        apply list_elem_of_In, in_map_iff. exists other.
        split; [done|by apply list_elem_of_In].
      * destruct (i =? 0)%nat;
          [by apply list_elem_of_singleton in Htag
          |by apply not_elem_of_nil in Htag].
    + intros Hleast. right. left.
      rewrite (proj2 Hfewest); [apply list_elem_of_here|].
      intros y Hy. apply list_elem_of_In, in_map_iff in Hy as (other & <- & Hy).
      by apply Hleast, list_elem_of_In.
  - rewrite !elem_of_app. split.
    + intros [Htag|[Htag|Htag]].
      * destruct (isBest _ (leastOf durations));
          [by apply list_elem_of_singleton in Htag
          |by apply not_elem_of_nil in Htag].
      * destruct (isBest _ (leastOf transfers));
          [by apply list_elem_of_singleton in Htag
          |by apply not_elem_of_nil in Htag].
      * destruct (Nat.eqb_spec i 0); [done|by apply not_elem_of_nil in Htag].
    + intros ->. right. right. apply list_elem_of_here.
Qed.

Lemma tags_example :
  exists tags,
    tagsOfConnections [TransportData.slow; TransportData.quick] !! 1%nat
    = Some tags
    /\ ("fastest" ∈ tags
        <-> forall other,
              other ∈ [TransportData.slow; TransportData.quick] ->
              parseDuration (Transport.duration TransportData.quick)
              <= parseDuration (Transport.duration other))
    /\ ("fewest transfers" ∈ tags
        <-> forall other,
              other ∈ [TransportData.slow; TransportData.quick] ->
              Transport.transfers TransportData.quick
              <= Transport.transfers other)
    /\ ("recommended" ∈ tags <-> 1%nat = 0%nat).
Proof.
  apply (tags_mark_the_best [TransportData.slow; TransportData.quick] 1
           TransportData.quick).
  reflexivity.
Defined.

End TagFacts.
